(** * A shallow embedding of the logging core

    The development follows the Go sources of the package: the level scale
    (loglevel), the logger registry and dispatch pipeline (logging), the
    generic appenders (appender) and the rolling file appender.  Go values
    are modelled as the code has them: [LogLevel] (a [uint8]) and the
    counters (a [uint64]) as [Z], pointers as indices into explicit stores,
    Go maps as [gmap], nil-able maps and slices as [option].

    What runs under [logMutex] is one function on the package state.  The
    goroutines that [flushBuffer] starts are tasks of a runtime state, and
    a transition relation interleaves their moves with those of the
    consumer and of the producers.  The control channel of the consumer
    (pause, restart, stop) is left out: the consumer is running.
    [strings.ToLower] and [time.Time.Format] are parameters of the level
    and format names, an [io.Writer] is a class. *)

From Stdlib Require Import ZArith Lia.
From stdpp Require Import base option list gmap strings pretty.

Open Scope Z_scope.

(** ** loglevel: the severity scale *)

Module LogLevels.

(** [type LogLevel uint8]; the constants are an [iota] enumeration. *)
Abbreviation LogLevel := Z (only parsing).

Definition DEFAULT : LogLevel := 0.
Definition VERBOSE : LogLevel := 1.
Definition DEBUG : LogLevel := 2.
Definition INFO : LogLevel := 3.
Definition WARN : LogLevel := 4.
Definition ERROR : LogLevel := 5.
Definition PANIC : LogLevel := 6.

End LogLevels.
Export LogLevels.

(** ** container/ring as used by the loggers

    A [*ring.Ring] points at one element of a circular list.  The model is
    the list of slot values read forward from the element pointed at; the
    nil ring is the empty list (Go has no other empty ring).  A slot holds
    [nil] or a [*LogRecord], here an index into the record store. *)

Module Ring.

Abbreviation Ring := (list (option nat)) (only parsing).

(** [ring.New(n)]: n fresh nil slots, and nil when [n <= 0]. *)
Definition New (n : Z) : Ring :=
  if n <=? 0 then [] else replicate (Z.to_nat n) None.

(** [r.Len()], also defined on the nil ring. *)
Definition Len (r : Ring) : Z := Z.of_nat (length r).

(** [r.Next()]: the same ring seen from the following element. *)
Definition Next (r : Ring) : Ring :=
  match r with
  | [] => []
  | x :: rest => rest ++ [x]
  end.

(** [r.Value = v] on the element pointed at. *)
Definition setValue (v : option nat) (r : Ring) : Ring :=
  match r with
  | [] => []
  | _ :: rest => v :: rest
  end.

(** [r.Do(f)] calls [f] on every slot value, forward from the element
    pointed at; these are the values in the order of the calls. *)
Definition Do (r : Ring) : list (option nat) := r.

End Ring.

(** ** Go channels, as far as the package uses them

    A channel has a capacity, the values buffered in it and the receivers
    blocked on it; [received] keeps what receivers have taken.  A send can
    complete at once when a receiver is waiting or the buffer has room. *)

Module Chan.

Record Chan (T : Type) := mkChan {
  cap : nat;
  buf : list T;
  waiting : nat;
  received : list T;
}.
Arguments mkChan {T} _ _ _ _.
Arguments cap {T} _.
Arguments buf {T} _.
Arguments waiting {T} _.
Arguments received {T} _.

(** [make(chan T, n)] *)
Definition make {T} (n : nat) : Chan T := mkChan n [] 0%nat [].

(** [c <- v] when it can proceed; [None] when the sender would block. *)
Definition trySend {T} (v : T) (c : Chan T) : option (Chan T) :=
  match waiting c with
  | S k => Some (mkChan (cap c) (buf c) k (received c ++ [v]))
  | O =>
      if (length (buf c) <? cap c)%nat
      then Some (mkChan (cap c) (buf c ++ [v]) 0%nat (received c))
      else None
  end.

(** [select { case c <- v: default: }]: send if that can be done at once,
    drop the value otherwise. *)
Definition sendOrDrop {T} (v : T) (c : Chan T) : Chan T :=
  default c (trySend v c).

(** Such sends for a list of values, in order. *)
Definition sendAll {T} (vs : list T) (c : Chan T) : Chan T :=
  foldl (fun acc v => sendOrDrop v acc) c vs.

End Chan.

(** ** logging: records, loggers, appenders and the package state *)

Module Logging.

(** [error] values are represented by their text. *)
Abbreviation error := string (only parsing).

(** [time.Time] values are instants on the integer line. *)
Abbreviation Instant := Z (only parsing).

(** [LogRecord]; [Tags] is a nil-able slice, [Logger] a [*LoggerImpl]. *)
Record LogRecord := mkRecord {
  Time : Instant;
  Original : Instant;
  Level : LogLevel;
  Tags : option (list string);
  Message : string;
  Logger : nat;
}.

(** [LoggerImpl]; [tagLevels] is a nil-able Go map. *)
Record LoggerImpl := mkLogger {
  name : string;
  level : LogLevel;
  tagLevels : option (gmap string LogLevel);
  buffer : Ring.Ring;
}.

#[global] Instance LoggerImpl_inhabited : Inhabited LoggerImpl :=
  populate (mkLogger "" DEFAULT None []).

#[global] Instance LogRecord_inhabited : Inhabited LogRecord :=
  populate (mkRecord 0 0 DEFAULT None "" 0%nat).

(** [LogFormatter] *)
Definition LogFormatter :=
  LogLevel -> option (list string) -> string -> Instant -> Instant -> string.

Definition minimalFormat : LogFormatter :=
  fun level tags message t original => message.

(** The [LogAppender] interface.  [Log] receives the package's
    [defaultFormatter], which [BaseLogAppender.format] reads, and the
    record as it is when the call is made. *)
Class LogAppender (A : Type) := {
  Log : LogFormatter -> LogRecord -> A -> A * option error;
  SetLevel : LogLevel -> A -> A;
  SetFormatter : LogFormatter -> A -> A;
}.

Definition setLevel (l : LogLevel) (x : LoggerImpl) : LoggerImpl :=
  mkLogger (name x) l (tagLevels x) (buffer x).
Definition setTagLevels (m : option (gmap string LogLevel)) (x : LoggerImpl)
    : LoggerImpl :=
  mkLogger (name x) (level x) m (buffer x).
Definition setBuffer (b : Ring.Ring) (x : LoggerImpl) : LoggerImpl :=
  mkLogger (name x) (level x) (tagLevels x) b.
Definition setTime (t : Instant) (r : LogRecord) : LogRecord :=
  mkRecord t (Original r) (Level r) (Tags r) (Message r) (Logger r).

(** Two states of a record that differ in [Time] at most. *)
Definition sameButTime (a b : LogRecord) : Prop :=
  Original b = Original a /\ Level b = Level a /\ Tags b = Tags a
  /\ Message b = Message a /\ Logger b = Logger a.

(** The 64-bit counters wrap. *)
Definition u64 (x : Z) : Z := x mod 2 ^ 64.

(** Capacity of [incomingChannel]. *)
Definition incomingCap : nat := 2048.

Section Package.

Context {A : Type} `{!LogAppender A}.

(** The package-level variables, the two object stores that the
    pointers index ([lstore] for [*LoggerImpl], [rstore] for
    [*LogRecord]) and the wall clock that [time.Now()] reads.
    [incomingChannel] holds the queued record pointers, oldest first. *)
Record State := mkState {
  defaultLogger : nat;
  defaultFormatter : LogFormatter;
  appenders : list A;
  loggers : gmap string nat;
  incomingChannel : list nat;
  logged : Z;
  processed : Z;
  logErrors : option (Chan.Chan error);
  enableVerbose : Z;
  lstore : list LoggerImpl;
  rstore : list LogRecord;
  clock : Instant;
}.

Definition set_defaultFormatter (v : LogFormatter) (st : State) : State :=
  mkState (defaultLogger st) v (appenders st) (loggers st)
    (incomingChannel st) (logged st) (processed st) (logErrors st)
    (enableVerbose st) (lstore st) (rstore st) (clock st).
Definition set_appenders (v : list A) (st : State) : State :=
  mkState (defaultLogger st) (defaultFormatter st) v (loggers st)
    (incomingChannel st) (logged st) (processed st) (logErrors st)
    (enableVerbose st) (lstore st) (rstore st) (clock st).
Definition set_loggers (v : gmap string nat) (st : State) : State :=
  mkState (defaultLogger st) (defaultFormatter st) (appenders st) v
    (incomingChannel st) (logged st) (processed st) (logErrors st)
    (enableVerbose st) (lstore st) (rstore st) (clock st).
Definition set_incomingChannel (v : list nat) (st : State) : State :=
  mkState (defaultLogger st) (defaultFormatter st) (appenders st) (loggers st)
    v (logged st) (processed st) (logErrors st) (enableVerbose st) (lstore st)
    (rstore st) (clock st).
Definition set_logged (v : Z) (st : State) : State :=
  mkState (defaultLogger st) (defaultFormatter st) (appenders st) (loggers st)
    (incomingChannel st) v (processed st) (logErrors st) (enableVerbose st)
    (lstore st) (rstore st) (clock st).
Definition set_processed (v : Z) (st : State) : State :=
  mkState (defaultLogger st) (defaultFormatter st) (appenders st) (loggers st)
    (incomingChannel st) (logged st) v (logErrors st) (enableVerbose st)
    (lstore st) (rstore st) (clock st).
Definition set_logErrors (v : option (Chan.Chan error)) (st : State) : State :=
  mkState (defaultLogger st) (defaultFormatter st) (appenders st) (loggers st)
    (incomingChannel st) (logged st) (processed st) v (enableVerbose st)
    (lstore st) (rstore st) (clock st).
Definition set_enableVerbose (v : Z) (st : State) : State :=
  mkState (defaultLogger st) (defaultFormatter st) (appenders st) (loggers st)
    (incomingChannel st) (logged st) (processed st) (logErrors st) v
    (lstore st) (rstore st) (clock st).
Definition set_lstore (v : list LoggerImpl) (st : State) : State :=
  mkState (defaultLogger st) (defaultFormatter st) (appenders st) (loggers st)
    (incomingChannel st) (logged st) (processed st) (logErrors st)
    (enableVerbose st) v (rstore st) (clock st).
Definition set_rstore (v : list LogRecord) (st : State) : State :=
  mkState (defaultLogger st) (defaultFormatter st) (appenders st) (loggers st)
    (incomingChannel st) (logged st) (processed st) (logErrors st)
    (enableVerbose st) (lstore st) v (clock st).
Definition set_clock (v : Instant) (st : State) : State :=
  mkState (defaultLogger st) (defaultFormatter st) (appenders st) (loggers st)
    (incomingChannel st) (logged st) (processed st) (logErrors st)
    (enableVerbose st) (lstore st) (rstore st) v.

Definition deref (st : State) (p : nat) : LoggerImpl := lstore st !!! p.
Definition record (st : State) (r : nat) : LogRecord := rstore st !!! r.

(** Assignment through a [*LoggerImpl] or a [*LogRecord]. *)
Definition updLogger (p : nat) (f : LoggerImpl -> LoggerImpl) (st : State)
    : State :=
  set_lstore (alter f p (lstore st)) st.
Definition updRecord (r : nat) (f : LogRecord -> LogRecord) (st : State)
    : State :=
  set_rstore (alter f r (rstore st)) st.

(** *** Configuration calls (each runs under [logMutex]) *)

(** [setBufferLengthImpl] *)
Definition setBufferLengthImpl (logger : nat) (length : Z) (st : State)
    : State :=
  if length =? 0 then updLogger logger (setBuffer []) st
  else if negb (length =? Ring.Len (buffer (deref st logger)))
  then updLogger logger (setBuffer (Ring.New length)) st
  else st.

(** [SetBufferLength] *)
Definition SetBufferLength (logger : nat) (length : Z) (st : State)
    : State :=
  setBufferLengthImpl logger length st.

(** [SetDefaultBufferLength]: the default logger, then every registered
    logger that has no buffer (they do not interfere, so the order of the
    range does not matter). *)
Definition SetDefaultBufferLength (length : Z) (st : State) : State :=
  foldr (fun val acc =>
           if bool_decide (buffer (deref acc val) = [])
           then setBufferLengthImpl val length acc else acc)
        (setBufferLengthImpl (defaultLogger st) length st)
        (map_to_list (loggers st)).*2.

(** [GetLogger]: the registered logger, or a new one with level
    [DEFAULT] and the default logger's buffer length. *)
Definition GetLogger (nm : string) (st : State) : nat * State :=
  match loggers st !! nm with
  | Some logger => (logger, st)
  | None =>
      let logger := length (lstore st) in
      let st1 := set_lstore (lstore st ++ [mkLogger nm DEFAULT None []]) st in
      let st2 := SetBufferLength logger
                   (Ring.Len (buffer (deref st1 (defaultLogger st1)))) st1 in
      (logger, set_loggers (<[nm := logger]> (loggers st2)) st2)
  end.

Definition EnableVerboseLogging (st : State) : State := set_enableVerbose 1 st.
Definition DisableVerboseLogging (st : State) : State := set_enableVerbose 0 st.

Definition CaptureLoggingErrors (errs : option (Chan.Chan error))
    (st : State) : State :=
  set_logErrors errs st.

Definition SetDefaultFormatter (formatter : LogFormatter) (st : State)
    : State :=
  set_defaultFormatter formatter st.

Definition AddAppender (appender : A) (st : State) : State :=
  set_appenders (appenders st ++ [appender]) st.

(** [ClearAppenders] and [ClearLoggers], between their [PauseLogging()]
    and [RestartLogging()]. *)
Definition ClearAppenders (st : State) : State := set_appenders [] st.

Definition ClearLoggers (st : State) : State := set_loggers ∅ st.

(** [AddTag] copies the slice and appends. *)
Definition AddTag (tags : option (list string)) (newTag : string)
    : option (list string) :=
  Some (default [] tags ++ [newTag]).

(** [NewLogRecord] allocates the record; the result is its pointer. *)
Definition NewLogRecord (logger : nat) (level : LogLevel)
    (tags : option (list string)) (message : string)
    (time original : Instant) (st : State) : nat * State :=
  (length (rstore st),
   set_rstore (rstore st ++ [mkRecord time original level tags message logger]) st).

(** [logError]: a [select] with a [default] branch around the send. *)
Definition logError (err : option error) (st : State) : State :=
  match err, logErrors st with
  | Some e, Some ch =>
      match Chan.trySend e ch with
      | Some ch' => set_logErrors (Some ch') st
      | None => st
      end
  | _, _ => st
  end.

(** *** Level and tag resolution *)

(** [p != nil] on a nil-able value. *)
Definition notNil {T} (o : option T) : bool :=
  match o with Some _ => true | None => false end.

(** [tagLevel, ok := m[tag]; ok && tagLevel <= l] on a non-nil map. *)
Definition tagPasses (m : gmap string LogLevel) (tag : string)
    (l : LogLevel) : bool :=
  match m !! tag with
  | Some tagLevel => tagLevel <=? l
  | None => false
  end.

(** [checkTagLevel]: the [for _, tag := range tags] loop. *)
Fixpoint checkTagLevel (st : State) (logger : nat) (l : LogLevel)
    (tags : list string) : bool :=
  match tags with
  | [] => false
  | tag :: rest =>
      if match tagLevels (deref st logger) with
         | Some m => tagPasses m tag l
         | None => false
         end
      then true
      else if negb (logger =? defaultLogger st)%nat
              && match tagLevels (deref st (defaultLogger st)) with
                 | Some m => tagPasses m tag l
                 | None => false
                 end
      then true
      else checkTagLevel st logger l rest
  end.

(** [checkLevelWithTags] *)
Definition checkLevelWithTags (st : State) (logger : nat) (l : LogLevel)
    (tags : option (list string)) : bool :=
  if (notNil (tagLevels (deref st logger))
      || notNil (tagLevels (deref st (defaultLogger st))))
     && notNil tags
     && checkTagLevel st logger l (default [] tags)
  then true
  else if negb (level (deref st logger) =? DEFAULT)
  then level (deref st logger) <=? l
  else level (deref st (defaultLogger st)) <=? l.

(** [LoggerImpl.CheckLevel] takes the read lock and resolves. *)
Definition CheckLevel (st : State) (logger : nat) (l : LogLevel)
    (tags : option (list string)) : bool :=
  checkLevelWithTags st logger l tags.

(** *** The dispatch pipeline *)

(** [logToAppenders]: the [range appenders] loop; every [Log] call may
    change the appender it is made on. *)
Fixpoint logToAppendersLoop (apps : list A) (rec : nat) (st : State)
    : list A * State :=
  match apps with
  | [] => ([], st)
  | appender :: rest =>
      let '(appender', err) := Log (defaultFormatter st) (record st rec) appender in
      let st1 := logError err st in
      let '(rest', st2) := logToAppendersLoop rest rec st1 in
      (appender' :: rest', st2)
  end.

Definition logToAppenders (rec : nat) (st : State) : State :=
  let '(apps, st') := logToAppendersLoop (appenders st) rec st in
  set_appenders apps st'.

(** [logger.buffer.Next().Value = record; logger.buffer = logger.buffer.Next()] *)
Definition bufferRecord (rec : nat) (b : Ring.Ring) : Ring.Ring :=
  Ring.setValue (Some rec) (Ring.Next b).

(** [processLogRecord] *)
Definition processLogRecord (rec : nat) (st : State) : State :=
  let logger := Logger (record st rec) in
  let passed :=
    checkLevelWithTags st logger (Level (record st rec)) (Tags (record st rec)) in
  let st1 :=
    if passed then logToAppenders rec st
    else if negb (bool_decide (buffer (deref st logger) = []))
            && (VERBOSE <? Level (record st rec))
    then updLogger logger (fun x => setBuffer (bufferRecord rec (buffer x)) x) st
    else st in
  set_processed (u64 (processed st1 + 1)) st1.

(** [incomingChannel <- record] when the channel has room; [None] when
    the sender has to block. *)
Definition sendIncoming (rec : nat) (st : State) : option State :=
  if (length (incomingChannel st) <? incomingCap)%nat
  then Some (set_incomingChannel (incomingChannel st ++ [rec]) st)
  else None.

(** The consumer's [case record := <-incomingChannel: processLogRecord(record)]. *)
Definition consume (st : State) : option State :=
  match incomingChannel st with
  | [] => None
  | rec :: rest => Some (processLogRecord rec (set_incomingChannel rest st))
  end.

(** *** Producing a record *)

Definition newline : string := String (Ascii.ascii_of_nat 10) EmptyString.

(** [strings.Replace(s, "\n", "\n  ", -1)] *)
Fixpoint indentLines (s : string) : string :=
  match s with
  | EmptyString => EmptyString
  | String c rest =>
      if Ascii.eqb c (Ascii.ascii_of_nat 10)
      then String c ("  " +:+ indentLines rest)
      else String c (indentLines rest)
  end.

(** How a call that ends in a channel send stands: it has returned, or
    it is blocked in the send of [rec] on a full channel. *)
Inductive Outcome :=
| Returned (logNum : Z) (st : State)
| Blocked (logNum : Z) (rec : nat) (st : State).

(** [logwithformat].  [text] is what [fmt.Sprint(args...)] or
    [fmt.Sprintf(format, args...)] yields, [stack] what [runtime.Stack]
    writes. *)
Definition logwithformat (logger : nat) (level : LogLevel)
    (tags : option (list string)) (text stack : string) (st : State)
    : Outcome :=
  if (level =? VERBOSE) && negb (enableVerbose st =? 1) then Returned 0 st
  else
    let now := clock st in
    let msg :=
      if level =? PANIC
      then text +:+ newline +:+ "  " +:+ indentLines stack
      else text in
    let '(logRecord, st1) := NewLogRecord logger level tags msg now now st in
    let logNum := u64 (logged st1 + 1) in
    let st2 := set_logged logNum st1 in
    match sendIncoming logRecord st2 with
    | Some st3 => Returned logNum st3
    | None => Blocked logNum logRecord st2
    end.

(** *** Flushing the buffers

    [flushBuffer] starts a goroutine that walks the detached ring.  A
    [Task] is such a goroutine: the [now] its closure captured, the
    slot values [oldBuffer.Do] has still to visit, the record it is
    sending if it stands in [incomingChannel <- record], and the
    [*sync.WaitGroup] it signals at its end. *)
Record Task := mkTask {
  now : Instant;
  todo : list (option nat);
  sending : option nat;
  wait : nat;
}.

(** The package state with the goroutines around it: the flush tasks,
    the counters of the [sync.WaitGroup] objects, and the records whose
    producers are blocked in [logwithformat]'s send. *)
Record Runtime := mkRuntime {
  pkg : State;
  tasks : list Task;
  waitGroups : list Z;
  senders : list nat;
}.

Definition set_pkg (st : State) (rt : Runtime) : Runtime :=
  mkRuntime st (tasks rt) (waitGroups rt) (senders rt).
Definition set_tasks (ts : list Task) (rt : Runtime) : Runtime :=
  mkRuntime (pkg rt) ts (waitGroups rt) (senders rt).
Definition set_senders (rs : list nat) (rt : Runtime) : Runtime :=
  mkRuntime (pkg rt) (tasks rt) (waitGroups rt) rs.

(** [wait.Add(n)]; [wait.Done()] is [wait.Add(-1)]. *)
Definition wgAdd (w : nat) (n : Z) (rt : Runtime) : Runtime :=
  mkRuntime (pkg rt) (tasks rt) (alter (Z.add n) w (waitGroups rt)) (senders rt).

(** [new(sync.WaitGroup)] *)
Definition wgNew (rt : Runtime) : nat * Runtime :=
  (length (waitGroups rt),
   mkRuntime (pkg rt) (tasks rt) (waitGroups rt ++ [0]) (senders rt)).

(** [wait.Wait()] returns once the counter is zero. *)
Definition wgIdle (w : nat) (rt : Runtime) : bool :=
  bool_decide (waitGroups rt !! w = Some 0).

(** One move of a flush goroutine: complete the pending send, or make
    the next call of the function given to [Do] up to its send.  [None]
    when it is blocked on the full channel or has no slot left. *)
Definition taskStep (t : Task) (st : State) : option (Task * State) :=
  match sending t with
  | Some rec =>
      match sendIncoming rec st with
      | Some st' => Some (mkTask (now t) (todo t) None (wait t), st')
      | None => None
      end
  | None =>
      match todo t with
      | [] => None
      | None :: rest => Some (mkTask (now t) rest None (wait t), st)
      | Some rec :: rest =>
          let st1 := updRecord rec (setTime (now t)) st in
          let st2 := set_logged (u64 (logged st1 + 1)) st1 in
          Some (mkTask (now t) rest (Some rec) (wait t), st2)
      end
  end.

(** A goroutine that has visited every slot calls [wait.Done()]. *)
Definition taskFinished (t : Task) : bool :=
  match todo t, sending t with
  | [], None => true
  | _, _ => false
  end.

(** [flushBuffer] *)
Definition flushBuffer (logger : nat) (w : nat) (rt : Runtime) : Runtime :=
  let st := pkg rt in
  if negb (bool_decide (buffer (deref st logger) = []))
  then
    let now := clock st in
    let oldBuffer := buffer (deref st logger) in
    let st' := updLogger logger (setBuffer (Ring.New (Ring.Len oldBuffer))) st in
    set_tasks (tasks rt ++ [mkTask now (Ring.Do oldBuffer) None w]) (set_pkg st' rt)
  else wgAdd w (-1) rt.

(** [flushAllLoggers].  Go ranges over the registry in an order it does
    not fix; the order taken here is that of [map_to_list]. *)
Definition flushAllLoggers (w : nat) (rt : Runtime) : Runtime :=
  let rt1 := wgAdd w (Z.of_nat (size (loggers (pkg rt))) + 1) rt in
  let rt2 := foldl (fun acc val => flushBuffer val w acc) rt1
               (map_to_list (loggers (pkg rt))).*2 in
  flushBuffer (defaultLogger (pkg rt2)) w rt2.

(** The flushing that ends [SetLogLevel], [SetTagLevel] and the panic
    calls, up to [logMutex.Unlock()]. *)
Definition flushFor (logger : nat) (rt : Runtime) : nat * Runtime :=
  let '(w, rt1) := wgNew rt in
  if (logger =? defaultLogger (pkg rt1))%nat
  then (w, flushAllLoggers w rt1)
  else (w, flushBuffer logger w (wgAdd w 1 rt1)).

(** [SetLogLevel] up to [logMutex.Unlock()]; the result names the
    wait group that the call then waits on. *)
Definition SetLogLevelLocked (logger : nat) (l : LogLevel) (rt : Runtime)
    : nat * Runtime :=
  flushFor logger (set_pkg (updLogger logger (setLevel l) (pkg rt)) rt).

(** [SetTagLevel] up to [logMutex.Unlock()]. *)
Definition SetTagLevelLocked (logger : nat) (tag : string) (l : LogLevel)
    (rt : Runtime) : nat * Runtime :=
  let assign x :=
    setTagLevels (Some (<[tag := l]> (default ∅ (tagLevels x)))) x in
  flushFor logger (set_pkg (updLogger logger assign (pkg rt)) rt).

(** *** Running the goroutines to a standstill

    [runSlots] is [oldBuffer.Do] with the function [flushBuffer] gives
    it, run until the ring is exhausted or a send blocks. *)
Fixpoint runSlots (now : Instant) (w : nat) (slots : list (option nat))
    (st : State) : Task * State :=
  match slots with
  | [] => (mkTask now [] None w, st)
  | None :: rest => runSlots now w rest st
  | Some rec :: rest =>
      let st1 := updRecord rec (setTime now) st in
      let st2 := set_logged (u64 (logged st1 + 1)) st1 in
      match sendIncoming rec st2 with
      | Some st3 => runSlots now w rest st3
      | None => (mkTask now rest (Some rec) w, st2)
      end
  end.

Definition runTask (t : Task) (st : State) : Task * State :=
  match sending t with
  | Some rec =>
      match sendIncoming rec st with
      | Some st' => runSlots (now t) (wait t) (todo t) st'
      | None => (t, st)
      end
  | None => runSlots (now t) (wait t) (todo t) st
  end.

(** A goroutine and the package state before and after one of its moves. *)
Definition moves (p q : Task * State) : Prop := taskStep p.1 p.2 = Some q.

(** Every task in turn, in the order they were started; a task that
    finishes signals its wait group and is gone. *)
Fixpoint runTasksLoop (ts : list Task) (rt : Runtime) : list Task * Runtime :=
  match ts with
  | [] => ([], rt)
  | t :: rest =>
      let '(t', st') := runTask t (pkg rt) in
      if taskFinished t'
      then runTasksLoop rest (wgAdd (wait t') (-1) (set_pkg st' rt))
      else let '(rest', rt') := runTasksLoop rest (set_pkg st' rt) in
           (t' :: rest', rt')
  end.

Definition runTasks (rt : Runtime) : Runtime :=
  let '(ts, rt') := runTasksLoop (tasks rt) rt in set_tasks ts rt'.

(** The consumer run until the channel is empty, as [WaitForIncoming]
    waits for. *)
Fixpoint drainLoop (fuel : nat) (st : State) : State :=
  match fuel with
  | O => st
  | S k => match consume st with
           | Some st' => drainLoop k st'
           | None => st
           end
  end.

Definition drain (st : State) : State :=
  drainLoop (length (incomingChannel st)) st.

(** [SetLogLevel] and [SetTagLevel] with their goroutines run in the
    order they were started; the call has returned when its wait group
    is idle. *)
Definition SetLogLevel (logger : nat) (l : LogLevel) (rt : Runtime)
    : nat * Runtime :=
  let '(w, rt1) := SetLogLevelLocked logger l rt in (w, runTasks rt1).

Definition SetTagLevel (logger : nat) (tag : string) (l : LogLevel)
    (rt : Runtime) : nat * Runtime :=
  let '(w, rt1) := SetTagLevelLocked logger tag l rt in (w, runTasks rt1).

(** A producer's call seen from the runtime: a blocked producer stays
    behind with its record. *)
Definition produce (logger : nat) (level : LogLevel)
    (tags : option (list string)) (text stack : string) (rt : Runtime)
    : Z * Runtime :=
  match logwithformat logger level tags text stack (pkg rt) with
  | Returned n st => (n, set_pkg st rt)
  | Blocked n rec st => (n, set_senders (senders rt ++ [rec]) (set_pkg st rt))
  end.

(** [WaitForIncoming] with the consumer running. *)
Definition WaitForIncoming (rt : Runtime) : Runtime :=
  set_pkg (drain (pkg rt)) rt.

(** The clock advancing by [d]. *)
Definition tick (d : Z) (rt : Runtime) : Runtime :=
  set_pkg (set_clock (clock (pkg rt) + d) (pkg rt)) rt.

(** *** The system as a transition relation

    One transition is one atomic action of some goroutine: a call made
    by a client, a move of the consumer, of a flush goroutine or of a
    blocked producer, or the clock advancing. *)
Inductive step : Runtime -> Runtime -> Prop :=
| step_log logger level tags text stack rt n st' :
    logwithformat logger level tags text stack (pkg rt) = Returned n st' ->
    step rt (set_pkg st' rt)
| step_log_blocked logger level tags text stack rt n rec st' :
    logwithformat logger level tags text stack (pkg rt) = Blocked n rec st' ->
    step rt (set_senders (senders rt ++ [rec]) (set_pkg st' rt))
| step_unblock rt pre rec post st' :
    senders rt = pre ++ rec :: post ->
    sendIncoming rec (pkg rt) = Some st' ->
    step rt (set_senders (pre ++ post) (set_pkg st' rt))
| step_consume rt st' :
    consume (pkg rt) = Some st' ->
    step rt (set_pkg st' rt)
| step_task rt i t t' st' :
    tasks rt !! i = Some t ->
    taskStep t (pkg rt) = Some (t', st') ->
    step rt (set_tasks (<[i := t']> (tasks rt)) (set_pkg st' rt))
| step_task_done rt i t :
    tasks rt !! i = Some t ->
    taskFinished t = true ->
    step rt (wgAdd (wait t) (-1) (set_tasks (delete i (tasks rt)) rt))
| step_SetLogLevel rt logger l :
    step rt (SetLogLevelLocked logger l rt).2
| step_SetTagLevel rt logger tag l :
    step rt (SetTagLevelLocked logger tag l rt).2
| step_flushFor rt logger :
    step rt (flushFor logger rt).2
| step_SetBufferLength rt logger n :
    step rt (set_pkg (SetBufferLength logger n (pkg rt)) rt)
| step_SetDefaultBufferLength rt n :
    step rt (set_pkg (SetDefaultBufferLength n (pkg rt)) rt)
| step_GetLogger rt nm :
    step rt (set_pkg (GetLogger nm (pkg rt)).2 rt)
| step_config rt (f : State -> State) :
    f ∈ [EnableVerboseLogging; DisableVerboseLogging; ClearAppenders; ClearLoggers] ->
    step rt (set_pkg (f (pkg rt)) rt)
| step_AddAppender rt appender :
    step rt (set_pkg (AddAppender appender (pkg rt)) rt)
| step_CaptureLoggingErrors rt errs :
    step rt (set_pkg (CaptureLoggingErrors errs (pkg rt)) rt)
| step_SetDefaultFormatter rt formatter :
    step rt (set_pkg (SetDefaultFormatter formatter (pkg rt)) rt)
| step_tick rt d :
    0 <= d ->
    step rt (tick d rt).

End Package.

Arguments State A : clear implicits.
Arguments Runtime A : clear implicits.
Arguments Outcome A : clear implicits.

(** Reading a field after an assignment. *)
Ltac fields :=
  unfold set_defaultFormatter, set_appenders, set_loggers, set_incomingChannel,
    set_logged, set_processed, set_logErrors, set_enableVerbose, set_lstore,
    set_rstore, set_clock, set_pkg, set_tasks, set_senders in *;
  cbn [defaultLogger defaultFormatter appenders loggers incomingChannel logged
       processed logErrors enableVerbose lstore rstore clock
       pkg tasks waitGroups senders] in *.

End Logging.

(** ** appender: the generic appenders *)

Module Appenders.

Import Logging.

(** [BaseLogAppender]; a nil [formatter] selects the package default. *)
Record BaseLogAppender := mkBase {
  level : LogLevel;
  formatter : option LogFormatter;
}.

Definition checkLevel (appender : BaseLogAppender) (l : LogLevel) : bool :=
  level appender <=? l.

Definition format (appender : BaseLogAppender) (defaultFormatter : LogFormatter)
    (record : LogRecord) : string :=
  let formatter := default defaultFormatter (formatter appender) in
  formatter (Level record) (Tags record) (Message record) (Time record)
    (Original record).

(** The [int64] message counters wrap. *)
Definition i64 (x : Z) : Z := (x + 2 ^ 63) mod 2 ^ 64 - 2 ^ 63.

(** The appenders of the package that keep their output in memory:
    [NullAppender], [ErrorAppender], [MemoryAppender], and a
    [ConsoleAppender] whose printed lines are kept. *)
Inductive Appender :=
| NullAppender (base : BaseLogAppender) (count : Z)
| ErrorAppender (base : BaseLogAppender) (count : Z)
| MemoryAppender (base : BaseLogAppender) (LoggedMessages : list string)
| ConsoleAppender (useStderr : bool) (base : BaseLogAppender) (printed : list string).

Definition NewNullAppender : Appender := NullAppender (mkBase DEFAULT None) 0.
Definition NewErrorAppender : Appender := ErrorAppender (mkBase DEFAULT None) 0.
Definition NewMemoryAppender : Appender := MemoryAppender (mkBase DEFAULT None) [].
Definition NewStdErrAppender : Appender := ConsoleAppender true (mkBase DEFAULT None) [].
Definition NewStdOutAppender : Appender := ConsoleAppender false (mkBase DEFAULT None) [].

(** The [Log] methods. *)
Definition appenderLog (defaultFormatter : LogFormatter) (record : LogRecord)
    (appender : Appender) : Appender * option error :=
  match appender with
  | NullAppender b count => (NullAppender b (i64 (count + 1)), None)
  | ErrorAppender b count =>
      (ErrorAppender b (i64 (count + 1)), Some ("error: " +:+ Message record))
  | MemoryAppender b msgs =>
      if negb (checkLevel b (Level record)) then (appender, None)
      else (MemoryAppender b (msgs ++ [format b defaultFormatter record]), None)
  | ConsoleAppender e b out =>
      if negb (checkLevel b (Level record)) then (appender, None)
      else (ConsoleAppender e b (out ++ [format b defaultFormatter record]), None)
  end.

Definition base (appender : Appender) : BaseLogAppender :=
  match appender with
  | NullAppender b _ | ErrorAppender b _ | MemoryAppender b _
  | ConsoleAppender _ b _ => b
  end.

Definition withBase (b : BaseLogAppender) (appender : Appender) : Appender :=
  match appender with
  | NullAppender _ c => NullAppender b c
  | ErrorAppender _ c => ErrorAppender b c
  | MemoryAppender _ m => MemoryAppender b m
  | ConsoleAppender e _ o => ConsoleAppender e b o
  end.

#[global] Instance Appender_LogAppender : LogAppender Appender := {
  Log := appenderLog;
  SetLevel l a := withBase (mkBase l (formatter (base a))) a;
  SetFormatter f a := withBase (mkBase (level (base a)) (Some f)) a;
}.

(** [Count] and [GetLoggedMessages] *)
Definition Count (appender : Appender) : Z :=
  match appender with
  | NullAppender _ c | ErrorAppender _ c => c
  | _ => 0
  end.

Definition GetLoggedMessages (appender : Appender) : list string :=
  match appender with
  | MemoryAppender _ m => m
  | _ => []
  end.

(** The package state that [init] leaves: the default logger [_default]
    at [INFO] without buffer, and the stderr appender.  [fullFormat] is
    the formatter [GetFormatter(FULL)] returns, [t0] the clock reading. *)
Definition initState (fullFormat : LogFormatter) (t0 : Instant)
    : State Appender :=
  mkState 0%nat fullFormat [NewStdErrAppender] ∅ [] 0 0 None 0
    [mkLogger "_default" INFO None []] [] t0.

Definition initRuntime (fullFormat : LogFormatter) (t0 : Instant)
    : Runtime Appender :=
  mkRuntime (initState fullFormat t0) [] [] [].

End Appenders.

(** ** The rolling file appender *)

Module Rolling.

Import Logging.

(** *** The file system the appender runs on

    Paths name inodes, inodes hold bytes; an open file is its inode.  A
    path in [denied] makes every call on it fail with an error that is
    not "does not exist" (a directory without search permission).
    [trace] keeps the calls made, oldest first. *)
Inductive Errno := ENOENT | EACCES.

Inductive Syscall :=
| SysStat (path : string)
| SysRemove (path : string)
| SysRename (oldpath newpath : string)
| SysOpen (path : string)
| SysCreate (path : string)
| SysWrite (file : nat) (data : string)
| SysClose (file : nat).

Record FS := mkFS {
  dir : gmap string nat;
  inodes : list string;
  denied : gset string;
  trace : list Syscall;
}.

(** [os.IsNotExist] *)
Definition IsNotExist (e : Errno) : bool :=
  match e with ENOENT => true | EACCES => false end.

Definition logCall (c : Syscall) (f : FS) : FS :=
  mkFS (dir f) (inodes f) (denied f) (trace f ++ [c]).
Definition set_dir (d : gmap string nat) (f : FS) : FS :=
  mkFS d (inodes f) (denied f) (trace f).
Definition set_inodes (l : list string) (f : FS) : FS :=
  mkFS (dir f) l (denied f) (trace f).

(** [os.Stat]: the size of the file, or the error. *)
Definition Stat (path : string) (f : FS) : FS * (Errno + Z) :=
  let f := logCall (SysStat path) f in
  if bool_decide (path ∈ denied f) then (f, inl EACCES)
  else match dir f !! path with
       | None => (f, inl ENOENT)
       | Some i => (f, inr (Z.of_nat (String.length (inodes f !!! i))))
       end.

(** [os.Remove] *)
Definition Remove (path : string) (f : FS) : FS * option Errno :=
  let f := logCall (SysRemove path) f in
  if bool_decide (path ∈ denied f) then (f, Some EACCES)
  else match dir f !! path with
       | None => (f, Some ENOENT)
       | Some _ => (set_dir (delete path (dir f)) f, None)
       end.

(** [os.Rename]; an existing [newpath] is replaced. *)
Definition Rename (oldpath newpath : string) (f : FS) : FS * option Errno :=
  let f := logCall (SysRename oldpath newpath) f in
  if bool_decide (oldpath ∈ denied f) || bool_decide (newpath ∈ denied f)
  then (f, Some EACCES)
  else match dir f !! oldpath with
       | None => (f, Some ENOENT)
       | Some i => (set_dir (<[newpath := i]> (delete oldpath (dir f))) f, None)
       end.

(** [os.OpenFile(path, os.O_APPEND|os.O_WRONLY, 0644)] *)
Definition OpenFile (path : string) (f : FS) : FS * (Errno + nat) :=
  let f := logCall (SysOpen path) f in
  if bool_decide (path ∈ denied f) then (f, inl EACCES)
  else match dir f !! path with
       | None => (f, inl ENOENT)
       | Some i => (f, inr i)
       end.

(** [os.Create]: a new empty file, or the existing one truncated. *)
Definition Create (path : string) (f : FS) : FS * (Errno + nat) :=
  let f := logCall (SysCreate path) f in
  if bool_decide (path ∈ denied f) then (f, inl EACCES)
  else match dir f !! path with
       | None =>
           let i := length (inodes f) in
           (set_dir (<[path := i]> (dir f)) (set_inodes (inodes f ++ [""]) f), inr i)
       | Some i => (set_inodes (<[i := ""]> (inodes f)) f, inr i)
       end.

(** A write on a file opened for appending. *)
Definition WriteFile (file : nat) (data : string) (f : FS) : FS :=
  let f := logCall (SysWrite file data) f in
  set_inodes (alter (fun old => old +:+ data) file (inodes f)) f.

Definition CloseFile (file : nat) (f : FS) : FS := logCall (SysClose file) f.

(** *** The appender *)

(** [RollingFileAppender].  [currentWriter] is the [bufio.Writer]: the
    file it writes to and the bytes it still holds. *)
Record RollingFileAppender := mkRolling {
  base : Appenders.BaseLogAppender;
  prefix : string;
  suffix : string;
  maxFileSize : Z;
  maxFiles : Z;
  firstTime : bool;
  currentFile : option nat;
  currentWriter : option (nat * string);
}.

(** [int16] arithmetic wraps. *)
Definition i16 (x : Z) : Z := (x + 2 ^ 15) mod 2 ^ 16 - 2 ^ 15.

(** [NewRollingFileAppender] *)
Definition NewRollingFileAppender (prefix suffix : string) (maxFileSize : Z)
    (maxFiles : Z) : RollingFileAppender :=
  let maxFiles := if maxFiles <=? 0 then 1 else maxFiles in
  let maxFileSize := if maxFileSize <? 1024 then 1024 else maxFileSize in
  mkRolling (Appenders.mkBase DEFAULT None) prefix suffix maxFileSize maxFiles
    true None None.

(** [currentFileName]: [fmt.Sprintf("%v.%v", prefix, suffix)] *)
Definition currentFileName (appender : RollingFileAppender) : string :=
  prefix appender +:+ "." +:+ suffix appender.

(** [fmt.Sprintf("%v.%d.%v", prefix, i, suffix)] *)
Definition generationName (appender : RollingFileAppender) (i : Z) : string :=
  prefix appender +:+ "." +:+ pretty i +:+ "." +:+ suffix appender.

(** The appender object together with the file system it acts on. *)
Record World := mkWorld {
  self : RollingFileAppender;
  fs : FS;
}.

(** Methods are state transformers on the world that return a value. *)
Definition M (X : Type) : Type := World -> World * X.

Definition ret {X} (x : X) : M X := fun w => (w, x).
Definition bind {X Y} (m : M X) (k : X -> M Y) : M Y :=
  fun w => let '(w', x) := m w in k x w'.

Notation "'do' x <- m ; k" := (bind m (fun x => k))
  (at level 10, x name, m at level 100, k at level 200).
Notation "m ;; k" := (bind m (fun _ => k))
  (at level 100, k at level 200, right associativity).

(** A system call made from a method. *)
Definition sys {X} (call : FS -> FS * X) : M X :=
  fun w => let '(f, x) := call (fs w) in (mkWorld (self w) f, x).
Definition sys_ (call : FS -> FS) : M unit :=
  fun w => (mkWorld (self w) (call (fs w)), tt).

Definition get : M RollingFileAppender := fun w => (w, self w).
Definition modify (f : RollingFileAppender -> RollingFileAppender) : M unit :=
  fun w => (mkWorld (f (self w)) (fs w), tt).

Definition set_firstTime (b : bool) (a : RollingFileAppender) :=
  mkRolling (base a) (prefix a) (suffix a) (maxFileSize a) (maxFiles a) b
    (currentFile a) (currentWriter a).
Definition set_currentFile (h : option nat) (a : RollingFileAppender) :=
  mkRolling (base a) (prefix a) (suffix a) (maxFileSize a) (maxFiles a)
    (firstTime a) h (currentWriter a).
Definition set_currentWriter (wr : option (nat * string)) (a : RollingFileAppender) :=
  mkRolling (base a) (prefix a) (suffix a) (maxFileSize a) (maxFiles a)
    (firstTime a) (currentFile a) wr.

(** [currentWriter.Flush()]: the bytes held go to the file. *)
Definition Flush : M (option Errno) :=
  do a <- get;
  match currentWriter a with
  | Some (file, held) =>
      (if bool_decide (held = "") then ret tt else sys_ (WriteFile file held)) ;;
      modify (set_currentWriter (Some (file, ""))) ;;
      ret None
  | None => ret None
  end.

(** [Close] *)
Definition Close : M (option Errno) :=
  do a <- get;
  do err <- match currentWriter a with
            | Some _ => do e <- Flush; modify (set_currentWriter None) ;; ret e
            | None => ret None
            end;
  do a <- get;
  match currentFile a with
  | Some file => sys_ (CloseFile file) ;; modify (set_currentFile None) ;; ret None
  | None => ret err
  end.

(** [open] *)
Definition open : M (option Errno) :=
  do a <- get;
  if Logging.notNil (currentWriter a) then ret None
  else
    do r <- sys (OpenFile (currentFileName a));
    do r <- match r with
            | inl err =>
                if negb (IsNotExist err) then ret (inl err)
                else sys (Create (currentFileName a))
            | inr f => ret (inr f)
            end;
    match r with
    | inl err => ret (Some err)
    | inr f =>
        modify (set_currentFile (Some f)) ;;
        modify (set_currentWriter (Some (f, ""))) ;;
        ret None
    end.

(** [needsRoll] *)
Definition needsRoll : M bool :=
  do a <- get;
  if maxFiles a =? 1 then
    do r <- sys (Stat (currentFileName a));
    match r with
    | inl err => ret (IsNotExist err)
    | inr _ => ret false
    end
  else if firstTime a then ret true
  else
    do r <- sys (Stat (currentFileName a));
    match r with
    | inl _ => ret true
    | inr size => if maxFileSize a <=? size then ret true else ret false
    end.

(** The body of [Roll]'s loop for [i = n - 1] down to [0]. *)
Fixpoint rollLoop (n : nat) : M (option Errno) :=
  match n with
  | O => ret None
  | S k =>
      let i := Z.of_nat k in
      do a <- get;
      let fileName :=
        if i =? 0 then currentFileName a else generationName a i in
      do r <- sys (Stat fileName);
      match r with
      | inl err => if IsNotExist err then rollLoop k else ret (Some err)
      | inr _ =>
          let nextFileName := generationName a (i16 (i + 1)) in
          do r' <- sys (Stat nextFileName);
          do err <- match r' with
                    | inl e =>
                        if negb (IsNotExist e) then sys (Remove nextFileName)
                        else ret None
                    | inr _ => ret None
                    end;
          match err with
          | Some e => ret (Some e)
          | None =>
              do err <- sys (Rename fileName nextFileName);
              match err with
              | Some e => ret (Some e)
              | None => rollLoop k
              end
          end
      end
  end.

(** [Roll] *)
Definition Roll : M (option Errno) :=
  Close ;;
  modify (set_firstTime false) ;;
  do a <- get;
  rollLoop (Z.to_nat (i16 (maxFiles a - 2) + 1)).

(** [bufio.Writer.Write] on the current writer. *)
Definition Write (data : string) : M unit :=
  modify (fun a => set_currentWriter
                     (prod_map id (fun held => held +:+ data) <$> currentWriter a) a).

(** [Log]; [defaultFormatter] is the package variable [format] reads. *)
Definition Log (defaultFormatter : LogFormatter) (record : LogRecord)
    : M (option Errno) :=
  do a <- get;
  if negb (Appenders.checkLevel (base a) (Level record)) then ret None
  else
    do roll <- needsRoll;
    do err <- (if roll then
                 do err <- Roll;
                 match err with
                 | Some e => ret (Some e)
                 | None => open
                 end
               else ret None);
    match err with
    | Some e => ret (Some e)
    | None =>
        do a <- get;
        do err <- (if negb (Logging.notNil (currentWriter a)) then open else ret None);
        match err with
        | Some e => ret (Some e)
        | None =>
            do a <- get;
            match currentWriter a with
            | Some _ =>
                Write (Appenders.format (base a) defaultFormatter record) ;;
                Write Logging.newline ;;
                Flush ;;
                ret None
            | None => ret None
            end
        end
    end.

(** *** What the rotation decision is about *)

(** The current file is missing: no such name in the directory. *)
Definition missing (w : World) : Prop :=
  dir (fs w) !! currentFileName (self w) = None.

(** [os.Stat] on the current file fails for another reason. *)
Definition unreadable (w : World) : Prop :=
  currentFileName (self w) ∈ denied (fs w).

(** The current file is there with a size at or above [maxFileSize]. *)
Definition atOrAboveMax (w : World) : Prop :=
  exists i : nat,
    dir (fs w) !! currentFileName (self w) = Some i
    /\ maxFileSize (self w) <= Z.of_nat (String.length (inodes (fs w) !!! i)).

(** *** Worlds used below *)

(** Two generations on disk: the current file ["p.log"] and ["p.1.log"]. *)
Definition twoFiles : FS :=
  mkFS (<["p.log" := 0%nat]> (<["p.1.log" := 1%nat]> ∅)) ["new"; "old"] ∅ [].

(** An appender that keeps two files, before its first write. *)
Definition keepTwo : RollingFileAppender :=
  NewRollingFileAppender "p" "log" 2048 2.

(** The same appender after its first roll, on a disk where the current
    file is there, small, but cannot be examined. *)
Definition hidden : World :=
  mkWorld (set_firstTime false keepTwo)
    (mkFS (<["p.log" := 0%nat]> ∅) ["new"] {["p.log"]} []).

End Rolling.

(** ** The resolution algorithm as the specification words it *)

Module Resolution.

Import Logging.

Section Resolve.

Context {A : Type}.

(** A tag-level map that holds at least one entry. *)
Definition nonEmptyMap (m : option (gmap string LogLevel)) : bool :=
  match m with
  | Some tl => negb (bool_decide (tl = ∅))
  | None => false
  end.

(** A tag list that holds at least one tag. *)
Definition nonEmptyTags (tags : option (list string)) : bool :=
  match tags with
  | Some (_ :: _) => true
  | _ => false
  end.

(** The tag is present in the map with a level at or below [l]. *)
Definition configuredAtOrBelow (m : option (gmap string LogLevel))
    (tag : string) (l : LogLevel) : bool :=
  match m ≫= (fun tl => tl !! tag) with
  | Some tagLevel => bool_decide (tagLevel <= l)
  | None => false
  end.

(** Step 1 for one tag: the logger's own map, otherwise (unless the
    logger is the default logger) the default logger's map. *)
Definition tagMatches (st : State A) (logger : nat) (l : LogLevel)
    (tag : string) : bool :=
  configuredAtOrBelow (tagLevels (deref st logger)) tag l
  || (bool_decide (logger ≠ defaultLogger st)
      && configuredAtOrBelow (tagLevels (deref st (defaultLogger st))) tag l).

(** Step 2: the scalar level, the default logger's when the logger's
    own is [DEFAULT]. *)
Definition scalarPasses (st : State A) (logger : nat) (l : LogLevel) : bool :=
  if bool_decide (level (deref st logger) ≠ DEFAULT)
  then bool_decide (level (deref st logger) <= l)
  else bool_decide (level (deref st (defaultLogger st)) <= l).

(** [resolve(logger, level, tags)] *)
Definition resolve (st : State A) (logger : nat) (l : LogLevel)
    (tags : option (list string)) : bool :=
  if nonEmptyTags tags
     && (nonEmptyMap (tagLevels (deref st logger))
         || nonEmptyMap (tagLevels (deref st (defaultLogger st))))
     && existsb (tagMatches st logger l) (default [] tags)
  then true
  else scalarPasses st logger l.

End Resolve.

End Resolution.

(** ** Runs of the package used below

    The runs follow the package's tests: [setup] of the test file, then the
    calls of [TestBuffer] and [TestBufferLength], with the clock advancing
    by one between calls. *)

Module Scenario.

Import Logging Appenders.

Definition call (f : State Appender -> State Appender) (rt : Runtime Appender)
    : Runtime Appender :=
  tick 1 (set_pkg (f (pkg rt)) rt).

Definition logAt (logger : nat) (level : LogLevel) (tags : option (list string))
    (text : string) (rt : Runtime Appender) : Runtime Appender :=
  tick 1 (produce logger level tags text "" rt).2.

(** [setup()]: the default level at [INFO], no default buffer, a fresh named
    logger and a single memory appender with the minimal format. *)
Definition setup : nat * Runtime Appender :=
  let rt := initRuntime minimalFormat 0 in
  let rt := tick 1 (SetLogLevel (defaultLogger (pkg rt)) INFO rt).2 in
  let rt := call (SetBufferLength (defaultLogger (pkg rt)) 0) rt in
  let memoryAppender := SetFormatter minimalFormat NewMemoryAppender in
  let '(logger, st) := GetLogger "testLogger-1" (pkg rt) in
  let rt := WaitForIncoming (set_pkg st rt) in
  let rt := call ClearAppenders rt in
  (logger, call (AddAppender memoryAppender) rt).

(** The four calls [logger.Error("error")] ... [logger.Debug("debug")]. *)
Definition fourLevels (logger : nat) (rt : Runtime Appender) : Runtime Appender :=
  logAt logger DEBUG None "debug"
    (logAt logger INFO None "info"
       (logAt logger WARN None "warn"
          (logAt logger ERROR None "error" rt))).

(** [TestBuffer] and [TestBufferLength] before their first
    [WaitForIncoming]: the logger at [ERROR] with a buffer of [n], four
    records queued and the consumer not yet run. *)
Definition queued (n : Z) : nat * Runtime Appender :=
  let '(logger, rt) := setup in
  let rt := tick 1 (SetLogLevel logger ERROR rt).2 in
  let rt := call (SetBufferLength logger n) rt in
  (logger, fourLevels logger rt).

(** The same after that [WaitForIncoming]: the four records consumed. *)
Definition buffered (n : Z) : nat * Runtime Appender :=
  ((queued n).1, WaitForIncoming (queued n).2).

(** The memory appender's messages. *)
Definition messages (rt : Runtime Appender) : list (list string) :=
  GetLoggedMessages <$> appenders (pkg rt).

(** A logger at [ERROR] with tag ["T"] at [DEBUG]. *)
Definition tagged : nat * Runtime Appender :=
  let '(logger, rt) := setup in
  let rt := tick 1 (SetLogLevel logger ERROR rt).2 in
  (logger, tick 1 (SetTagLevel logger "T" DEBUG rt).2).

(** [TestErrorChannel] and [TestErrorChannelWontBlock] before and after
    their [WaitForIncoming]: an error appender alone, and an error channel
    of the given capacity that nobody reads. *)
Definition erring (capacity : nat) : nat * Runtime Appender :=
  let '(logger, rt) := setup in
  let rt := tick 1 (SetLogLevel logger DEBUG rt).2 in
  let rt := call ClearAppenders rt in
  let rt := call (AddAppender NewErrorAppender) rt in
  let rt := call (CaptureLoggingErrors (Some (Chan.make capacity))) rt in
  (logger, fourLevels logger rt).

Definition withErrors (capacity : nat) : nat * Runtime Appender :=
  ((erring capacity).1, WaitForIncoming (erring capacity).2).

(** [TestBuffer] inside [logger.SetLogLevel(DEBUG)]: the lock released,
    the flush goroutine started and not yet run. *)
Definition flushing : Runtime Appender :=
  (SetLogLevelLocked (buffered 10).1 DEBUG (buffered 10).2).2.

(** The same after the goroutine's first call of the function given to
    [Do]. *)
Definition flushingOne : Runtime Appender :=
  match tasks flushing with
  | t :: _ =>
      match taskStep t (pkg flushing) with
      | Some (t', st') =>
          set_tasks (<[0%nat := t']> (tasks flushing)) (set_pkg st' flushing)
      | None => flushing
      end
  | [] => flushing
  end.

End Scenario.

(** ** loglevel and formatter: the names of the levels and of the formats *)

Module LevelNames.

Import Logging.

(** [strings.ToLower] on a string of ASCII characters: the letters [A] to
    [Z] go to [a] to [z], the other characters stay. *)
Definition lowerByte (c : Ascii.ascii) : Ascii.ascii :=
  let n := Ascii.nat_of_ascii c in
  if ((65 <=? n) && (n <=? 90))%nat then Ascii.ascii_of_nat (n + 32) else c.

Fixpoint lowerASCII (s : string) : string :=
  match s with
  | EmptyString => EmptyString
  | String c rest => String (lowerByte c) (lowerASCII rest)
  end.

Fixpoint isASCII (s : string) : bool :=
  match s with
  | EmptyString => true
  | String c rest => (Ascii.nat_of_ascii c <? 128)%nat && isASCII rest
  end.

(** [LogFormat], a string type, and its four constants. *)
Definition MINIMAL : string := "minimal".
Definition MINIMALTAGGED : string := "minimaltagged".
Definition SIMPLE : string := "simple".
Definition FULL : string := "full".

(** [fmt.Sprintf("%v", tags)] on a slice of strings. *)
Definition sprintTags (tags : list string) : string :=
  "[" +:+ String.concat " " tags +:+ "]".

Section Names.

(** [strings.ToLower], and [time.Time.Format] with the layouts
    [time.StampMilli] and [time.Stamp]. *)
Variable ToLower : string -> string.
Variable FormatStampMilli FormatStamp : Instant -> string.

(** [LogLevel.String] *)
Definition String (level : LogLevel) : string :=
  if PANIC <=? level then "PANIC"
  else if ERROR <=? level then "ERROR"
  else if WARN <=? level then "WARN"
  else if INFO <=? level then "INFO"
  else if DEBUG <=? level then "DEBUG"
  else "VERBOSE".

(** [LevelFromString] *)
Definition LevelFromString (str : string) : LogLevel :=
  let str := ToLower str in
  if bool_decide (str = "panic") then PANIC
  else if bool_decide (str = "error") then ERROR
  else if bool_decide (str = "warning") || bool_decide (str = "warn") then WARN
  else if bool_decide (str = "info") || bool_decide (str = "informative") then INFO
  else if bool_decide (str = "debug") then DEBUG
  else if bool_decide (str = "verbose") then VERBOSE
  else DEFAULT.

(** [FormatFromString] *)
Definition FormatFromString (formatName : string) : string :=
  let formatName := ToLower formatName in
  if bool_decide (formatName = "full") then FULL
  else if bool_decide (formatName = "simple") then SIMPLE
  else if bool_decide (formatName = "minimaltagged") then MINIMALTAGGED
  else if bool_decide (formatName = "minimal") then MINIMAL
  else SIMPLE.

(** The formatting functions. *)
Definition fullFormat : LogFormatter :=
  fun level tags message t original =>
    let message :=
      if negb (original =? t)
      then "[replayed from " +:+ FormatStampMilli original +:+ "] " +:+ message
      else message in
    match tags with
    | Some (tag :: rest) =>
        "[" +:+ FormatStampMilli t +:+ "] [" +:+ String level +:+ "] "
        +:+ sprintTags (tag :: rest) +:+ " " +:+ message
    | _ => "[" +:+ FormatStampMilli t +:+ "] [" +:+ String level +:+ "] " +:+ message
    end.

Definition simpleFormat : LogFormatter :=
  fun level tags message t original =>
    "[" +:+ FormatStamp t +:+ "] [" +:+ String level +:+ "] " +:+ message.

Definition minimalWithTagsFormat : LogFormatter :=
  fun level tags message t original =>
    match tags with
    | Some (tag :: rest) =>
        "[" +:+ String level +:+ "] " +:+ sprintTags (tag :: rest) +:+ " " +:+ message
    | _ => "[" +:+ String level +:+ "] " +:+ message
    end.

(** [GetFormatter] *)
Definition GetFormatter (formatName : string) : LogFormatter :=
  if bool_decide (formatName = FULL) then fullFormat
  else if bool_decide (formatName = SIMPLE) then simpleFormat
  else if bool_decide (formatName = MINIMALTAGGED) then minimalWithTagsFormat
  else if bool_decide (formatName = MINIMAL) then minimalFormat
  else simpleFormat.

End Names.

End LevelNames.

(** ** appender: the writer appender *)

Module Writers.

Import Logging Appenders.

(** An [io.Writer]: [Write] gives the writer after the call and the
    error it returns. *)
Class Writer (W : Type) := {
  Write : string -> W -> W * option error;
}.

(** [WriterAppender]; [writer] is an interface value and may be nil. *)
Record WriterAppender (W : Type) := mkWriterAppender {
  wbase : BaseLogAppender;
  writer : option W;
}.
Arguments mkWriterAppender {W} _ _.
Arguments wbase {W} _.
Arguments writer {W} _.

Definition NewWriterAppender {W} (writer : option W) : WriterAppender W :=
  mkWriterAppender (mkBase DEFAULT None) writer.

(** [WriterAppender.Log]: the second [Write] assigns [err] again. *)
Definition writerLog {W} `{!Writer W} (defaultFormatter : LogFormatter)
    (record : LogRecord) (appender : WriterAppender W)
    : WriterAppender W * option error :=
  if negb (checkLevel (wbase appender) (Level record)) then (appender, None)
  else match writer appender with
       | Some w =>
           let '(w1, err) := Write (format (wbase appender) defaultFormatter record) w in
           let '(w2, err) := Write newline w1 in
           (mkWriterAppender (wbase appender) (Some w2), err)
       | None => (appender, None)
       end.

#[global] Instance WriterAppender_LogAppender {W} `{!Writer W}
    : LogAppender (WriterAppender W) := {
  Log := writerLog;
  SetLevel l a := mkWriterAppender (mkBase l (formatter (wbase a))) (writer a);
  SetFormatter f a := mkWriterAppender (mkBase (level (wbase a)) (Some f)) (writer a);
}.

(** A writer that keeps what it is given, as a [bytes.Buffer] does, and
    fails where [failures] says so: one entry for each call to come, none
    left meaning success. *)
Record Pipe := mkPipe {
  written : string;
  failures : list (option error);
}.

#[global] Instance Pipe_Writer : Writer Pipe := {
  Write data p :=
    match failures p with
    | Some e :: rest => (mkPipe (written p) rest, Some e)
    | None :: rest => (mkPipe (written p +:+ data) rest, None)
    | [] => (mkPipe (written p +:+ data) [], None)
    end;
}.

(** The records of a list handed to an appender one after the other. *)
Definition logAll {A} `{!LogAppender A} (defaultFormatter : LogFormatter)
    (records : list LogRecord) (appender : A) : A :=
  foldl (fun a record => (Log defaultFormatter record a).1) appender records.

End Writers.

(** ** logging: the package functions on the default logger *)

Module Defaults.

Import Logging.

Section Package.

Context {A : Type} `{!LogAppender A}.

(** [DefaultLogger] *)
Definition DefaultLogger (st : State A) : nat := defaultLogger st.

(** The package function [CheckLevel] asks the default logger. *)
Definition CheckLevel (st : State A) (l : LogLevel) (tags : option (list string))
    : bool :=
  Logging.CheckLevel st (defaultLogger st) l tags.

(** [SetDefaultLogLevel] and [SetDefaultTagLogLevel] call the default
    logger's [SetLogLevel] and [SetTagLevel]. *)
Definition SetDefaultLogLevel (l : LogLevel) (rt : Runtime A) : nat * Runtime A :=
  SetLogLevel (defaultLogger (pkg rt)) l rt.

Definition SetDefaultTagLogLevel (tag : string) (l : LogLevel) (rt : Runtime A)
    : nat * Runtime A :=
  SetTagLevel (defaultLogger (pkg rt)) tag l rt.

(** Two states of a logger with the same name, level, tag levels and
    buffer length. *)
Definition sameSettings (x y : LoggerImpl) : Prop :=
  name y = name x /\ level y = level x /\ tagLevels y = tagLevels x
  /\ Ring.Len (buffer y) = Ring.Len (buffer x).

End Package.

End Defaults.

(** ** logging: the records on their way *)

Module Traffic.

Import Logging.

Section Package.

Context {A : Type} `{!LogAppender A}.

(** The records on their way to the consumer: those queued in
    [incomingChannel] and those whose sender, a producer or a flush
    goroutine, stands in the send on the full channel. *)
Definition inFlight (rt : Runtime A) : nat :=
  (length (incomingChannel (pkg rt)) + length (senders rt)
   + length (omap sending (tasks rt)))%nat.

(** The counters account for the records in flight: [logged] is ahead of
    [processed] by their number, as 64-bit counters are. *)
Definition balanced (rt : Runtime A) : Prop :=
  u64 (logged (pkg rt)) = u64 (processed (pkg rt) + Z.of_nat (inFlight rt)).

(** What a state contributes to the balance. *)
Definition counters (st : State A) : Z * Z * list nat :=
  (logged st, processed st, incomingChannel st).

End Package.

End Traffic.

(** ** The rolling file appender: generations and writes *)

Module Rotation.

Import Rolling.

(** The file name [Roll]'s loop uses for generation [i]: the current
    file for [i = 0]. *)
Definition fileAt (a : RollingFileAppender) (i : Z) : string :=
  if i =? 0 then currentFileName a else generationName a i.

(** What the renames of [Roll]'s loop, for [i = n - 1] down to [0], make
    of a directory in which every path can be examined. *)
Fixpoint shiftDir (a : RollingFileAppender) (n : nat) (d : gmap string nat)
    : gmap string nat :=
  match n with
  | O => d
  | S k =>
      let i := Z.of_nat k in
      match d !! fileAt a i with
      | None => shiftDir a k d
      | Some x => shiftDir a k (<[fileAt a (i + 1) := x]> (delete (fileAt a i) d))
      end
  end.

(** The end of [Log]: the two writes and the flush. *)
Definition writeLine (f : Logging.LogFormatter) (rec : Logging.LogRecord)
    : M (option Errno) :=
  do a <- get;
  match currentWriter a with
  | Some _ =>
      Write (Appenders.format (base a) f rec) ;;
      Write Logging.newline ;;
      Flush ;;
      ret None
  | None => ret None
  end.

(** [Log] from the point where the file has been rolled if it had to. *)
Definition logTail (f : Logging.LogFormatter) (rec : Logging.LogRecord)
    : M (option Errno) :=
  do a <- get;
  do err <- (if negb (Logging.notNil (currentWriter a)) then open else ret None);
  match err with
  | Some e => ret (Some e)
  | None => writeLine f rec
  end.

(** A world the appender can have made: every name of the directory
    names a file that is there, and so does the writer, which holds no
    bytes between two calls of [Log]. *)
Definition consistent (w : World) : Prop :=
  (forall path i, dir (fs w) !! path = Some i ->
                  (i < length (inodes (fs w)))%nat)
  /\ match currentWriter (self w) with
     | Some (h, held) => held = "" /\ (h < length (inodes (fs w)))%nat
     | None => True
     end.

(** The fields of an appender that no method changes. *)
Definition sameSetup (a b : RollingFileAppender) : Prop :=
  base b = base a /\ prefix b = prefix a /\ suffix b = suffix a
  /\ maxFileSize b = maxFileSize a /\ maxFiles b = maxFiles a.

End Rotation.

(** * Properties *)

(** ** Level and tag resolution *)

Module ResolutionFacts.

Import Logging Resolution.

Section Facts.

Context {A : Type}.
Implicit Types (st : State A) (logger : nat) (l : LogLevel).

Lemma tagPasses_configured m tag l :
  match m with Some tl => tagPasses tl tag l | None => false end
  = configuredAtOrBelow m tag l.
Proof.
  unfold configuredAtOrBelow, tagPasses.
  destruct m as [tl|]; simpl; [|reflexivity].
  destruct (tl !! tag) as [x|]; [|reflexivity].
  destruct (Z.leb_spec x l); symmetry;
    [apply bool_decide_eq_true_2 | apply bool_decide_eq_false_2]; lia.
Qed.

Lemma configured_empty m tag l :
  nonEmptyMap m = false -> configuredAtOrBelow m tag l = false.
Proof.
  unfold nonEmptyMap, configuredAtOrBelow.
  destruct m as [tl|]; simpl; [|reflexivity].
  intros H. apply negb_false_iff, bool_decide_eq_true in H. subst tl.
  rewrite lookup_empty. reflexivity.
Qed.

(** The loop of [checkTagLevel] finds a tag iff one of them matches. *)
Lemma checkTagLevel_existsb st logger l (ts : list string) :
  checkTagLevel st logger l ts = existsb (tagMatches st logger l) ts.
Proof.
  induction ts as [|tag rest IH]; simpl; [reflexivity|].
  rewrite !tagPasses_configured, IH. unfold tagMatches.
  replace (negb (logger =? defaultLogger st)%nat)
    with (bool_decide (logger ≠ defaultLogger st)).
  - destruct (configuredAtOrBelow (tagLevels (deref st logger)) tag l);
      simpl; [reflexivity|].
    destruct (bool_decide (logger ≠ defaultLogger st)
              && configuredAtOrBelow _ tag l); reflexivity.
  - destruct (Nat.eqb_spec logger (defaultLogger st)); simpl;
      [apply bool_decide_eq_false_2 | apply bool_decide_eq_true_2]; auto.
Qed.

Lemma existsb_tagMatches_empty st logger l (ts : list string) :
  nonEmptyMap (tagLevels (deref st logger)) = false ->
  nonEmptyMap (tagLevels (deref st (defaultLogger st))) = false ->
  existsb (tagMatches st logger l) ts = false.
Proof.
  intros H1 H2. induction ts as [|tag rest IH]; simpl; [reflexivity|].
  unfold tagMatches at 1.
  rewrite (configured_empty _ tag l H1), (configured_empty _ tag l H2), IH.
  rewrite andb_false_r. reflexivity.
Qed.

Lemma nonEmptyMap_notNil m : nonEmptyMap m = true -> notNil m = true.
Proof. destruct m; simpl; [reflexivity | discriminate]. Qed.

Lemma scalar_fallback st logger l :
  (if negb (level (deref st logger) =? DEFAULT)
   then level (deref st logger) <=? l
   else level (deref st (defaultLogger st)) <=? l)
  = scalarPasses st logger l.
Proof.
  unfold scalarPasses.
  destruct (Z.eqb_spec (level (deref st logger)) DEFAULT) as [E|E]; simpl.
  - rewrite bool_decide_eq_false_2 by (intros H; apply H, E).
    destruct (Z.leb_spec (level (deref st (defaultLogger st))) l); symmetry;
      [apply bool_decide_eq_true_2 | apply bool_decide_eq_false_2]; lia.
  - rewrite bool_decide_eq_true_2 by exact E.
    destruct (Z.leb_spec (level (deref st logger)) l); symmetry;
      [apply bool_decide_eq_true_2 | apply bool_decide_eq_false_2]; lia.
Qed.

(** C1.  For every logger, level and tag list, [CheckLevel] returns what
    the two-step algorithm of the specification computes: with a
    non-empty tag list and a non-empty tag-level map on the logger or
    on the default logger, pass on the first tag, in the order given,
    whose level in the logger's map (or, for another logger than the
    default one, in the default logger's map) is at or below the
    requested level; otherwise decide by the logger's own level when it
    is not [DEFAULT], and by the default logger's level when it is. *)
Theorem C1_CheckLevel_is_resolve st logger l (tags : option (list string)) :
  CheckLevel st logger l tags = resolve st logger l tags.
Proof.
  unfold CheckLevel, checkLevelWithTags, resolve.
  rewrite scalar_fallback, checkTagLevel_existsb.
  destruct tags as [[|tag rest]|]; simpl.
  - rewrite !andb_false_r. reflexivity.
  - destruct (nonEmptyMap (tagLevels (deref st logger))) eqn:E1.
    + rewrite (nonEmptyMap_notNil _ E1). reflexivity.
    + destruct (nonEmptyMap (tagLevels (deref st (defaultLogger st)))) eqn:E2.
      * rewrite (nonEmptyMap_notNil _ E2), orb_true_r. reflexivity.
      * pose proof (existsb_tagMatches_empty st logger l (tag :: rest) E1 E2) as H.
        simpl in H. rewrite H, andb_false_r. reflexivity.
  - rewrite andb_false_r. reflexivity.
Qed.

Lemma scalar_only st logger l :
  checkLevelWithTags st logger l None = scalarPasses st logger l.
Proof.
  unfold checkLevelWithTags. simpl. rewrite andb_false_r.
  apply scalar_fallback.
Qed.

(** C2.  Tag overrides only add: a check that passes without tags
    passes with any tag list; and with the logger's level at [ERROR]
    and tag [T] at [DEBUG], a [DEBUG] check carrying [T] passes while
    the same check without tags fails. *)
Theorem C2_tags_only_add st logger l (ts : option (list string))
    (T : string) (m : gmap string LogLevel) :
  (CheckLevel st logger l None = true -> CheckLevel st logger l ts = true)
  /\ (level (deref st logger) = ERROR ->
      tagLevels (deref st logger) = Some m ->
      m !! T = Some DEBUG ->
      CheckLevel st logger DEBUG (Some [T]) = true
      /\ CheckLevel st logger DEBUG None = false).
Proof.
  split.
  - unfold CheckLevel. rewrite scalar_only. intros H.
    unfold checkLevelWithTags. rewrite scalar_fallback, H.
    destruct (_ && _); reflexivity.
  - intros Hl Hm HT. split.
    + unfold CheckLevel, checkLevelWithTags. simpl. rewrite !Hm. simpl.
      unfold tagPasses. rewrite HT. reflexivity.
    + unfold CheckLevel. rewrite scalar_only. unfold scalarPasses.
      rewrite Hl. reflexivity.
Qed.

End Facts.

(** C2 at the logger of [Scenario.tagged]: level [ERROR], tag ["T"] at
    [DEBUG]. *)
Lemma C2_tags_only_add_witness :
  let st := pkg Scenario.tagged.2 in
  let logger := Scenario.tagged.1 in
  CheckLevel st logger ERROR (Some ["T"; "other"]) = true
  /\ CheckLevel st logger DEBUG (Some ["T"]) = true
  /\ CheckLevel st logger DEBUG None = false.
Proof.
  pose proof (C2_tags_only_add (pkg Scenario.tagged.2) Scenario.tagged.1 ERROR
                (Some ["T"; "other"]) "T" {["T" := DEBUG]}) as [Hadd Hex].
  split; [apply Hadd; vm_compute; reflexivity|].
  apply Hex; vm_compute; reflexivity.
Defined.

End ResolutionFacts.

(** ** The sink chain and the consumer *)

Module PipelineFacts.

Import Logging.

(** Non-blocking sends fill the waiting receivers first, then the free
    buffer slots, and drop the rest. *)
Lemma sendAll_spec {T} (vs : list T) (c : Chan.Chan T) :
  Chan.cap (Chan.sendAll vs c) = Chan.cap c
  /\ Chan.received (Chan.sendAll vs c)
     = Chan.received c ++ take (Chan.waiting c) vs
  /\ Chan.buf (Chan.sendAll vs c)
     = Chan.buf c
       ++ take (Chan.cap c - length (Chan.buf c)) (drop (Chan.waiting c) vs)
  /\ Chan.waiting (Chan.sendAll vs c)
     = (Chan.waiting c - length vs)%nat.
Proof.
  revert c. induction vs as [|v vs IH]; intros c.
  - unfold Chan.sendAll. simpl. rewrite take_nil, drop_nil, take_nil, !app_nil_r.
    repeat split; lia.
  - unfold Chan.sendAll. simpl. fold (Chan.sendAll vs (Chan.sendOrDrop v c)).
    destruct (IH (Chan.sendOrDrop v c)) as (Hc & Hr & Hb & Hw).
    rewrite Hc, Hr, Hb, Hw. clear IH Hc Hr Hb Hw.
    unfold Chan.sendOrDrop, Chan.trySend.
    destruct c as [cap buf waiting received]. simpl.
    destruct waiting as [|k]; simpl.
    + destruct (Nat.ltb_spec (length buf) cap) as [Hlt|Hge]; simpl.
      * rewrite length_app. simpl.
        replace (cap - length buf)%nat with (S (cap - (length buf + 1)))%nat by lia.
        simpl. rewrite <- !app_assoc. simpl. rewrite take_0, drop_0.
        repeat split; lia.
      * replace (cap - length buf)%nat with 0%nat by lia.
        simpl. rewrite !take_0. repeat split; lia.
    + rewrite <- app_assoc. repeat split; lia.
Qed.

(** *** The ring as a record buffer *)

Lemma bufferRecord_length rec (b : list (option nat)) :
  length (bufferRecord rec b) = length b.
Proof.
  destruct b as [|x [|y rest]]; simpl; try reflexivity.
  rewrite !length_app. simpl. lia.
Qed.

(** Read from the slot after the current one, an insertion drops the
    first slot and appends the record. *)
Lemma bufferRecord_next rec (b : list (option nat)) :
  b <> [] ->
  Ring.Next (bufferRecord rec b) = drop 1 (Ring.Next b) ++ [Some rec].
Proof.
  destruct b as [|x [|y rest]]; simpl; [congruence | reflexivity..].
Qed.

Lemma next_replicate_None (n : nat) :
  Ring.Next (replicate n (@None nat)) = replicate n None.
Proof.
  destruct n as [|k]; simpl; [reflexivity|].
  induction k as [|k IH]; simpl; [reflexivity|]. f_equal. exact IH.
Qed.

(** A ring made by [ring.New(n)] and filled by the consumer holds, read
    from the slot after the current one, the last [n] records in the order
    they were buffered, after the slots still empty: the slot after the
    current one is the oldest, the current slot the newest. *)
Lemma buffer_keeps_newest (n : nat) (recs : list nat) :
  (0 < n)%nat ->
  let b := foldl (fun b rec => bufferRecord rec b) (Ring.New (Z.of_nat n)) recs in
  length b = n
  /\ Ring.Next b = drop (length recs) (replicate n None ++ (Some <$> recs)).
Proof.
  intros Hn. induction recs as [|rec recs IH] using rev_ind.
  - simpl. unfold Ring.New.
    destruct (Z.leb_spec (Z.of_nat n) 0) as [H|H]; [lia|].
    rewrite Nat2Z.id, length_replicate, next_replicate_None, app_nil_r.
    split; reflexivity.
  - cbv zeta in *. rewrite foldl_app. simpl.
    destruct IH as [Hlen Hnext].
    set (b := foldl _ _ recs) in *.
    split; [rewrite bufferRecord_length; exact Hlen|].
    rewrite bufferRecord_next by (intros E; rewrite E in Hlen; simpl in Hlen; lia).
    rewrite Hnext, drop_drop, length_app, fmap_app, app_assoc. simpl.
    rewrite (drop_app_le (replicate n None ++ (Some <$> recs)));
      [reflexivity|].
    rewrite length_app, length_replicate, length_fmap. lia.
Qed.

(** [Do] starts at the current slot, that is at the newest record, and
    then walks the others from the oldest on. *)
Lemma Do_starts_at_newest (b : list (option nat)) :
  b <> [] ->
  exists newest older,
    Ring.Next b = older ++ [newest] /\ Ring.Do b = newest :: older.
Proof.
  destruct b as [|x rest]; [congruence|]. intros _.
  exists x, rest. split; reflexivity.
Qed.

Section Facts.

Context {A : Type} `{!LogAppender A}.
Implicit Types (st : State A) (rec : nat).

Lemma set_logErrors_same st : set_logErrors (logErrors st) st = st.
Proof. destruct st; reflexivity. Qed.

Lemma set_logErrors_twice x y st :
  set_logErrors y (set_logErrors x st) = set_logErrors y st.
Proof. destruct st; reflexivity. Qed.

(** [logError] touches the error channel only. *)
Lemma logError_spec (err : option string) st :
  logError err st
  = set_logErrors
      (match err with
       | Some e => Chan.sendOrDrop e <$> logErrors st
       | None => logErrors st
       end) st.
Proof.
  unfold logError, Chan.sendOrDrop.
  destruct err as [e|]; [|symmetry; apply set_logErrors_same].
  destruct (logErrors st) as [ch|] eqn:E; simpl.
  - destruct (Chan.trySend e ch); simpl; [reflexivity|].
    rewrite <- E. symmetry; apply set_logErrors_same.
  - rewrite <- E. symmetry; apply set_logErrors_same.
Qed.

(** The loop calls [Log] on every appender, in order, whatever the earlier
    calls returned, and hands the errors to the channel as they come. *)
Lemma logToAppendersLoop_spec (apps : list A) rec st :
  logToAppendersLoop apps rec st
  = ((fun a => (Log (defaultFormatter st) (record st rec) a).1) <$> apps,
     set_logErrors
       (Chan.sendAll
          (omap (fun a => (Log (defaultFormatter st) (record st rec) a).2) apps)
        <$> logErrors st) st).
Proof.
  revert st. induction apps as [|a apps IH]; intros st.
  - simpl. destruct (logErrors st) eqn:E; simpl;
      rewrite <- E, set_logErrors_same; reflexivity.
  - simpl.
    destruct (Log (defaultFormatter st) (record st rec) a) as [a' err] eqn:Ea.
    rewrite IH, logError_spec. unfold record. fields.
    f_equal. f_equal.
    destruct err as [e|]; destruct (logErrors st); reflexivity.
Qed.

Lemma logToAppenders_spec rec st :
  logToAppenders rec st
  = set_appenders
      ((fun a => (Log (defaultFormatter st) (record st rec) a).1) <$> appenders st)
      (set_logErrors
         (Chan.sendAll
            (omap (fun a => (Log (defaultFormatter st) (record st rec) a).2)
               (appenders st))
          <$> logErrors st) st).
Proof. unfold logToAppenders. rewrite logToAppendersLoop_spec. reflexivity. Qed.

(** C8.  Dispatching a record calls [Log] on every registered appender, in
    registration order, whatever earlier appenders returned.  The errors
    returned go to the registered error channel in that order, each only
    if its send can complete at once (a receiver waits or the buffer has
    room) and dropped otherwise; without a registered channel they are
    discarded.  In both cases every appender is called and nothing else
    of the package state changes. *)
Theorem C8_sink_errors_isolated st rec :
  let r := record st rec in
  let fmt := defaultFormatter st in
  let errs := omap (fun a => (Log fmt r a).2) (appenders st) in
  let st' := logToAppenders rec st in
  appenders st' = (fun a => (Log fmt r a).1) <$> appenders st
  /\ match logErrors st with
     | None => logErrors st' = None
     | Some ch =>
         exists ch', logErrors st' = Some ch'
           /\ Chan.cap ch' = Chan.cap ch
           /\ Chan.received ch' = Chan.received ch ++ take (Chan.waiting ch) errs
           /\ Chan.buf ch'
              = Chan.buf ch
                ++ take (Chan.cap ch - length (Chan.buf ch))
                     (drop (Chan.waiting ch) errs)
     end
  /\ st' = set_appenders (appenders st') (set_logErrors (logErrors st') st).
Proof.
  cbv zeta. rewrite logToAppenders_spec. fields.
  split; [reflexivity|]. split; [|reflexivity].
  destruct (logErrors st) as [ch|]; simpl; [|reflexivity].
  eexists; split; [reflexivity|].
  destruct (sendAll_spec
              (omap (fun a => (Log (defaultFormatter st) (record st rec) a).2)
                 (appenders st)) ch) as (Hc & Hr & Hb & _).
  auto.
Qed.

(** *** Consuming a record *)

Lemma deref_inhabitant st (p : nat) :
  (length (lstore st) <= p)%nat -> deref st p = inhabitant.
Proof.
  intros H. unfold deref. rewrite list_lookup_total_alt.
  rewrite lookup_ge_None_2 by exact H. reflexivity.
Qed.

(** A logger that has a buffer is an object of the store. *)
Lemma buffer_valid st (p : nat) :
  buffer (deref st p) <> [] -> (p < length (lstore st))%nat.
Proof.
  intros H. destruct (Nat.lt_ge_cases p (length (lstore st))) as [|Hge]; [assumption|].
  rewrite (deref_inhabitant st p Hge) in H. exfalso; apply H; reflexivity.
Qed.

Lemma deref_updLogger st (p : nat) f :
  (p < length (lstore st))%nat -> deref (updLogger p f st) p = f (deref st p).
Proof.
  intros H. unfold deref, updLogger. fields.
  apply list_lookup_total_alter_eq, H.
Qed.

Lemma deref_updLogger_ne st (p q : nat) f :
  p <> q -> deref (updLogger p f st) q = deref st q.
Proof.
  intros H. unfold deref, updLogger. fields.
  apply list_lookup_total_alter_ne, H.
Qed.

(** C3.  Consuming a record raises the consumed counter by one (a 64-bit
    counter) and does exactly one of three things.  If resolution against
    the owning logger's present configuration passes, the record is handed
    to the sink chain: every appender's [Log] is called on it.  If it
    fails, the logger has a buffer and the record's level is above
    [VERBOSE], the record goes into the buffer, in the slot after the
    current one (the oldest once the ring is full, see
    [buffer_keeps_newest]), and no appender sees it.  Otherwise the record
    is dropped. *)
Theorem C3_processLogRecord st rec :
  let r := record st rec in
  let logger := Logger r in
  let passed := checkLevelWithTags st logger (Level r) (Tags r) in
  let st' := processLogRecord rec st in
  processed st' = u64 (processed st + 1)
  /\ ((passed = true
       /\ st' = set_processed (u64 (processed st + 1)) (logToAppenders rec st)
       /\ appenders st'
          = (fun a => (Log (defaultFormatter st) r a).1) <$> appenders st
       /\ lstore st' = lstore st)
      \/ (passed = false
          /\ buffer (deref st logger) <> [] /\ VERBOSE < Level r
          /\ appenders st' = appenders st /\ logErrors st' = logErrors st
          /\ buffer (deref st' logger) = bufferRecord rec (buffer (deref st logger))
          /\ Ring.Len (buffer (deref st' logger)) = Ring.Len (buffer (deref st logger))
          /\ Ring.Next (buffer (deref st' logger))
             = drop 1 (Ring.Next (buffer (deref st logger))) ++ [Some rec]
          /\ (forall q : nat, q <> logger -> deref st' q = deref st q))
      \/ (passed = false
          /\ (buffer (deref st logger) = [] \/ Level r <= VERBOSE)
          /\ st' = set_processed (u64 (processed st + 1)) st)).
Proof.
  cbv zeta. unfold processLogRecord.
  destruct (checkLevelWithTags st (Logger (record st rec)) (Level (record st rec))
              (Tags (record st rec))) eqn:Hpass.
  - rewrite logToAppenders_spec. fields.
    split; [reflexivity|]. left. repeat split; reflexivity.
  - destruct (decide (buffer (deref st (Logger (record st rec))) = [])) as [Hb|Hb].
    + rewrite bool_decide_eq_true_2 by exact Hb. simpl.
      split; [reflexivity|]. right; right. auto.
    + rewrite bool_decide_eq_false_2 by exact Hb. simpl.
      destruct (Z.ltb_spec VERBOSE (Level (record st rec))) as [Hl|Hl].
      * split; [unfold updLogger; fields; reflexivity|]. right; left.
        pose proof (buffer_valid _ _ Hb) as Hv.
        assert (Hd : forall p f (s : State A),
                   deref (set_processed p s) f = deref s f)
          by (intros; unfold deref; fields; reflexivity).
        rewrite Hd, deref_updLogger by exact Hv. simpl.
        repeat split; try (unfold updLogger; fields; reflexivity); try assumption.
        -- unfold Ring.Len. rewrite bufferRecord_length. reflexivity.
        -- apply bufferRecord_next, Hb.
        -- intros q Hq. rewrite Hd. apply deref_updLogger_ne. congruence.
      * split; [reflexivity|]. right; right. split; [reflexivity|].
        split; [right; lia | reflexivity].
Qed.

End Facts.

(** C8 on [TestErrorChannel]'s first record: the error appender is called
    and its error is in the channel. *)
Lemma C8_sink_errors_isolated_witness :
  let st := pkg (Scenario.erring 10).2 in
  Appenders.Count <$> appenders (logToAppenders 0 st) = [1]
  /\ Chan.buf <$> logErrors (logToAppenders 0 st) = Some ["error: error"].
Proof.
  cbv zeta.
  destruct (C8_sink_errors_isolated (pkg (Scenario.erring 10).2) 0)
    as (Happs & Herrs & _).
  split; [rewrite Happs; vm_compute; reflexivity|].
  destruct (logErrors (pkg (Scenario.erring 10).2)) as [ch|] eqn:E;
    [|vm_compute in E; discriminate E].
  destruct Herrs as (ch' & Hl & _ & _ & Hb).
  rewrite Hl. cbn [fmap option_fmap option_map]. rewrite Hb.
  vm_compute in E. injection E as <-. vm_compute. reflexivity.
Defined.

(** C3 on [TestBuffer]'s second record, "warn" at a logger set to [ERROR]
    with a buffer: the record goes into the buffer and no appender is
    called. *)
Lemma C3_processLogRecord_witness :
  let st := pkg (Scenario.queued 10).2 in
  let logger := (Scenario.queued 10).1 in
  let st' := processLogRecord 1 st in
  processed st' = processed st + 1
  /\ appenders st' = appenders st
  /\ buffer (deref st' logger) = bufferRecord 1 (buffer (deref st logger)).
Proof.
  cbv zeta.
  destruct (C3_processLogRecord (pkg (Scenario.queued 10).2) 1)
    as [Hc [(Hp & _) | [(_ & _ & _ & Ha & _ & Hb & _) | (_ & Hn & _)]]].
  - vm_compute in Hp. discriminate Hp.
  - split; [rewrite Hc; vm_compute; reflexivity|]. split; [exact Ha|].
    exact Hb.
  - exfalso. destruct Hn as [Hn|Hn]; vm_compute in Hn;
      [discriminate Hn | apply Hn; reflexivity].
Defined.

(** [TestErrorChannel]: with room in the channel the four errors arrive in
    the order of the records, and the appender has been called four times. *)
Lemma errors_arrive_in_order :
  let st := pkg (Scenario.withErrors 10).2 in
  Chan.buf <$> logErrors st
  = Some ["error: error"; "error: warn"; "error: info"; "error: debug"]
  /\ Appenders.Count <$> appenders st = [4].
Proof. vm_compute. split; reflexivity. Qed.

(** [TestErrorChannelWontBlock]: with an unbuffered channel and no
    receiver every error is dropped, and the appender has still been
    called four times. *)
Lemma errors_never_block :
  let st := pkg (Scenario.withErrors 0).2 in
  Chan.buf <$> logErrors st = Some []
  /\ processed st = logged st
  /\ Appenders.Count <$> appenders st = [4].
Proof. vm_compute. repeat split; reflexivity. Qed.

End PipelineFacts.

(** ** Producing records and sizing buffers *)

Module LoggerFacts.

Import Logging.

Section Facts.

Context {A : Type} `{!LogAppender A}.
Implicit Types (st : State A) (logger rec : nat).

Lemma alter_same {T} (f : T -> T) (l : list T) (i : nat) :
  (forall x, l !! i = Some x -> f x = x) -> alter f i l = l.
Proof.
  revert i. induction l as [|y l IH]; intros i H; [reflexivity|].
  destruct i as [|i]; simpl.
  - f_equal. apply H. reflexivity.
  - f_equal. apply IH. intros x Hx. apply H. exact Hx.
Qed.

(** C7.  A [VERBOSE] call while verbose logging is disabled (the flag is
    not 1, as at start) builds no record, leaves the state, and so the
    produced counter, as it is, and returns 0.  Every other call builds a
    record with both times equal to the clock reading, raises the produced
    counter by one (a 64-bit counter) and returns it, and sends the record
    to the incoming channel, whatever the logger's level and tag levels
    are: the record is queued at once when the channel has room, and the
    call stands blocked in that send when the channel is full. *)
Theorem C7_logwithformat st logger (level : Z) (tags : option (list string))
    (text stack : string) :
  let out := logwithformat logger level tags text stack st in
  (level = VERBOSE /\ enableVerbose st <> 1 /\ out = Returned 0 st)
  \/ (~ (level = VERBOSE /\ enableVerbose st <> 1)
      /\ let rec := length (rstore st) in
         let msg := if level =? PANIC
                    then text +:+ newline +:+ "  " +:+ indentLines stack
                    else text in
         let made := mkRecord (clock st) (clock st) level tags msg logger in
         let st1 := set_logged (u64 (logged st + 1))
                      (set_rstore (rstore st ++ [made]) st) in
         Time made = Original made
         /\ ((length (incomingChannel st) < incomingCap)%nat
              /\ out = Returned (u64 (logged st + 1))
                         (set_incomingChannel (incomingChannel st ++ [rec]) st1)
             \/ (incomingCap <= length (incomingChannel st))%nat
                /\ out = Blocked (u64 (logged st + 1)) rec st1)).
Proof.
  cbv zeta. unfold logwithformat.
  destruct (decide (level = VERBOSE /\ enableVerbose st <> 1)) as [[Hv He]|Hn].
  - left. subst level. rewrite Z.eqb_refl.
    destruct (Z.eqb_spec (enableVerbose st) 1); [contradiction|]. simpl. auto.
  - right. split; [exact Hn|]. split; [reflexivity|].
    assert ((level =? VERBOSE) && negb (enableVerbose st =? 1) = false) as ->.
    { destruct (Z.eqb_spec level VERBOSE);
        destruct (Z.eqb_spec (enableVerbose st) 1); simpl; auto.
      exfalso; apply Hn; auto. }
    unfold NewLogRecord, sendIncoming. fields.
    destruct (Nat.ltb_spec (length (incomingChannel st)) incomingCap);
      [left | right]; split; auto.
Qed.

(** C10.  [SetBufferLength(n)] on a logger of the store: with [n = 0] the
    buffer is removed; with [n] different from the present length (that of
    a missing buffer is 0) the buffer becomes [ring.New(n)], for a positive
    [n] a ring of [n] empty slots; with [n] equal to the present length
    nothing changes: the buffer and the records in it stay.  In every case
    nothing but this logger's buffer is touched. *)
Theorem C10_SetBufferLength st logger (n : Z) :
  (logger < length (lstore st))%nat ->
  let old := buffer (deref st logger) in
  let st' := SetBufferLength logger n st in
  st' = updLogger logger (setBuffer (buffer (deref st' logger))) st
  /\ ((n = 0 /\ buffer (deref st' logger) = [])
      \/ (n <> 0 /\ n <> Ring.Len old
          /\ buffer (deref st' logger) = Ring.New n
          /\ (0 < n -> buffer (deref st' logger) = replicate (Z.to_nat n) None))
      \/ (n <> 0 /\ n = Ring.Len old /\ st' = st)).
Proof.
  intros Hv. cbv zeta. unfold SetBufferLength, setBufferLengthImpl.
  destruct (Z.eqb_spec n 0) as [H0|H0].
  - rewrite PipelineFacts.deref_updLogger by exact Hv. simpl.
    split; [reflexivity|]. left. auto.
  - destruct (Z.eqb_spec n (Ring.Len (buffer (deref st logger)))) as [Hl|Hl]; simpl.
    + split.
      * unfold updLogger, deref. destruct st; fields. f_equal.
        symmetry. apply alter_same. intros x Hx.
        rewrite (list_lookup_total_correct _ _ _ Hx). destruct x; reflexivity.
      * right; right. auto.
    + rewrite PipelineFacts.deref_updLogger by exact Hv. simpl.
      split; [reflexivity|]. right; left. repeat split; auto.
      intros Hn. unfold Ring.New.
      destruct (Z.leb_spec n 0); [lia | reflexivity].
Qed.

End Facts.

(** C7 at the logger of [Scenario.tagged]: filtering is left to the
    consumer, so an [INFO] record that the logger's present configuration
    rejects is made, counted and queued all the same. *)
Lemma C7_logwithformat_witness :
  let st := pkg (Scenario.tagged).2 in
  let logger := (Scenario.tagged).1 in
  CheckLevel st logger INFO None = false
  /\ exists st',
       logwithformat logger INFO None "info" "" st
       = Returned (u64 (logged st + 1)) st'
       /\ incomingChannel st' = incomingChannel st ++ [length (rstore st)].
Proof.
  cbv zeta. split; [vm_compute; reflexivity|].
  destruct (C7_logwithformat (pkg (Scenario.tagged).2) (Scenario.tagged).1
              INFO None "info" "")
    as [(Hv & _) | (_ & _ & [(_ & ->) | (Hfull & _)])].
  - discriminate Hv.
  - eexists. split; reflexivity.
  - exfalso. apply Nat.leb_le in Hfull. vm_compute in Hfull. discriminate Hfull.
Defined.

(** C10 at the logger of [Scenario.buffered 10], whose buffer of length 10
    holds three suppressed records: asking for length 10 again leaves the
    state, and so the three records, as they are. *)
Lemma C10_SetBufferLength_witness :
  let st := pkg (Scenario.buffered 10).2 in
  let logger := (Scenario.buffered 10).1 in
  buffer (deref st logger)
  = [Some 3; None; None; None; None; None; None; None; Some 1; Some 2]%nat
  /\ SetBufferLength logger 10 st = st.
Proof.
  split; [vm_compute; reflexivity|].
  assert (Hv : ((Scenario.buffered 10).1
                < length (lstore (pkg (Scenario.buffered 10).2)))%nat)
    by (vm_compute; lia).
  destruct (C10_SetBufferLength (pkg (Scenario.buffered 10).2)
              (Scenario.buffered 10).1 10 Hv)
    as [_ [[H0 _] | [(_ & Hne & _) | (_ & _ & Heq)]]].
  - discriminate H0.
  - exfalso. apply Hne. vm_compute. reflexivity.
  - exact Heq.
Defined.

End LoggerFacts.

(** ** Flushing and the life of a record *)

Module FlushFacts.

Import Logging.

(** *** What a flush replays, and in which order *)

(** After [recs] and then [rec] were buffered in a ring of [n] slots, [Do]
    visits [rec], the newest, first, and after it the older records that
    the ring still holds, from the oldest on. *)
Lemma Do_order (n : nat) (recs : list nat) (rec : nat) :
  (0 < n)%nat ->
  let b := foldl (fun b rec => bufferRecord rec b) (Ring.New (Z.of_nat n))
             (recs ++ [rec]) in
  omap id (Ring.Do b) = rec :: drop (length recs + 1 - n) recs.
Proof.
  intros Hn. cbv zeta.
  destruct (PipelineFacts.buffer_keeps_newest n (recs ++ [rec]) Hn) as [Hlen Hnext].
  set (b := foldl _ _ (recs ++ [rec])) in *.
  destruct (PipelineFacts.Do_starts_at_newest b) as (newest & older & Hn' & Hdo).
  { intros E. rewrite E in Hlen. simpl in Hlen. lia. }
  rewrite Hdo. rewrite Hn' in Hnext.
  rewrite length_app, fmap_app, app_assoc in Hnext. simpl in Hnext.
  rewrite drop_app_le in Hnext
    by (rewrite length_app, length_replicate, length_fmap; lia).
  apply app_inj_tail in Hnext as [-> ->]. simpl. f_equal.
  rewrite drop_app, length_replicate.
  rewrite omap_app.
  replace (omap id (drop (length recs + 1) (replicate n None))) with (@nil nat).
  - simpl. clear. generalize (length recs + 1 - n)%nat as k.
    induction recs as [|x recs IH]; intros [|k]; simpl; try reflexivity.
    + f_equal. apply (IH 0%nat).
    + apply IH.
  - clear. generalize (length recs + 1)%nat as k.
    induction n as [|n IH]; intros [|k]; simpl; try reflexivity.
    + apply (IH 0%nat).
    + apply IH.
Qed.

Section Facts.

Context {A : Type} `{!LogAppender A}.
Implicit Types (st : State A) (rt : Runtime A) (logger rec : nat).

(** [flushBuffer] on a logger with a buffer puts a fresh ring of as many
    empty slots in its place and starts one goroutine over the old ring,
    with the clock reading as its [now]; nothing is signalled yet. *)
Lemma flushBuffer_swaps logger (w : nat) rt :
  buffer (deref (pkg rt) logger) <> [] ->
  let old := buffer (deref (pkg rt) logger) in
  let rt' := flushBuffer logger w rt in
  buffer (deref (pkg rt') logger) = replicate (length old) None
  /\ tasks rt' = tasks rt ++ [mkTask (clock (pkg rt)) (Ring.Do old) None w]
  /\ waitGroups rt' = waitGroups rt.
Proof.
  intros Hb. cbv zeta. unfold flushBuffer.
  rewrite bool_decide_eq_false_2 by exact Hb. simpl.
  pose proof (PipelineFacts.buffer_valid _ _ Hb) as Hv. fields.
  rewrite PipelineFacts.deref_updLogger by exact Hv. simpl.
  repeat split; try reflexivity.
  unfold Ring.New, Ring.Len.
  destruct (Z.leb_spec (Z.of_nat (length (buffer (deref (pkg rt) logger)))) 0) as [H|H].
  - destruct (buffer (deref (pkg rt) logger)); [congruence | simpl in H; lia].
  - rewrite Nat2Z.id. reflexivity.
Qed.

(** [flushBuffer] on a logger without buffer only signals the wait group. *)
Lemma flushBuffer_nil logger (w : nat) rt :
  buffer (deref (pkg rt) logger) = [] ->
  flushBuffer logger w rt = wgAdd w (-1) rt.
Proof.
  intros Hb. unfold flushBuffer.
  rewrite bool_decide_eq_true_2 by exact Hb. reflexivity.
Qed.

Lemma u64_succ (x : Z) : u64 (u64 x + 1) = u64 (x + 1).
Proof. unfold u64. apply Zplus_mod_idemp_l. Qed.

(** A goroutine that meets enough room in the channel runs to its end: it
    stamps the records of the ring with its [now], counts each of them as
    produced and queues them, all in the order of [Do], and leaves the
    loggers alone. *)
Lemma runSlots_spec (t0 : Z) (w : nat) (slots : list (option nat)) st :
  (length (incomingChannel st) + length (omap id slots) <= incomingCap)%nat ->
  let res := runSlots t0 w slots st in
  taskFinished res.1 = true
  /\ incomingChannel res.2 = incomingChannel st ++ omap id slots
  /\ u64 (logged res.2) = u64 (logged st + Z.of_nat (length (omap id slots)))
  /\ rstore res.2
     = foldl (fun acc rec => alter (setTime t0) rec acc) (rstore st) (omap id slots)
  /\ lstore res.2 = lstore st.
Proof.
  revert st. induction slots as [|[rec|] slots IH]; intros st Hroom; cbv zeta.
  - simpl. rewrite app_nil_r, Z.add_0_r. repeat split.
  - change (omap id (Some rec :: slots)) with (rec :: omap id slots) in *.
    cbn [length] in Hroom.
    cbn [runSlots]. unfold sendIncoming, updRecord. fields.
    destruct (Nat.ltb_spec (length (incomingChannel st)) incomingCap) as [Hlt|Hge];
      [|exfalso; revert Hroom Hge; generalize incomingCap; intros; lia].
    match goal with |- context [runSlots t0 w slots ?s] => specialize (IH s) end.
    cbv zeta in IH. fields. rewrite length_app in IH. cbn [length] in IH.
    destruct IH as (Hf & Hq & Hl & Hr & Hs);
      [revert Hroom; generalize incomingCap; intros; lia|].
    split; [exact Hf|]. split; [rewrite Hq, <- app_assoc; reflexivity|].
    split; [|split; [exact Hr | exact Hs]].
    rewrite Hl. cbn [length]. unfold u64.
    rewrite Zplus_mod_idemp_l. f_equal. lia.
  - simpl. apply IH. exact Hroom.
Qed.

(** *** The goroutines' runs are runs of the system *)

Lemma runSlots_moves (t0 : Z) (w : nat) (slots : list (option nat)) st :
  rtc moves (mkTask t0 slots None w, st) (runSlots t0 w slots st).
Proof.
  revert st. induction slots as [|[rec|] slots IH]; intros st; cbn [runSlots].
  - apply rtc_refl.
  - eapply rtc_l; [reflexivity|]. cbv zeta.
    destruct (sendIncoming rec _) as [st3|] eqn:E; [|apply rtc_refl].
    eapply rtc_l; [|apply IH]. unfold moves, taskStep.
    cbn [sending now todo wait fst snd]. rewrite E. reflexivity.
  - eapply rtc_l; [reflexivity | apply IH].
Qed.

Lemma runTask_moves (t : Task) st : rtc moves (t, st) (runTask t st).
Proof.
  unfold runTask. destruct t as [t0 slots [rec|] w]; cbn [sending now todo wait].
  - destruct (sendIncoming rec st) as [st'|] eqn:E; [|apply rtc_refl].
    eapply rtc_l; [|apply runSlots_moves]. unfold moves, taskStep.
    cbn [sending now todo wait fst snd]. rewrite E. reflexivity.
  - apply runSlots_moves.
Qed.

(** [runTask] stops only where the goroutine cannot move: at its end or in
    a send on the full channel. *)
Lemma runTask_standstill (t : Task) st :
  taskStep (runTask t st).1 (runTask t st).2 = None.
Proof.
  assert (Hs : forall (t0 : Z) (w : nat) slots (s : State A),
             taskStep (runSlots t0 w slots s).1 (runSlots t0 w slots s).2 = None).
  { intros t0 w slots. induction slots as [|[rec|] slots IH]; intros s;
      cbn [runSlots]; [reflexivity| |apply IH].
    cbv zeta. destruct (sendIncoming rec _) as [st3|] eqn:E; [apply IH|].
    unfold taskStep. cbn [sending now todo wait fst snd]. rewrite E.
    reflexivity. }
  unfold runTask. destruct (sending t) as [rec|] eqn:Es; [|apply Hs].
  destruct (sendIncoming rec st) as [st'|] eqn:E; [apply Hs|].
  unfold taskStep. cbn [fst snd]. rewrite Es, E. reflexivity.
Qed.

(** The moves of the only goroutine are transitions of the system. *)
Lemma moves_steps (p q : Task * State A) :
  rtc moves p q ->
  forall rt, tasks rt = [p.1] -> pkg rt = p.2 ->
  rtc step rt (mkRuntime q.2 [q.1] (waitGroups rt) (senders rt)).
Proof.
  induction 1 as [p|p p' q Hm _ IH]; intros rt Ht Hp.
  - destruct rt; cbn in *; subst. apply rtc_refl.
  - eapply rtc_l.
    + apply (step_task rt 0%nat p.1 p'.1 p'.2); [rewrite Ht; reflexivity|].
      rewrite Hp. destruct p'. exact Hm.
    + rewrite Ht. apply (IH (set_tasks [p'.1] (set_pkg p'.2 rt))); reflexivity.
Qed.

Lemma alter_last {T} (f : T -> T) (l : list T) (x : T) :
  alter f (length l) (l ++ [x]) = l ++ [f x].
Proof. induction l as [|y l IH]; simpl; [reflexivity|]. f_equal. exact IH. Qed.

Lemma wait_runSlots (t0 : Z) (w : nat) (slots : list (option nat)) st :
  wait (runSlots t0 w slots st).1 = w.
Proof.
  revert st. induction slots as [|[rec|] slots IH]; intros st; cbn [runSlots];
    [reflexivity| |apply IH].
  cbv zeta. destruct (sendIncoming rec _); [apply IH | reflexivity].
Qed.

(** [SetLogLevel] on a named logger that has a buffer, up to the release
    of the lock: the level is set, the buffer is a fresh ring of as many
    empty slots, one goroutine over the old ring is started, and the
    call's wait group stands at one. *)
Lemma SetLogLevelLocked_single logger (l : Z) rt :
  logger <> defaultLogger (pkg rt) ->
  buffer (deref (pkg rt) logger) <> [] ->
  let old := buffer (deref (pkg rt) logger) in
  SetLogLevelLocked logger l rt
  = (length (waitGroups rt),
     mkRuntime
       (updLogger logger (setBuffer (replicate (length old) None))
          (updLogger logger (setLevel l) (pkg rt)))
       (tasks rt ++ [mkTask (clock (pkg rt)) (Ring.Do old) None
                       (length (waitGroups rt))])
       (waitGroups rt ++ [1]) (senders rt)).
Proof.
  intros Hne Hb. cbv zeta.
  pose proof (PipelineFacts.buffer_valid _ _ Hb) as Hv.
  unfold SetLogLevelLocked, flushFor, wgNew. fields.
  change (defaultLogger (updLogger logger (setLevel l) (pkg rt)))
    with (defaultLogger (pkg rt)).
  destruct (Nat.eqb_spec logger (defaultLogger (pkg rt))) as [|_]; [contradiction|].
  unfold flushBuffer, wgAdd. fields.
  rewrite PipelineFacts.deref_updLogger by exact Hv. cbn [buffer setLevel].
  rewrite bool_decide_eq_false_2 by exact Hb. cbn [negb].
  rewrite alter_last.
  replace (Ring.New (Ring.Len (buffer (deref (pkg rt) logger))))
    with (replicate (length (buffer (deref (pkg rt) logger))) (@None nat));
    [reflexivity|].
  unfold Ring.New, Ring.Len.
  destruct (Z.leb_spec (Z.of_nat (length (buffer (deref (pkg rt) logger)))) 0) as [H|H].
  - destruct (buffer (deref (pkg rt) logger)); [congruence | simpl in H; lia].
  - rewrite Nat2Z.id. reflexivity.
Qed.

(** The parts of C4 that hold, for a named logger with a buffer, no other
    flush under way and room in the channel: the call is a run of the
    system; it waits while the goroutine runs and returns with its wait
    group idle once the goroutine has queued every record of the old ring,
    in the order of [Do], stamped with the time of the flush. *)
Lemma SetLogLevel_single logger (l : Z) rt :
  logger <> defaultLogger (pkg rt) ->
  tasks rt = [] ->
  buffer (deref (pkg rt) logger) <> [] ->
  (length (incomingChannel (pkg rt))
   + length (omap id (Ring.Do (buffer (deref (pkg rt) logger))))
   <= incomingCap)%nat ->
  let old := buffer (deref (pkg rt) logger) in
  let w := length (waitGroups rt) in
  let res := SetLogLevel logger l rt in
  res.1 = w
  /\ wgIdle w (SetLogLevelLocked logger l rt).2 = false
  /\ rtc step rt res.2
  /\ wgIdle w res.2 = true /\ tasks res.2 = []
  /\ level (deref (pkg res.2) logger) = l
  /\ buffer (deref (pkg res.2) logger) = replicate (length old) None
  /\ incomingChannel (pkg res.2)
     = incomingChannel (pkg rt) ++ omap id (Ring.Do old)
  /\ rstore (pkg res.2)
     = foldl (fun acc rec => alter (setTime (clock (pkg rt))) rec acc)
         (rstore (pkg rt)) (omap id (Ring.Do old)).
Proof.
  intros Hne Ht Hb Hroom. cbv zeta.
  pose proof (PipelineFacts.buffer_valid _ _ Hb) as Hv.
  pose proof (step_SetLogLevel rt logger l) as Hstep.
  unfold SetLogLevel.
  rewrite (SetLogLevelLocked_single logger l rt Hne Hb) in *.
  cbv zeta in *. rewrite Ht in *. cbn [app fst snd] in *.
  set (st1 := updLogger logger _ (updLogger logger (setLevel l) (pkg rt))) in *.
  set (w := length (waitGroups rt)) in *.
  set (old := buffer (deref (pkg rt) logger)) in *.
  set (rtL := mkRuntime st1 _ _ _) in *.
  pose proof (runSlots_spec (clock (pkg rt)) w (Ring.Do old) st1 Hroom)
    as (Hf & Hq & _ & Hr & Hs).
  pose proof (runSlots_moves (clock (pkg rt)) w (Ring.Do old) st1) as Hm.
  pose proof (wait_runSlots (clock (pkg rt)) w (Ring.Do old) st1) as Hw.
  unfold runTasks. cbn [tasks rtL runTasksLoop]. unfold runTask.
  cbn [sending now todo wait pkg rtL].
  destruct (runSlots (clock (pkg rt)) w (Ring.Do old) st1) as [t' st'] eqn:E.
  cbn [fst snd] in *. rewrite Hf. cbn [runTasksLoop fst snd]. rewrite Hw.
  unfold wgIdle, wgAdd. fields. cbn [rtL waitGroups].
  split; [reflexivity|]. split.
  { apply bool_decide_eq_false_2. unfold w.
    rewrite lookup_app_r, Nat.sub_diag by lia. discriminate. }
  split.
  { eapply rtc_l; [exact Hstep|].
    eapply rtc_r.
    - apply (moves_steps _ _ Hm rtL); reflexivity.
    - cbn [fst snd rtL waitGroups senders].
      pose proof (step_task_done
                    (mkRuntime st' [t'] (waitGroups rt ++ [1]) (senders rt))
                    0%nat t' eq_refl Hf) as Hd.
      rewrite Hw in Hd. exact Hd. }
  split.
  { apply bool_decide_eq_true_2. unfold w. rewrite alter_last.
    rewrite lookup_app_r, Nat.sub_diag by lia. reflexivity. }
  split; [reflexivity|].
  assert (Hd : deref st' logger = deref st1 logger)
    by (unfold deref; rewrite Hs; reflexivity).
  rewrite Hd. unfold st1.
  rewrite !PipelineFacts.deref_updLogger
    by (unfold updLogger; fields; rewrite ?length_alter; exact Hv).
  repeat split; assumption.
Qed.

(** *** The wait group counts the goroutines started *)

Lemma alter_add_add (a b : Z) (w : nat) (l : list Z) :
  alter (Z.add a) w (alter (Z.add b) w l) = alter (Z.add (a + b)) w l.
Proof.
  rewrite list_alter_alter_eq. apply list_alter_ext; [|reflexivity].
  intros x _. simpl. lia.
Qed.

(** One [flushBuffer] either starts a goroutine that will signal [w], or
    signals [w] itself. *)
Lemma flushBuffer_wait logger (w : nat) rt :
  exists started,
    tasks (flushBuffer logger w rt) = tasks rt ++ started
    /\ Forall (fun t => wait t = w /\ sending t = None) started
    /\ waitGroups (flushBuffer logger w rt)
       = alter (Z.add (Z.of_nat (length started) - 1)) w (waitGroups rt)
    /\ senders (flushBuffer logger w rt) = senders rt.
Proof.
  unfold flushBuffer.
  destruct (negb (bool_decide (buffer (deref (pkg rt) logger) = []))).
  - eexists [_]. fields. split; [reflexivity|]. split; [repeat constructor|].
    split; [|reflexivity]. symmetry. apply list_alter_id. intros x. simpl. lia.
  - exists []. unfold wgAdd. fields. rewrite app_nil_r. repeat split. constructor.
Qed.

Lemma flushBuffers_wait (vals : list nat) (w : nat) rt :
  exists started,
    tasks (foldl (fun acc val => flushBuffer val w acc) rt vals)
    = tasks rt ++ started
    /\ Forall (fun t => wait t = w /\ sending t = None) started
    /\ waitGroups (foldl (fun acc val => flushBuffer val w acc) rt vals)
       = alter (Z.add (Z.of_nat (length started) - Z.of_nat (length vals))) w
           (waitGroups rt)
    /\ senders (foldl (fun acc val => flushBuffer val w acc) rt vals)
       = senders rt.
Proof.
  revert rt. induction vals as [|val vals IH]; intros rt.
  - exists []. simpl. rewrite app_nil_r. split; [reflexivity|].
    split; [constructor|]. split; [|reflexivity].
    symmetry. apply list_alter_id. intros x. lia.
  - cbn [foldl].
    destruct (flushBuffer_wait val w rt) as (s1 & Ht1 & Hf1 & Hw1 & Hs1).
    destruct (IH (flushBuffer val w rt)) as (s2 & Ht2 & Hf2 & Hw2 & Hs2).
    exists (s1 ++ s2). rewrite Ht2, Ht1, Hw2, Hw1, Hs2, Hs1, app_assoc.
    split; [reflexivity|]. split; [apply Forall_app; auto|].
    split; [|reflexivity].
    rewrite alter_add_add. apply list_alter_ext; [|reflexivity].
    intros x _. rewrite length_app. cbn [length]. lia.
Qed.

(** After [flushAllLoggers] the wait group has been raised by the number
    of goroutines started, one for each logger that had a buffer, and each
    of them signals it at its end: [wait.Wait()] returns when the last of
    them has finished. *)
Lemma flushAllLoggers_wait (w : nat) rt :
  exists started,
    tasks (flushAllLoggers w rt) = tasks rt ++ started
    /\ Forall (fun t => wait t = w /\ sending t = None) started
    /\ waitGroups (flushAllLoggers w rt)
       = alter (Z.add (Z.of_nat (length started))) w (waitGroups rt).
Proof.
  unfold flushAllLoggers.
  set (rt1 := wgAdd w _ rt).
  set (vals := (map_to_list (loggers (pkg rt))).*2).
  destruct (flushBuffers_wait vals w rt1) as (s1 & Ht1 & Hf1 & Hw1 & _).
  set (rt2 := foldl _ rt1 vals) in *.
  destruct (flushBuffer_wait (defaultLogger (pkg rt2)) w rt2)
    as (s2 & Ht2 & Hf2 & Hw2 & _).
  exists (s1 ++ s2). rewrite Ht2, Ht1, Hw2, Hw1, app_assoc.
  split; [reflexivity|]. split; [apply Forall_app; auto|].
  unfold rt1, wgAdd. cbn [waitGroups]. rewrite !alter_add_add.
  apply list_alter_ext; [|reflexivity]. intros x _.
  unfold vals. rewrite length_fmap, length_map_to_list, length_app. lia.
Qed.

(** *** Every operation leaves the records as they are, but for [Time] *)

Lemma sameButTime_refl (a : LogRecord) : sameButTime a a.
Proof. repeat split. Qed.

Lemma sameButTime_trans (a b c : LogRecord) :
  sameButTime a b -> sameButTime b c -> sameButTime a c.
Proof. unfold sameButTime. intuition congruence. Qed.

Lemma sameButTime_setTime (t : Z) (a : LogRecord) : sameButTime a (setTime t a).
Proof. repeat split. Qed.

Lemma rstore_updLogger (p : nat) f st : rstore (updLogger p f st) = rstore st.
Proof. reflexivity. Qed.

Lemma rstore_setBufferLengthImpl logger (n : Z) st :
  rstore (setBufferLengthImpl logger n st) = rstore st.
Proof.
  unfold setBufferLengthImpl.
  destruct (n =? 0); [reflexivity|]. destruct (negb _); reflexivity.
Qed.

Lemma rstore_SetDefaultBufferLength (n : Z) st :
  rstore (SetDefaultBufferLength n st) = rstore st.
Proof.
  unfold SetDefaultBufferLength.
  induction ((map_to_list (loggers st)).*2) as [|val vals IH]; simpl.
  - apply rstore_setBufferLengthImpl.
  - destruct (bool_decide _); [rewrite rstore_setBufferLengthImpl|]; exact IH.
Qed.

Lemma rstore_GetLogger (nm : string) st : rstore (GetLogger nm st).2 = rstore st.
Proof.
  unfold GetLogger. destruct (loggers st !! nm); [reflexivity|].
  simpl. unfold SetBufferLength. fields. rewrite rstore_setBufferLengthImpl.
  reflexivity.
Qed.

Lemma rstore_processLogRecord rec st :
  rstore (processLogRecord rec st) = rstore st.
Proof.
  unfold processLogRecord. fields.
  destruct (checkLevelWithTags _ _ _ _).
  - rewrite PipelineFacts.logToAppenders_spec. reflexivity.
  - destruct (_ && _); reflexivity.
Qed.

Lemma rstore_sendIncoming rec st st' :
  sendIncoming rec st = Some st' -> rstore st' = rstore st.
Proof.
  unfold sendIncoming. destruct (_ <? _)%nat; [|discriminate].
  intros [= <-]. reflexivity.
Qed.

Lemma rstore_consume st st' : consume st = Some st' -> rstore st' = rstore st.
Proof.
  unfold consume. destruct (incomingChannel st); [discriminate|].
  intros [= <-]. rewrite rstore_processLogRecord. reflexivity.
Qed.

Lemma pkg_wgAdd (w : nat) (n : Z) rt : pkg (wgAdd w n rt) = pkg rt.
Proof. reflexivity. Qed.

Lemma rstore_flushBuffer logger (w : nat) rt :
  rstore (pkg (flushBuffer logger w rt)) = rstore (pkg rt).
Proof. unfold flushBuffer. destruct (negb _); reflexivity. Qed.

Lemma rstore_flushAllLoggers (w : nat) rt :
  rstore (pkg (flushAllLoggers w rt)) = rstore (pkg rt).
Proof.
  unfold flushAllLoggers. rewrite rstore_flushBuffer.
  change (rstore (pkg rt))
    with (rstore (pkg (wgAdd w (Z.of_nat (size (loggers (pkg rt))) + 1) rt))).
  generalize (wgAdd w (Z.of_nat (size (loggers (pkg rt))) + 1) rt) as rt1.
  induction ((map_to_list (loggers (pkg rt))).*2) as [|val vals IH];
    intros rt1; simpl; [reflexivity|].
  rewrite IH. apply rstore_flushBuffer.
Qed.

Lemma rstore_flushFor logger rt :
  rstore (pkg (flushFor logger rt).2) = rstore (pkg rt).
Proof.
  unfold flushFor. simpl.
  destruct (_ =? _)%nat; simpl;
    [rewrite rstore_flushAllLoggers | rewrite rstore_flushBuffer]; reflexivity.
Qed.

(** Producing allocates after the records there are. *)
Lemma rstore_logwithformat logger (level : Z) (tags : option (list string))
    (text stack : string) st :
  match logwithformat logger level tags text stack st with
  | Returned _ st' | Blocked _ _ st' =>
      exists more, rstore st' = rstore st ++ more
  end.
Proof.
  unfold logwithformat. destruct (_ && _); [exists []; symmetry; apply app_nil_r|].
  unfold NewLogRecord, sendIncoming. fields.
  destruct (_ <? _)%nat; eexists; reflexivity.
Qed.

(** A move of a flush goroutine stamps the record it visits, if any. *)
Lemma rstore_taskStep (t t' : Task) st st' :
  taskStep t st = Some (t', st') ->
  rstore st' = rstore st
  \/ exists rec rest,
       sending t = None /\ todo t = Some rec :: rest
       /\ rstore st' = alter (setTime (now t)) rec (rstore st).
Proof.
  unfold taskStep. destruct (sending t) as [rec|].
  - destruct (sendIncoming rec st) eqn:E; [|discriminate].
    intros [= <- <-]. left. eapply rstore_sendIncoming, E.
  - destruct (todo t) as [|[rec|] rest]; [discriminate|..]; intros [= <- <-].
    + right. exists rec, rest. auto.
    + left. reflexivity.
Qed.

(** One transition keeps every record, or is the move of a flush goroutine
    that stamps it with the goroutine's [now]. *)
Lemma step_record rt rt' (r : nat) (rec : LogRecord) :
  step rt rt' ->
  rstore (pkg rt) !! r = Some rec ->
  rstore (pkg rt') !! r = Some rec
  \/ exists (i : nat) (t : Task) rest,
       tasks rt !! i = Some t /\ sending t = None /\ todo t = Some r :: rest
       /\ rstore (pkg rt') !! r = Some (setTime (now t) rec).
Proof.
  intros Hstep Hr. destruct Hstep; fields.
  1, 2: match goal with
        | H : logwithformat ?a ?b ?c ?d ?e _ = _ |- _ =>
            pose proof (rstore_logwithformat a b c d e (pkg rt)) as Hs;
            rewrite H in Hs; destruct Hs as [more ->]; left;
            apply lookup_app_l_Some, Hr
        end.
  - left. erewrite rstore_sendIncoming by eassumption. exact Hr.
  - left. erewrite rstore_consume by eassumption. exact Hr.
  - destruct (rstore_taskStep _ _ _ _ H0) as [->|(rec0 & rest & Hs & Ht & ->)];
      [left; exact Hr|].
    destruct (decide (rec0 = r)) as [->|Hne].
    + right. exists i, t, rest. repeat split; try assumption.
      rewrite list_lookup_alter_eq, Hr. reflexivity.
    + left. rewrite list_lookup_alter_ne by exact Hne. exact Hr.
  - left. exact Hr.
  - left. unfold SetLogLevelLocked. rewrite rstore_flushFor. exact Hr.
  - left. unfold SetTagLevelLocked. rewrite rstore_flushFor. exact Hr.
  - left. rewrite rstore_flushFor. exact Hr.
  - left. unfold SetBufferLength. rewrite rstore_setBufferLengthImpl. exact Hr.
  - left. rewrite rstore_SetDefaultBufferLength. exact Hr.
  - left. rewrite rstore_GetLogger. exact Hr.
  - left. repeat (apply elem_of_cons in H as [->|H]; [exact Hr|]).
    apply elem_of_nil in H. contradiction.
  - left. exact Hr.
  - left. exact Hr.
  - left. exact Hr.
  - left. exact Hr.
Qed.

(** C9, amended.  A record of the store keeps its original time, level,
    tags, message and owning logger through every run of the system, and
    [Time] too through every transition but one: the move of a flush
    goroutine that visits the record sets [Time] to the goroutine's
    [now]. *)
Theorem C9_records_keep_all_but_time rt rt' (r : nat) (rec : LogRecord) :
  rstore (pkg rt) !! r = Some rec ->
  (rtc step rt rt' ->
   exists rec' : LogRecord,
     rstore (pkg rt') !! r = Some rec' /\ sameButTime rec rec')
  /\ (step rt rt' ->
      rstore (pkg rt') !! r = Some rec
      \/ exists (i : nat) (t : Task) rest,
           tasks rt !! i = Some t /\ sending t = None /\ todo t = Some r :: rest
           /\ rstore (pkg rt') !! r = Some (setTime (now t) rec)).
Proof.
  intros Hr. split; [|intros Hstep; eapply step_record; eassumption].
  intros Hrun. revert rec Hr.
  induction Hrun as [rt|rt rt1 rt' Hstep _ IH]; intros rec Hr.
  - exists rec. split; [exact Hr | apply sameButTime_refl].
  - destruct (step_record _ _ _ _ Hstep Hr) as [H1|(i & t & rest & _ & _ & _ & H1)].
    + apply IH, H1.
    + destruct (IH _ H1) as (rec' & Hrec' & Hsame).
      exists rec'. split; [exact Hrec'|].
      eapply sameButTime_trans; [apply sameButTime_setTime | exact Hsame].
Qed.

End Facts.

(** C4 on [TestBuffer]: the logger at [ERROR] with a buffer of 10 has
    suppressed "warn", "info" and "debug", made at times 7, 8 and 9, in
    that order.  [SetLogLevel(DEBUG)] at time 10 puts a fresh ring of 10
    empty slots in the buffer's place, stamps the three records with time
    10, keeps their original times, counts three more records as produced
    and returns with its wait group idle; but it queues "debug", the
    newest, first, and "warn" and "info" after it, and that is the order
    in which the appender receives them. *)
Theorem C4_flush_replays_newest_first :
  let logger := (Scenario.buffered 10).1 in
  let rt := (Scenario.buffered 10).2 in
  let res := SetLogLevel logger DEBUG rt in
  let st' := pkg res.2 in
  Ring.Next (buffer (deref (pkg rt) logger))
  = [None; None; None; None; None; None; None; Some 1; Some 2; Some 3]%nat
  /\ buffer (deref st' logger) = replicate 10 None
  /\ (fun r => (Message (record st' r), Original (record st' r), Time (record st' r)))
       <$> incomingChannel st'
     = [("debug", 9, 10); ("warn", 7, 10); ("info", 8, 10)]
  /\ logged st' = logged (pkg rt) + 3
  /\ wgIdle res.1 res.2 = true /\ tasks res.2 = []
  /\ Scenario.messages (WaitForIncoming res.2)
     = [["error"; "debug"; "warn"; "info"]].
Proof. vm_compute. repeat split. Qed.

(** The call of C4 is a run of the system. *)
Lemma TestBuffer_flush_is_a_run :
  rtc step (Scenario.buffered 10).2
    (SetLogLevel (Scenario.buffered 10).1 DEBUG (Scenario.buffered 10).2).2.
Proof.
  apply SetLogLevel_single.
  - vm_compute. discriminate.
  - vm_compute. reflexivity.
  - vm_compute. discriminate.
  - apply Nat.leb_le. vm_compute. reflexivity.
Qed.

(** The goroutine of [Scenario.flushing] makes its first move. *)
Lemma flushing_step : step Scenario.flushing Scenario.flushingOne.
Proof.
  unfold Scenario.flushingOne.
  destruct (tasks Scenario.flushing) as [|t ts] eqn:Ht;
    [vm_compute in Ht; discriminate|].
  destruct (taskStep t (pkg Scenario.flushing)) as [[t' st']|] eqn:Hs.
  - rewrite <- Ht.
    apply (step_task Scenario.flushing 0%nat t t' st'); [rewrite Ht; reflexivity | exact Hs].
  - exfalso. vm_compute in Ht. injection Ht as <- <-.
    vm_compute in Hs. discriminate.
Qed.

(** C9 as stated fails: the record that [logger.Debug("debug")] made at
    time 9 has its [Time] set to 10, the time of the flush, by the first
    move of the flush goroutine in [TestBuffer]; so not every transition
    keeps every record as it is. *)
Lemma C9_flush_changes_Time :
  rstore (pkg Scenario.flushing) !! 3%nat
  = Some (mkRecord 9 9 DEBUG None "debug" 1%nat)
  /\ rstore (pkg Scenario.flushingOne) !! 3%nat
     = Some (mkRecord 10 9 DEBUG None "debug" 1%nat)
  /\ ~ (forall (rt rt' : Runtime Appenders.Appender) (r : nat) (rec : LogRecord),
          step rt rt' ->
          rstore (pkg rt) !! r = Some rec ->
          rstore (pkg rt') !! r = Some rec).
Proof.
  assert (H9 : rstore (pkg Scenario.flushing) !! 3%nat
               = Some (mkRecord 9 9 DEBUG None "debug" 1%nat))
    by (vm_compute; reflexivity).
  assert (H10 : rstore (pkg Scenario.flushingOne) !! 3%nat
                = Some (mkRecord 10 9 DEBUG None "debug" 1%nat))
    by (vm_compute; reflexivity).
  split; [exact H9|]. split; [exact H10|].
  intros Hall. specialize (Hall _ _ _ _ flushing_step H9).
  rewrite H10 in Hall. discriminate Hall.
Qed.

(** C9, amended, on that move: the record keeps everything but [Time]. *)
Lemma C9_records_keep_all_but_time_witness :
  exists rec' : LogRecord,
    rstore (pkg Scenario.flushingOne) !! 3%nat = Some rec'
    /\ sameButTime (mkRecord 9 9 DEBUG None "debug" 1%nat) rec'.
Proof.
  assert (H9 : rstore (pkg Scenario.flushing) !! 3%nat
               = Some (mkRecord 9 9 DEBUG None "debug" 1%nat))
    by (vm_compute; reflexivity).
  apply (proj1 (C9_records_keep_all_but_time Scenario.flushing
                  Scenario.flushingOne 3%nat _ H9)).
  apply rtc_once, flushing_step.
Defined.

End FlushFacts.

(** ** The rolling file appender *)

Module RollingFacts.

Import Rolling.

(** [os.Stat] by cases on the disk. *)
Lemma Stat_spec (path : string) (f : FS) :
  Stat path f
  = (logCall (SysStat path) f,
     if bool_decide (path ∈ denied f) then inl EACCES
     else match dir f !! path with
          | None => inl ENOENT
          | Some i => inr (Z.of_nat (String.length (inodes f !!! i)))
          end).
Proof.
  unfold Stat. cbn [logCall denied dir inodes].
  destruct (bool_decide (path ∈ denied f)); [reflexivity|].
  destruct (dir f !! path); reflexivity.
Qed.

(** The decision [needsRoll] takes, by cases on the appender and the disk. *)
Lemma needsRoll_result (w : World) :
  (needsRoll w).2
  = if maxFiles (self w) =? 1
    then bool_decide (~ unreadable w /\ missing w)
    else firstTime (self w)
         || bool_decide (unreadable w \/ missing w)
         || match dir (fs w) !! currentFileName (self w) with
            | Some i =>
                maxFileSize (self w)
                <=? Z.of_nat (String.length (inodes (fs w) !!! i))
            | None => false
            end.
Proof.
  unfold needsRoll, bind, get, sys, ret, unreadable, missing.
  destruct (maxFiles (self w) =? 1).
  - rewrite Stat_spec.
    destruct (decide (currentFileName (self w) ∈ denied (fs w))) as [Hd|Hd].
    + rewrite (bool_decide_eq_true_2 _ Hd). simpl.
      symmetry. apply bool_decide_eq_false_2. tauto.
    + rewrite (bool_decide_eq_false_2 _ Hd).
      destruct (dir (fs w) !! currentFileName (self w)) eqn:E; simpl; symmetry.
      * apply bool_decide_eq_false_2. intros [_ ?]. congruence.
      * apply bool_decide_eq_true_2. auto.
  - destruct (firstTime (self w)); [reflexivity|]. simpl.
    rewrite Stat_spec.
    destruct (decide (currentFileName (self w) ∈ denied (fs w))) as [Hd|Hd].
    + rewrite (bool_decide_eq_true_2 _ Hd). simpl.
      rewrite bool_decide_eq_true_2 by auto. reflexivity.
    + rewrite (bool_decide_eq_false_2 _ Hd).
      destruct (dir (fs w) !! currentFileName (self w)) eqn:E; simpl.
      * rewrite bool_decide_eq_false_2 by (intros [?|?]; [tauto | congruence]).
        simpl. destruct (_ <=? _); reflexivity.
      * rewrite bool_decide_eq_true_2 by auto. reflexivity.
Qed.

Lemma atOrAboveMax_spec (w : World) :
  atOrAboveMax w
  <-> match dir (fs w) !! currentFileName (self w) with
      | Some i =>
          maxFileSize (self w)
          <=? Z.of_nat (String.length (inodes (fs w) !!! i))
      | None => false
      end = true.
Proof.
  unfold atOrAboveMax. destruct (dir (fs w) !! currentFileName (self w)) as [i|].
  - rewrite Z.leb_le. split.
    + intros (j & [= <-] & H). exact H.
    + intros H. exists i. auto.
  - split; [intros (j & Hj & _); discriminate | discriminate].
Qed.

(** C6, amended.  With [maxFiles = 1], [needsRoll] is true exactly when
    [os.Stat] reports the current file as not existing, and never on
    account of its size.  With [maxFiles > 1] it is true exactly when this
    is the first write since the appender was made, or [os.Stat] on the
    current file fails, because the file is missing or for any other
    reason, or the file's size is at or above [maxFileSize]. *)
Theorem C6_needsRoll_decision (w : World) :
  1 <= maxFiles (self w) ->
  (maxFiles (self w) = 1
   /\ ((needsRoll w).2 = true <-> ~ unreadable w /\ missing w))
  \/ (1 < maxFiles (self w)
      /\ ((needsRoll w).2 = true
          <-> firstTime (self w) = true \/ unreadable w \/ missing w
              \/ atOrAboveMax w)).
Proof.
  intros Hmax. rewrite needsRoll_result.
  destruct (Z.eqb_spec (maxFiles (self w)) 1) as [H1|H1].
  - left. split; [exact H1|]. apply bool_decide_eq_true.
  - right. split; [lia|]. rewrite atOrAboveMax_spec.
    rewrite !orb_true_iff, bool_decide_eq_true. tauto.
Qed.

(** C6 on an appender that keeps two files and has rolled once, with the
    current file missing. *)
Lemma C6_needsRoll_decision_witness :
  let w := mkWorld (set_firstTime false keepTwo) (mkFS ∅ [] ∅ []) in
  (needsRoll w).2 = true.
Proof.
  cbv zeta.
  assert (Hmax : 1 <= maxFiles (self (mkWorld (set_firstTime false keepTwo)
                                        (mkFS ∅ [] ∅ []))))
    by (vm_compute; discriminate).
  destruct (C6_needsRoll_decision _ Hmax) as [[H1 _]|[_ Hiff]].
  - vm_compute in H1. discriminate H1.
  - apply Hiff. right; right; left. reflexivity.
Defined.

(** C6 as stated fails: on [hidden] the appender keeps two files, has
    rolled before, and the current file is there with 3 bytes; [os.Stat]
    on it fails with an error that is not "does not exist", and
    [needsRoll] returns true. *)
Lemma C6_needsRoll_true_on_stat_error :
  1 < maxFiles (self hidden)
  /\ (needsRoll hidden).2 = true
  /\ ~ ((needsRoll hidden).2 = true
        <-> firstTime (self hidden) = true \/ missing hidden
            \/ atOrAboveMax hidden).
Proof.
  assert (Hb : (needsRoll hidden).2 = true) by (vm_compute; reflexivity).
  split; [vm_compute; reflexivity|]. split; [exact Hb|].
  intros [Hiff _]. destruct (Hiff Hb) as [Hf|[Hm|Ha]].
  - vm_compute in Hf. discriminate Hf.
  - vm_compute in Hm. discriminate Hm.
  - apply atOrAboveMax_spec in Ha. vm_compute in Ha. discriminate Ha.
Qed.

(** *** Rolling *)

(** [w'] comes after [w] by system calls that keep the appender's fields
    and the set of unreadable paths, and that remove unreadable paths
    only. *)
Definition after (w w' : World) : Prop :=
  self w' = self w
  /\ denied (fs w') = denied (fs w)
  /\ exists more,
       trace (fs w') = trace (fs w) ++ more
       /\ forall p, SysRemove p ∈ more -> p ∈ denied (fs w).

Lemma after_refl (w : World) : after w w.
Proof.
  repeat split. exists []. rewrite app_nil_r. split; [reflexivity|].
  intros p Hp. apply elem_of_nil in Hp. contradiction.
Qed.

Lemma after_trans (w1 w2 w3 : World) : after w1 w2 -> after w2 w3 -> after w1 w3.
Proof.
  intros (Hs & Hd & m & Ht & Hm) (Hs' & Hd' & m' & Ht' & Hm').
  split; [congruence|]. split; [congruence|].
  exists (m ++ m'). split; [rewrite Ht', Ht, app_assoc; reflexivity|].
  intros p Hp. apply elem_of_app in Hp as [Hp|Hp]; [auto|].
  rewrite <- Hd. auto.
Qed.

Lemma after_call (w : World) (f : FS) (c : Syscall) :
  denied f = denied (fs w) ->
  trace f = trace (fs w) ++ [c] ->
  (forall p, c = SysRemove p -> p ∈ denied (fs w)) ->
  after w (mkWorld (self w) f).
Proof.
  intros Hd Ht Hc. split; [reflexivity|]. split; [exact Hd|].
  exists [c]. split; [exact Ht|].
  intros p Hp. apply list_elem_of_singleton in Hp. apply Hc. symmetry. exact Hp.
Qed.

Lemma bind_run {X Y} (m : M X) (k : X -> M Y) (w : World) :
  bind m k w = k (m w).2 (m w).1.
Proof. unfold bind. destruct (m w). reflexivity. Qed.

Lemma after_Stat (path : string) (w : World) :
  after w (sys (Stat path) w).1
  /\ ((sys (Stat path) w).2 = inl EACCES -> path ∈ denied (fs w)).
Proof.
  unfold sys. rewrite Stat_spec. cbn [fst snd]. split.
  - apply (after_call w _ (SysStat path)); try reflexivity. discriminate.
  - destruct (decide (path ∈ denied (fs w))) as [Hd|Hd]; [auto|].
    rewrite (bool_decide_eq_false_2 _ Hd).
    destruct (dir (fs w) !! path); discriminate.
Qed.

Lemma after_Rename (a b : string) (w : World) : after w (sys (Rename a b) w).1.
Proof.
  unfold sys, Rename. cbn [logCall denied dir inodes trace].
  destruct (_ || _); [|destruct (dir (fs w) !! a)]; cbn [fst];
    apply (after_call w _ (SysRename a b)); try reflexivity; discriminate.
Qed.

Lemma after_Remove (path : string) (w : World) :
  path ∈ denied (fs w) -> after w (sys (Remove path) w).1.
Proof.
  intros Hd. unfold sys, Remove. cbn [logCall denied dir inodes trace].
  destruct (bool_decide _); [|destruct (dir (fs w) !! path)]; cbn [fst];
    apply (after_call w _ (SysRemove path)); try reflexivity;
    intros p [= <-]; exact Hd.
Qed.

(** [Roll]'s loop keeps the appender's fields and the set of unreadable
    paths, and calls [os.Remove] on a next generation only after [os.Stat]
    on it failed with an error that is not "does not exist": a generation
    that is there and can be examined is not removed before the rename. *)
Lemma rollLoop_removes (n : nat) (w : World) : after w (rollLoop n w).1.
Proof.
  revert w. induction n as [|k IH]; intros w; [apply after_refl|].
  cbn [rollLoop]. unfold get. rewrite bind_run. cbn [fst snd].
  set (fileName := if Z.of_nat k =? 0 then currentFileName (self w)
                   else generationName (self w) (Z.of_nat k)).
  set (nextFileName := generationName (self w) (i16 (Z.of_nat k + 1))).
  rewrite bind_run.
  destruct (after_Stat fileName w) as [H1 _].
  destruct (sys (Stat fileName) w) as [w1 [e|sz]]; cbn [fst snd] in *.
  { destruct (IsNotExist e); [|exact H1].
    eapply after_trans; [exact H1 | apply IH]. }
  rewrite bind_run.
  destruct (after_Stat nextFileName w1) as [H2 Hden].
  destruct (sys (Stat nextFileName) w1) as [w2 r2]; cbn [fst snd] in *.
  assert (H12 : after w w2) by (eapply after_trans; eassumption).
  rewrite bind_run.
  assert (Hfin : forall w3, after w w3 ->
            after w (bind (sys (Rename fileName nextFileName))
                       (fun err => match err with
                                   | Some e => ret (Some e)
                                   | None => rollLoop k
                                   end) w3).1).
  { intros w3 H3. rewrite bind_run.
    pose proof (after_Rename fileName nextFileName w3) as H4.
    destruct (sys (Rename fileName nextFileName) w3) as [w4 [e|]];
      cbn [fst snd] in *.
    - eapply after_trans; eassumption.
    - eapply after_trans; [eapply after_trans; eassumption | apply IH]. }
  destruct r2 as [[|]|sz']; cbn [IsNotExist negb].
  - apply Hfin, H12.
  - pose proof (after_Remove nextFileName w2) as H3.
    destruct H2 as (_ & Hd2 & _). rewrite Hd2 in H3.
    specialize (H3 (Hden eq_refl)).
    destruct (sys (Remove nextFileName) w2) as [w3 [e|]]; cbn [fst snd] in *.
    + eapply after_trans; eassumption.
    + apply Hfin. eapply after_trans; eassumption.
  - apply Hfin, H12.
Qed.

(** [Close] writes what the writer holds and closes the file; it calls
    neither [os.Remove] nor [os.Rename] and leaves the directory alone. *)
Lemma Close_calls (w : World) :
  denied (fs (Close w).1) = denied (fs w)
  /\ dir (fs (Close w).1) = dir (fs w)
  /\ exists more,
       trace (fs (Close w).1) = trace (fs w) ++ more
       /\ forall c, c ∈ more -> exists file, (exists data, c = SysWrite file data)
                                           \/ c = SysClose file.
Proof.
  assert (Hin : forall (l : list Syscall),
             (forall c, c ∈ l -> exists file, (exists data, c = SysWrite file data)
                                              \/ c = SysClose file) <->
             Forall (fun c => exists file, (exists data, c = SysWrite file data)
                                           \/ c = SysClose file) l)
    by (intros l; symmetry; apply Forall_forall).
  destruct w as [[b pre suf msz mf ft cf [[file held]|]] f];
    unfold Close, Flush, bind, get, ret, modify, sys_; simpl;
    try destruct (bool_decide (held = "")); destruct cf as [h|]; simpl;
    (split; [reflexivity|]); (split; [reflexivity|]);
    try rewrite <- app_assoc;
    (eexists; split; [try reflexivity; symmetry; apply app_nil_r|]);
    apply Hin; repeat constructor; eauto.
Qed.

(** Whatever is on disk, [Roll] calls [os.Remove] only on paths that
    [os.Stat] cannot examine. *)
Lemma Roll_removes_only_unreadable (w : World) :
  exists more,
    trace (fs (Roll w).1) = trace (fs w) ++ more
    /\ forall p, SysRemove p ∈ more -> p ∈ denied (fs w).
Proof.
  unfold Roll. rewrite !bind_run. unfold modify, get. cbn [fst snd].
  destruct (Close_calls w) as (Hd & _ & pre & Ht & Hpre).
  set (w1 := mkWorld (set_firstTime false (self (Close w).1)) (fs (Close w).1)).
  destruct (rollLoop_removes
              (Z.to_nat (i16 (maxFiles (self w1) - 2) + 1)) w1)
    as (_ & _ & more & Ht' & Hmore).
  exists (pre ++ more). split.
  - rewrite Ht'. subst w1. cbn [fs]. rewrite Ht, app_assoc. reflexivity.
  - intros p Hp. apply elem_of_app in Hp as [Hp|Hp].
    + destruct (Hpre _ Hp) as [file [[data H]|H]]; discriminate H.
    + rewrite <- Hd. apply Hmore, Hp.
Qed.

(** C5 on an appender that keeps two files, with both on disk: [Roll]
    examines the current file and generation 1 and renames the one onto
    the other.  Generation 1 is there, and no [os.Remove] is made before
    the rename; the old generation goes because [os.Rename] replaces its
    target. *)
Theorem C5_Roll_does_not_remove_first :
  let res := Roll (mkWorld keepTwo twoFiles) in
  res.2 = None
  /\ trace (fs res.1)
     = [SysStat "p.log"; SysStat "p.1.log"; SysRename "p.log" "p.1.log"]
  /\ dir (fs res.1) = {["p.1.log" := 0%nat]}
  /\ firstTime (self res.1) = false.
Proof. vm_compute. repeat split. Qed.

End RollingFacts.

(** ** The registry and the settings of the loggers *)

Module RegistryFacts.

Import Logging.

Section Facts.

Context {A : Type} `{!LogAppender A}.
Implicit Types (st : State A) (rt : Runtime A) (logger p q : nat) (l : LogLevel).

Lemma deref_updLogger_cases st p q f :
  deref (updLogger p f st) q
  = if decide (p = q /\ (q < length (lstore st))%nat) then f (deref st q)
    else deref st q.
Proof.
  destruct (decide _) as [[-> Hv]|Hn].
  - apply PipelineFacts.deref_updLogger, Hv.
  - destruct (decide (p = q)) as [->|Hne].
    + rewrite !PipelineFacts.deref_inhabitant; [reflexivity|lia|].
      unfold updLogger. fields. rewrite length_alter. lia.
    + apply PipelineFacts.deref_updLogger_ne, Hne.
Qed.

Lemma sameSettings_refl (x : LoggerImpl) : Defaults.sameSettings x x.
Proof. repeat split. Qed.

Lemma sameSettings_trans (x y z : LoggerImpl) :
  Defaults.sameSettings x y -> Defaults.sameSettings y z -> Defaults.sameSettings x z.
Proof. unfold Defaults.sameSettings. intuition congruence. Qed.

Lemma New_Len (b : list (option nat)) :
  Ring.New (Ring.Len b) = replicate (length b) None.
Proof.
  unfold Ring.New, Ring.Len.
  destruct (Z.leb_spec (Z.of_nat (length b)) 0) as [H|H].
  - destruct b; [reflexivity | simpl in H; lia].
  - rewrite Nat2Z.id. reflexivity.
Qed.

(** [CheckLevel] reads the level and the tag levels of the logger and of
    the default logger, and nothing else. *)
Lemma CheckLevel_ext st st' logger l (tags : option (list string)) :
  defaultLogger st' = defaultLogger st ->
  level (deref st' logger) = level (deref st logger) ->
  tagLevels (deref st' logger) = tagLevels (deref st logger) ->
  level (deref st' (defaultLogger st)) = level (deref st (defaultLogger st)) ->
  tagLevels (deref st' (defaultLogger st)) = tagLevels (deref st (defaultLogger st)) ->
  CheckLevel st' logger l tags = CheckLevel st logger l tags.
Proof.
  intros Hd Hl Ht Hdl Hdt. unfold Logging.CheckLevel, checkLevelWithTags.
  rewrite Hd, Hl, Ht, Hdl, Hdt.
  replace (checkTagLevel st' logger l (default [] tags))
    with (checkTagLevel st logger l (default [] tags)); [reflexivity|].
  induction (default [] tags) as [|tag rest IH]; simpl; [reflexivity|].
  rewrite Hd, Ht, Hdt, IH. reflexivity.
Qed.


Lemma setBufferLengthImpl_frame logger (n : Z) st :
  let st' := setBufferLengthImpl logger n st in
  defaultLogger st' = defaultLogger st /\ loggers st' = loggers st
  /\ length (lstore st') = length (lstore st)
  /\ incomingChannel st' = incomingChannel st /\ logged st' = logged st
  /\ processed st' = processed st /\ appenders st' = appenders st.
Proof.
  cbv zeta. unfold setBufferLengthImpl, updLogger.
  destruct (n =? 0); [|destruct (negb _)]; fields; rewrite ?length_alter;
    repeat split.
Qed.

Lemma setBufferLengthImpl_other logger (n : Z) st q :
  q <> logger -> deref (setBufferLengthImpl logger n st) q = deref st q.
Proof.
  intros Hne. unfold setBufferLengthImpl.
  destruct (n =? 0); [|destruct (negb _)];
    rewrite ?PipelineFacts.deref_updLogger_ne by congruence; reflexivity.
Qed.

Lemma setBufferLengthImpl_settings logger (n : Z) st q :
  let x := deref st q in
  let x' := deref (setBufferLengthImpl logger n st) q in
  name x' = name x /\ level x' = level x /\ tagLevels x' = tagLevels x.
Proof.
  cbv zeta. unfold setBufferLengthImpl.
  destruct (n =? 0); [|destruct (negb _)];
    rewrite ?deref_updLogger_cases; try destruct (decide _); repeat split.
Qed.

(** [setBufferLengthImpl] on a logger of the store: the buffer stays when
    it has the length asked for, and is a fresh ring otherwise. *)
Lemma setBufferLengthImpl_buffer logger (n : Z) st :
  (logger < length (lstore st))%nat ->
  buffer (deref (setBufferLengthImpl logger n st) logger)
  = if n =? Ring.Len (buffer (deref st logger)) then buffer (deref st logger)
    else Ring.New n.
Proof.
  intros Hv. unfold setBufferLengthImpl.
  destruct (Z.eqb_spec n 0) as [->|Hn].
  - rewrite PipelineFacts.deref_updLogger by exact Hv. cbn [buffer setBuffer].
    destruct (Z.eqb_spec 0 (Ring.Len (buffer (deref st logger)))) as [E|E];
      [|reflexivity].
    unfold Ring.Len in E. destruct (buffer (deref st logger)); [reflexivity|].
    simpl in E. lia.
  - destruct (n =? Ring.Len (buffer (deref st logger))); cbn [negb];
      [reflexivity|].
    rewrite PipelineFacts.deref_updLogger by exact Hv. reflexivity.
Qed.

(** [GetLogger] registers what it returns: the name is in the registry
    afterwards, a second call with the name returns the same logger and
    changes nothing, and the other names are registered as before. *)
Theorem GetLogger_registers (nm : string) st :
  let res := GetLogger nm st in
  loggers res.2 !! nm = Some res.1
  /\ GetLogger nm res.2 = res
  /\ forall other, other <> nm -> loggers res.2 !! other = loggers st !! other.
Proof.
  cbv zeta. destruct (GetLogger nm st) as [p st'] eqn:G. cbn [fst snd].
  unfold GetLogger in G. destruct (loggers st !! nm) as [q|] eqn:E.
  - injection G as <- <-. split; [exact E|]. split; [|reflexivity].
    unfold GetLogger. rewrite E. reflexivity.
  - injection G as <- <-. fields. rewrite lookup_insert_eq.
    split; [reflexivity|]. split.
    + unfold GetLogger. fields. rewrite lookup_insert_eq. reflexivity.
    + intros other Hne. rewrite lookup_insert_ne by congruence.
      unfold SetBufferLength.
      match goal with |- context [setBufferLengthImpl ?p ?n ?s] =>
        destruct (setBufferLengthImpl_frame p n s) as (_ & -> & _) end.
      reflexivity.
Qed.


(** A name that is not registered gets a new logger object: level
    [DEFAULT], no tag levels, an empty buffer as long as the default
    logger's.  The loggers there are stay as they are, and the new logger
    resolves every level and tag list as the default logger does. *)
Theorem GetLogger_new_follows_default (nm : string) st :
  loggers st !! nm = None ->
  (defaultLogger st < length (lstore st))%nat ->
  let res := GetLogger nm st in
  let x := deref res.2 res.1 in
  res.1 = length (lstore st)
  /\ name x = nm /\ level x = DEFAULT /\ tagLevels x = None
  /\ buffer x = replicate (length (buffer (deref st (defaultLogger st)))) None
  /\ (forall q, (q < length (lstore st))%nat -> deref res.2 q = deref st q)
  /\ forall l (tags : option (list string)),
       CheckLevel res.2 res.1 l tags = CheckLevel st (defaultLogger st) l tags.
Proof.
  intros Hnone Hdef. cbv zeta. unfold GetLogger. rewrite Hnone. cbn [fst snd].
  set (p := length (lstore st)).
  set (st1 := set_lstore (lstore st ++ [mkLogger nm DEFAULT None []]) st).
  set (n := Ring.Len (buffer (deref st1 (defaultLogger st1)))).
  unfold SetBufferLength.
  assert (H1 : forall q, (q < p)%nat -> deref st1 q = deref st q).
  { intros q Hq. unfold deref, st1. fields. apply lookup_total_app_l, Hq. }
  assert (Hp1 : deref st1 p = mkLogger nm DEFAULT None []).
  { unfold deref, st1, p. fields.
    rewrite list_lookup_total_alt, lookup_app_r, Nat.sub_diag by lia. reflexivity. }
  assert (Hv : (p < length (lstore st1))%nat).
  { unfold st1, p. fields. rewrite length_app. simpl. lia. }
  assert (Hn : n = Ring.Len (buffer (deref st (defaultLogger st)))).
  { unfold n. change (defaultLogger st1) with (defaultLogger st).
    rewrite H1 by exact Hdef. reflexivity. }
  assert (H2 : forall q, (q < p)%nat ->
               deref (setBufferLengthImpl p n st1) q = deref st q).
  { intros q Hq. rewrite setBufferLengthImpl_other by lia. apply H1, Hq. }
  destruct (setBufferLengthImpl_settings p n st1 p) as (Hname & Hlevel & Htags).
  rewrite Hp1 in Hname, Hlevel, Htags. cbn [name level tagLevels] in *.
  pose proof (setBufferLengthImpl_buffer p n st1 Hv) as Hbuf.
  rewrite Hp1 in Hbuf. cbn [buffer] in Hbuf.
  destruct (setBufferLengthImpl_frame p n st1) as (Hfd & _).
  set (st2 := setBufferLengthImpl p n st1) in *.
  assert (Hd : forall m q, deref (set_loggers m st2) q = deref st2 q) by reflexivity.
  rewrite !Hd.
  split; [reflexivity|]. split; [exact Hname|]. split; [exact Hlevel|].
  split; [exact Htags|]. split.
  { rewrite Hbuf, Hn. destruct (Z.eqb_spec (Ring.Len (buffer (deref st (defaultLogger st))))
                                   (Ring.Len [])) as [E|E].
    - unfold Ring.Len in E. simpl in E.
      destruct (buffer (deref st (defaultLogger st))); [reflexivity | simpl in E; lia].
    - apply New_Len. }
  split; [intros q Hq; rewrite Hd; apply H2, Hq|].
  intros l tags.
  assert (Hdl : defaultLogger (set_loggers (<[nm:=p]> (loggers st2)) st2)
                = defaultLogger st).
  { fields. rewrite Hfd. reflexivity. }
  unfold CheckLevel, checkLevelWithTags. rewrite Hdl, !Hd, Hlevel, Htags.
  rewrite (H2 _ Hdef). cbn [notNil orb].
  assert (Hneq : (p =? defaultLogger st)%nat = false)
    by (apply Nat.eqb_neq; lia).
  replace (checkTagLevel (set_loggers (<[nm:=p]> (loggers st2)) st2) p l
             (default [] tags))
    with (checkTagLevel st (defaultLogger st) l (default [] tags)).
  - change (DEFAULT =? DEFAULT) with true. cbn [negb]. rewrite orb_diag.
    destruct (_ && _); [reflexivity|].
    destruct (level (deref st (defaultLogger st)) =? DEFAULT); reflexivity.
  - induction (default [] tags) as [|tag rest IH]; cbn [checkTagLevel];
      [reflexivity|].
    rewrite Hdl, !Hd, Htags, (H2 _ Hdef), Hneq, Nat.eqb_refl, IH. cbn [negb andb].
    destruct (match tagLevels (deref st (defaultLogger st)) with
              | Some m => tagPasses m tag l | None => false end); reflexivity.
Qed.


Lemma Len_New (n : Z) : Ring.Len (Ring.New n) = Z.max 0 n.
Proof.
  unfold Ring.Len, Ring.New. destruct (Z.leb_spec n 0); simpl; [lia|].
  rewrite length_replicate. lia.
Qed.

Lemma Len_nil_iff (b : list (option nat)) : Ring.Len b = 0 <-> b = [].
Proof.
  unfold Ring.Len. destruct b; simpl; split; intros; try reflexivity;
    try discriminate; lia.
Qed.

(** The loop of [SetDefaultBufferLength] over the registered loggers. *)
Lemma SetDefaultBufferLength_loop (n : Z) (vals : list nat) st0 :
  let body := fun val acc =>
    if bool_decide (buffer (deref acc val) = [])
    then setBufferLengthImpl val n acc else acc in
  let st' := foldr body st0 vals in
  (forall q, buffer (deref st0 q) <> [] -> deref st' q = deref st0 q)
  /\ (forall q, (q < length (lstore st0))%nat -> buffer (deref st0 q) = [] ->
        buffer (deref st' q) = if bool_decide (q ∈ vals) then Ring.New n else [])
  /\ (forall q, name (deref st' q) = name (deref st0 q)
                /\ level (deref st' q) = level (deref st0 q)
                /\ tagLevels (deref st' q) = tagLevels (deref st0 q))
  /\ length (lstore st') = length (lstore st0)
  /\ defaultLogger st' = defaultLogger st0 /\ loggers st' = loggers st0.
Proof.
  cbv zeta. induction vals as [|v vals IH]; cbn [foldr].
  - split; [auto|]. split; [|auto]. intros q _ Hq. exact Hq.
  - destruct IH as (Hkeep & Hnew & Hset & Hlen & Hdef & Hreg).
    set (acc := foldr _ st0 vals) in *.
    assert (Hmem : forall q, q <> v ->
              bool_decide (q ∈ v :: vals) = bool_decide (q ∈ vals)).
    { intros q Hne. apply bool_decide_ext. rewrite elem_of_cons. tauto. }
    destruct (bool_decide (buffer (deref acc v) = [])) eqn:Eb.
    + apply bool_decide_eq_true in Eb.
      destruct (setBufferLengthImpl_frame v n acc) as (Fd & Fl & Flen & _).
      split; [|split; [|split; [|split; [|split]]]]; try congruence.
      * intros q Hq. destruct (decide (q = v)) as [->|Hne].
        { rewrite (Hkeep v Hq) in Eb. contradiction. }
        rewrite setBufferLengthImpl_other by exact Hne. apply Hkeep, Hq.
      * intros q Hv Hq. destruct (decide (q = v)) as [->|Hne].
        { rewrite bool_decide_eq_true_2 by (left).
          rewrite setBufferLengthImpl_buffer by lia. rewrite Eb.
          destruct (Z.eqb_spec n (Ring.Len [])) as [->|]; reflexivity. }
        rewrite setBufferLengthImpl_other by exact Hne.
        rewrite (Hnew q Hv Hq), (Hmem q Hne). reflexivity.
      * intros q.
        destruct (setBufferLengthImpl_settings v n acc q) as (-> & -> & ->).
        apply Hset.
    + apply bool_decide_eq_false in Eb.
      split; [exact Hkeep|]. split; [|auto].
      intros q Hv Hq. rewrite (Hnew q Hv Hq).
      destruct (decide (q = v)) as [->|Hne]; [|rewrite (Hmem q Hne); reflexivity].
      rewrite (Hnew v Hv Hq) in Eb.
      destruct (decide (v ∈ vals)) as [Hin|Hin].
      * rewrite !bool_decide_eq_true_2; [reflexivity | left | exact Hin].
      * rewrite bool_decide_eq_false_2 in Eb by exact Hin. contradiction.
Qed.

(** [SetDefaultBufferLength] gives the default logger a buffer of the
    length asked for (none for a length that is not positive) and the same
    to every registered logger that has no buffer.  A logger that has a
    buffer keeps it with what it holds, whatever its length, and no logger
    changes its name, level or tag levels. *)
Theorem SetDefaultBufferLength_reaches_unbuffered (n : Z) st :
  let st' := SetDefaultBufferLength n st in
  let d := defaultLogger st in
  ((d < length (lstore st))%nat -> Ring.Len (buffer (deref st' d)) = Z.max 0 n)
  /\ (forall nm q, loggers st !! nm = Some q -> (q < length (lstore st))%nat ->
        q <> d -> buffer (deref st q) = [] -> buffer (deref st' q) = Ring.New n)
  /\ (forall q, q <> d -> buffer (deref st q) <> [] -> deref st' q = deref st q)
  /\ (forall q, name (deref st' q) = name (deref st q)
                /\ level (deref st' q) = level (deref st q)
                /\ tagLevels (deref st' q) = tagLevels (deref st q)).
Proof.
  cbv zeta. unfold SetDefaultBufferLength.
  set (d := defaultLogger st). set (st0 := setBufferLengthImpl d n st).
  set (vals := (map_to_list (loggers st)).*2).
  destruct (SetDefaultBufferLength_loop n vals st0) as (Hkeep & Hnew & Hset & _).
  cbv zeta in *. set (st' := foldr _ st0 vals) in *.
  destruct (setBufferLengthImpl_frame d n st) as (_ & _ & Hlen & _).
  fold st0 in Hlen.
  split; [|split; [|split]].
  - intros Hd.
    pose proof (setBufferLengthImpl_buffer d n st Hd) as Hb. fold st0 in Hb.
    assert (H0 : Ring.Len (buffer (deref st0 d)) = Z.max 0 n).
    { rewrite Hb. destruct (Z.eqb_spec n (Ring.Len (buffer (deref st d)))) as [E|E].
      - rewrite <- E. unfold Ring.Len in E. lia.
      - apply Len_New. }
    destruct (decide (buffer (deref st0 d) = [])) as [E|E].
    + rewrite (Hnew d) by (rewrite ?Hlen; auto).
      rewrite E in H0. unfold Ring.Len in H0. simpl in H0.
      destruct (bool_decide _); [rewrite Len_New; lia | exact H0].
    + rewrite (Hkeep d E). exact H0.
  - intros nm q Hreg Hv Hne Hq.
    assert (H0 : deref st0 q = deref st q)
      by (apply setBufferLengthImpl_other, Hne).
    rewrite (Hnew q) by (rewrite ?Hlen, ?H0; auto).
    rewrite bool_decide_eq_true_2; [reflexivity|].
    unfold vals. apply list_elem_of_fmap. exists (nm, q). split; [reflexivity|].
    apply elem_of_map_to_list, Hreg.
  - intros q Hne Hq.
    assert (H0 : deref st0 q = deref st q)
      by (apply setBufferLengthImpl_other, Hne).
    rewrite <- H0. apply Hkeep. rewrite H0. exact Hq.
  - intros q. destruct (Hset q) as (-> & -> & ->).
    apply setBufferLengthImpl_settings.
Qed.


(** *** Flushing keeps the settings *)

Lemma flushBuffer_settings logger (w : nat) rt q :
  Defaults.sameSettings (deref (pkg rt) q) (deref (pkg (flushBuffer logger w rt)) q)
  /\ defaultLogger (pkg (flushBuffer logger w rt)) = defaultLogger (pkg rt)
  /\ loggers (pkg (flushBuffer logger w rt)) = loggers (pkg rt).
Proof.
  unfold flushBuffer.
  destruct (negb (bool_decide (buffer (deref (pkg rt) logger) = []))).
  - fields. split; [|split; reflexivity].
    rewrite deref_updLogger_cases.
    destruct (decide _) as [[-> _]|_]; [|apply sameSettings_refl].
    repeat split. cbn [buffer setBuffer]. rewrite Len_New.
    unfold Ring.Len. lia.
  - split; [apply sameSettings_refl | split; reflexivity].
Qed.

Lemma flushBuffers_settings (vals : list nat) (w : nat) rt q :
  let rt' := foldl (fun acc val => flushBuffer val w acc) rt vals in
  Defaults.sameSettings (deref (pkg rt) q) (deref (pkg rt') q)
  /\ defaultLogger (pkg rt') = defaultLogger (pkg rt)
  /\ loggers (pkg rt') = loggers (pkg rt).
Proof.
  cbv zeta. revert rt. induction vals as [|v vals IH]; intros rt; cbn [foldl].
  - split; [apply sameSettings_refl | split; reflexivity].
  - destruct (IH (flushBuffer v w rt)) as (H1 & H2 & H3).
    destruct (flushBuffer_settings v w rt q) as (G1 & G2 & G3).
    split; [eapply sameSettings_trans; eassumption|]. split; congruence.
Qed.

Lemma flushFor_settings logger rt q :
  Defaults.sameSettings (deref (pkg rt) q) (deref (pkg (flushFor logger rt).2) q)
  /\ defaultLogger (pkg (flushFor logger rt).2) = defaultLogger (pkg rt)
  /\ loggers (pkg (flushFor logger rt).2) = loggers (pkg rt).
Proof.
  unfold flushFor, wgNew. cbn [pkg].
  destruct (logger =? defaultLogger (pkg rt))%nat; cbn [snd].
  - unfold flushAllLoggers.
    set (rt1 := wgAdd _ _ _).
    set (vals := (map_to_list _).*2).
    destruct (flushBuffers_settings vals (length (waitGroups rt)) rt1 q)
      as (H1 & H2 & H3). cbv zeta in *.
    set (rt2 := foldl _ rt1 vals) in *.
    destruct (flushBuffer_settings (defaultLogger (pkg rt2))
                (length (waitGroups rt)) rt2 q) as (G1 & G2 & G3).
    split; [eapply sameSettings_trans; eassumption|].
    split; [rewrite G2, H2 | rewrite G3, H3]; reflexivity.
  - apply (flushBuffer_settings logger (length (waitGroups rt))
             (wgAdd (length (waitGroups rt)) 1
                (mkRuntime (pkg rt) (tasks rt) (waitGroups rt ++ [0]) (senders rt)))
             q).
Qed.

(** The moves of the flush goroutines leave the loggers alone. *)
Lemma runSlots_lstore (t0 : Z) (w : nat) (slots : list (option nat)) st :
  lstore (runSlots t0 w slots st).2 = lstore st
  /\ defaultLogger (runSlots t0 w slots st).2 = defaultLogger st
  /\ loggers (runSlots t0 w slots st).2 = loggers st.
Proof.
  revert st. induction slots as [|[rec|] slots IH]; intros st; cbn [runSlots];
    [repeat split| |apply IH].
  cbv zeta. unfold sendIncoming, updRecord. fields.
  destruct (_ <? _)%nat; [|repeat split].
  match goal with |- context [runSlots t0 w slots ?s] =>
    destruct (IH s) as (-> & -> & ->) end.
  repeat split.
Qed.

Lemma runTask_lstore (t : Task) st :
  lstore (runTask t st).2 = lstore st
  /\ defaultLogger (runTask t st).2 = defaultLogger st
  /\ loggers (runTask t st).2 = loggers st.
Proof.
  unfold runTask. destruct (sending t) as [rec|]; [|apply runSlots_lstore].
  unfold sendIncoming. destruct (_ <? _)%nat; [|repeat split].
  match goal with |- context [runSlots ?a ?b ?c ?s] =>
    destruct (runSlots_lstore a b c s) as (-> & -> & ->) end.
  repeat split.
Qed.

Lemma runTasks_lstore rt :
  lstore (pkg (runTasks rt)) = lstore (pkg rt)
  /\ defaultLogger (pkg (runTasks rt)) = defaultLogger (pkg rt)
  /\ loggers (pkg (runTasks rt)) = loggers (pkg rt).
Proof.
  unfold runTasks.
  assert (H : forall ts rt0,
             lstore (pkg (runTasksLoop ts rt0).2) = lstore (pkg rt0)
             /\ defaultLogger (pkg (runTasksLoop ts rt0).2) = defaultLogger (pkg rt0)
             /\ loggers (pkg (runTasksLoop ts rt0).2) = loggers (pkg rt0)).
  { induction ts as [|t ts IH]; intros rt0; cbn [runTasksLoop]; [repeat split|].
    destruct (runTask_lstore t (pkg rt0)) as (H1 & H2 & H3).
    destruct (runTask t (pkg rt0)) as [t' st'] eqn:E. cbn [snd] in *.
    destruct (taskFinished t').
    - destruct (IH (wgAdd (wait t') (-1) (set_pkg st' rt0))) as (-> & -> & ->).
      auto.
    - specialize (IH (set_pkg st' rt0)).
      destruct (runTasksLoop ts (set_pkg st' rt0)) as [rest' rt']. cbn [snd] in *.
      destruct IH as (-> & -> & ->). auto. }
  specialize (H (tasks rt) rt).
  destruct (runTasksLoop (tasks rt) rt) as [ts rt']. exact H.
Qed.

Lemma deref_lstore st st' q : lstore st' = lstore st -> deref st' q = deref st q.
Proof. unfold deref. intros ->. reflexivity. Qed.

(** A flush, whoever starts it, changes no logger's name, level, tag
    levels or buffer length, so that every logger resolves every level and
    tag list after it as before. *)
Theorem flush_keeps_resolution logger rt q l (tags : option (list string)) :
  let st' := pkg (flushFor logger rt).2 in
  Defaults.sameSettings (deref (pkg rt) q) (deref st' q)
  /\ CheckLevel st' q l tags = CheckLevel (pkg rt) q l tags.
Proof.
  cbv zeta. destruct (flushFor_settings logger rt q) as (Hq & Hd & _).
  split; [exact Hq|].
  destruct (flushFor_settings logger rt (defaultLogger (pkg rt)))
    as ((_ & Hdl & Hdt & _) & _).
  destruct Hq as (_ & Hl & Ht & _).
  apply CheckLevel_ext; assumption.
Qed.


(** *** Setting a level and asking for it *)

(** What [SetLogLevel] and [SetTagLevel] leave, as far as resolution goes,
    is the assignment they start with. *)
Lemma assignment_settles logger (f : LoggerImpl -> LoggerImpl) rt q l
    (tags : option (list string)) :
  let st1 := updLogger logger f (pkg rt) in
  let st' := pkg (runTasks (flushFor logger (set_pkg st1 rt)).2) in
  Defaults.sameSettings (deref st1 q) (deref st' q)
  /\ defaultLogger st' = defaultLogger (pkg rt)
  /\ CheckLevel st' q l tags = CheckLevel st1 q l tags.
Proof.
  cbv zeta. set (st1 := updLogger logger f (pkg rt)).
  set (rt1 := (flushFor logger (set_pkg st1 rt)).2).
  destruct (runTasks_lstore rt1) as (Hl & Hd & _).
  assert (Hs : forall p, Defaults.sameSettings (deref st1 p) (deref (pkg (runTasks rt1)) p)).
  { intros p. rewrite (deref_lstore _ _ p Hl).
    apply (flushFor_settings logger (set_pkg st1 rt) p). }
  assert (Hd' : defaultLogger (pkg (runTasks rt1)) = defaultLogger st1).
  { rewrite Hd. apply (flushFor_settings logger (set_pkg st1 rt) 0%nat). }
  split; [apply Hs|]. split; [exact Hd'|].
  destruct (Hs q) as (_ & ? & ? & _).
  destruct (Hs (defaultLogger st1)) as (_ & ? & ? & _).
  apply CheckLevel_ext; assumption.
Qed.

Lemma SetLogLevel_pkg logger (lv : Z) rt :
  pkg (SetLogLevel logger lv rt).2
  = pkg (runTasks (flushFor logger
                     (set_pkg (updLogger logger (setLevel lv) (pkg rt)) rt)).2).
Proof.
  unfold SetLogLevel, SetLogLevelLocked.
  destruct (flushFor _ _) as [w rt1]. reflexivity.
Qed.

Lemma SetTagLevel_pkg logger (tag : string) (lv : Z) rt :
  pkg (SetTagLevel logger tag lv rt).2
  = pkg (runTasks
           (flushFor logger
              (set_pkg (updLogger logger
                          (fun x => setTagLevels
                                      (Some (<[tag := lv]> (default ∅ (tagLevels x)))) x)
                          (pkg rt)) rt)).2).
Proof.
  unfold SetTagLevel, SetTagLevelLocked.
  destruct (flushFor _ _) as [w rt1]. reflexivity.
Qed.

(** A tag of the list that is configured at or below the level, on the
    logger or on the default logger, lets the check pass. *)
Lemma CheckLevel_tag_hit st logger p l (tag : string) (ts : list string)
    (m : gmap string Z) (lv : Z) :
  p = logger \/ p = defaultLogger st ->
  tagLevels (deref st p) = Some m -> m !! tag = Some lv -> lv <= l ->
  tag ∈ ts ->
  CheckLevel st logger l (Some ts) = true.
Proof.
  intros Hp Hm Htag Hle Hin. unfold CheckLevel, checkLevelWithTags.
  assert (Hhit : match tagLevels (deref st p) with
                 | Some m => tagPasses m tag l | None => false end = true).
  { rewrite Hm. unfold tagPasses. rewrite Htag. apply Z.leb_le, Hle. }
  assert (Hnn : notNil (tagLevels (deref st logger))
                || notNil (tagLevels (deref st (defaultLogger st))) = true).
  { destruct Hp as [->| ->]; rewrite Hm; simpl; [reflexivity | apply orb_true_r]. }
  rewrite Hnn. change (default [] (Some ts)) with ts. cbn [notNil andb].
  replace (checkTagLevel st logger l ts) with true; [reflexivity|].
  symmetry. induction Hin as [tag ts|tag other ts Hin IH]; cbn [checkTagLevel].
  - destruct Hp as [->| ->].
    + rewrite Hhit. reflexivity.
    + destruct (match tagLevels (deref st logger) with
                | Some m0 => tagPasses m0 tag l | None => false end) eqn:E;
        [reflexivity|].
      destruct (Nat.eqb_spec logger (defaultLogger st)) as [Heq|Hne].
      * rewrite Heq in E. rewrite Hhit in E. discriminate.
      * rewrite Hhit. reflexivity.
  - rewrite IH by assumption.
    destruct (match tagLevels (deref st logger) with
              | Some m0 => tagPasses m0 other l | None => false end);
      [reflexivity|].
    destruct (_ && _); reflexivity.
Qed.

Lemma CheckLevel_None st logger l :
  CheckLevel st logger l None
  = if negb (level (deref st logger) =? DEFAULT)
    then level (deref st logger) <=? l
    else level (deref st (defaultLogger st)) <=? l.
Proof.
  unfold CheckLevel, checkLevelWithTags. cbn [notNil]. rewrite andb_false_r.
  reflexivity.
Qed.

Lemma CheckLevel_scalar st logger l (tags : option (list string)) :
  (if negb (level (deref st logger) =? DEFAULT)
   then level (deref st logger) <=? l
   else level (deref st (defaultLogger st)) <=? l) = true ->
  CheckLevel st logger l tags = true.
Proof.
  unfold CheckLevel, checkLevelWithTags. intros ->. destruct (_ && _); reflexivity.
Qed.

(** After [SetLogLevel] with a level other than [DEFAULT] the logger
    passes every record at or above that level, whatever its tags, and no
    untagged record below it; the other loggers keep their level and tag
    levels. *)
Theorem SetLogLevel_takes_effect logger (lv : Z) rt :
  (logger < length (lstore (pkg rt)))%nat ->
  lv <> DEFAULT ->
  let st' := pkg (SetLogLevel logger lv rt).2 in
  level (deref st' logger) = lv
  /\ (forall l (tags : option (list string)),
        lv <= l -> CheckLevel st' logger l tags = true)
  /\ (forall l, l < lv -> CheckLevel st' logger l None = false)
  /\ forall q, q <> logger ->
       level (deref st' q) = level (deref (pkg rt) q)
       /\ tagLevels (deref st' q) = tagLevels (deref (pkg rt) q).
Proof.
  intros Hv Hlv. cbv zeta. rewrite SetLogLevel_pkg.
  pose proof (assignment_settles logger (setLevel lv) rt) as Hs. cbv zeta in Hs.
  set (st1 := updLogger logger (setLevel lv) (pkg rt)) in *.
  set (st' := pkg (runTasks _)) in *.
  assert (H1 : level (deref st1 logger) = lv).
  { unfold st1. rewrite PipelineFacts.deref_updLogger by exact Hv. reflexivity. }
  assert (Hne : (lv =? DEFAULT) = false) by (apply Z.eqb_neq, Hlv).
  split; [|split; [|split]].
  - destruct (Hs logger 0 None) as ((_ & -> & _) & _). exact H1.
  - intros l tags Hle. destruct (Hs logger l tags) as (_ & _ & ->).
    apply CheckLevel_scalar. rewrite H1, Hne. apply Z.leb_le, Hle.
  - intros l Hlt. destruct (Hs logger l None) as (_ & _ & ->).
    rewrite CheckLevel_None, H1, Hne. apply Z.leb_gt, Hlt.
  - intros q Hq. destruct (Hs q 0 None) as ((_ & -> & -> & _) & _).
    unfold st1. rewrite PipelineFacts.deref_updLogger_ne by congruence.
    split; reflexivity.
Qed.

(** [SetDefaultLogLevel] moves every logger that stands at [DEFAULT], and
    the default logger itself: afterwards each of them passes an untagged
    record exactly when the record's level is at or above the new level. *)
Theorem SetDefaultLogLevel_moves_DEFAULT_loggers (lv : Z) rt q l :
  (defaultLogger (pkg rt) < length (lstore (pkg rt)))%nat ->
  q = defaultLogger (pkg rt) \/ level (deref (pkg rt) q) = DEFAULT ->
  CheckLevel (pkg (Defaults.SetDefaultLogLevel lv rt).2) q l None = (lv <=? l).
Proof.
  intros Hv Hq. unfold Defaults.SetDefaultLogLevel. rewrite SetLogLevel_pkg.
  set (d := defaultLogger (pkg rt)) in *.
  pose proof (assignment_settles d (setLevel lv) rt) as Hs. cbv zeta in Hs.
  set (st1 := updLogger d (setLevel lv) (pkg rt)) in *.
  destruct (Hs q l None) as (_ & _ & ->).
  assert (H1 : level (deref st1 d) = lv).
  { unfold st1. rewrite PipelineFacts.deref_updLogger by exact Hv. reflexivity. }
  rewrite CheckLevel_None. change (defaultLogger st1) with d. rewrite H1.
  destruct (decide (q = d)) as [->|Hne].
  - rewrite H1. destruct (lv =? DEFAULT); reflexivity.
  - destruct Hq as [?|Hq]; [contradiction|].
    unfold st1 at 1 2. rewrite PipelineFacts.deref_updLogger_ne by congruence.
    rewrite Hq. reflexivity.
Qed.

(** After [SetTagLevel] the logger passes every record that carries the
    tag and is at or above the tag's level.  When the logger is not the
    default logger, every other logger resolves as before: a tag level is
    the logger's own. *)
Theorem SetTagLevel_is_private logger (tag : string) (lv : Z) rt :
  (logger < length (lstore (pkg rt)))%nat ->
  let st' := pkg (SetTagLevel logger tag lv rt).2 in
  (forall l (ts : list string),
     tag ∈ ts -> lv <= l -> CheckLevel st' logger l (Some ts) = true)
  /\ (logger <> defaultLogger (pkg rt) ->
      forall q l (tags : option (list string)),
        q <> logger -> CheckLevel st' q l tags = CheckLevel (pkg rt) q l tags).
Proof.
  intros Hv. cbv zeta. rewrite SetTagLevel_pkg.
  set (f := fun x => setTagLevels (Some (<[tag := lv]> (default ∅ (tagLevels x)))) x).
  pose proof (assignment_settles logger f rt) as Hs. cbv zeta in Hs.
  set (st1 := updLogger logger f (pkg rt)) in *.
  split.
  - intros l ts Hin Hle. destruct (Hs logger l (Some ts)) as (_ & _ & ->).
    apply (CheckLevel_tag_hit st1 logger logger l tag ts
             (<[tag := lv]> (default ∅ (tagLevels (deref (pkg rt) logger)))) lv);
      auto.
    + unfold st1. rewrite PipelineFacts.deref_updLogger by exact Hv. reflexivity.
    + apply lookup_insert_eq.
  - intros Hnd q l tags Hq. destruct (Hs q l tags) as (_ & _ & ->).
    apply CheckLevel_ext; unfold st1; try reflexivity;
      rewrite PipelineFacts.deref_updLogger_ne by congruence; reflexivity.
Qed.

(** [SetDefaultTagLogLevel] reaches every logger: afterwards each logger
    passes every record that carries the tag and is at or above the tag's
    level. *)
Theorem SetDefaultTagLogLevel_reaches_all (tag : string) (lv : Z) rt q l
    (ts : list string) :
  (defaultLogger (pkg rt) < length (lstore (pkg rt)))%nat ->
  tag ∈ ts -> lv <= l ->
  CheckLevel (pkg (Defaults.SetDefaultTagLogLevel tag lv rt).2) q l (Some ts) = true.
Proof.
  intros Hv Hin Hle. unfold Defaults.SetDefaultTagLogLevel. rewrite SetTagLevel_pkg.
  set (d := defaultLogger (pkg rt)) in *.
  set (f := fun x => setTagLevels (Some (<[tag := lv]> (default ∅ (tagLevels x)))) x).
  pose proof (assignment_settles d f rt) as Hs. cbv zeta in Hs.
  set (st1 := updLogger d f (pkg rt)) in *.
  destruct (Hs q l (Some ts)) as (_ & _ & ->).
  apply (CheckLevel_tag_hit st1 q d l tag ts
           (<[tag := lv]> (default ∅ (tagLevels (deref (pkg rt) d)))) lv); auto.
  - unfold st1. rewrite PipelineFacts.deref_updLogger by exact Hv. reflexivity.
  - apply lookup_insert_eq.
Qed.

End Facts.

(** On the state [setup] leaves, the name ["other"] is not registered: the
    logger made for it resolves as the default logger does. *)
Lemma GetLogger_new_follows_default_witness :
  let st := pkg Scenario.setup.2 in
  let res := GetLogger "other" st in
  level (deref res.2 res.1) = DEFAULT
  /\ CheckLevel res.2 res.1 WARN None = CheckLevel st (defaultLogger st) WARN None.
Proof.
  cbv zeta.
  assert (H1 : loggers (pkg Scenario.setup.2) !! "other" = None)
    by (vm_compute; reflexivity).
  assert (H2 : (defaultLogger (pkg Scenario.setup.2)
                < length (lstore (pkg Scenario.setup.2)))%nat)
    by (apply Nat.ltb_lt; vm_compute; reflexivity).
  destruct (GetLogger_new_follows_default "other" _ H1 H2)
    as (_ & _ & Hl & _ & _ & _ & Hc).
  split; [exact Hl | apply Hc].
Defined.

(** [SetLogLevel(WARN)] on the logger of [setup]. *)
Lemma SetLogLevel_takes_effect_witness :
  let st' := pkg (SetLogLevel Scenario.setup.1 WARN Scenario.setup.2).2 in
  CheckLevel st' Scenario.setup.1 ERROR (Some ["net"]) = true
  /\ CheckLevel st' Scenario.setup.1 INFO None = false.
Proof.
  cbv zeta.
  assert (H1 : (Scenario.setup.1 < length (lstore (pkg Scenario.setup.2)))%nat)
    by (apply Nat.ltb_lt; vm_compute; reflexivity).
  assert (H2 : WARN <> DEFAULT) by discriminate.
  destruct (SetLogLevel_takes_effect Scenario.setup.1 WARN Scenario.setup.2 H1 H2)
    as (_ & Hpass & Hfail & _).
  split; [apply Hpass; vm_compute; discriminate | apply Hfail; reflexivity].
Defined.

(** [SetDefaultLogLevel(WARN)] seen from the logger of [setup], which
    stands at [DEFAULT]. *)
Lemma SetDefaultLogLevel_moves_DEFAULT_loggers_witness :
  CheckLevel (pkg (Defaults.SetDefaultLogLevel WARN Scenario.setup.2).2)
    Scenario.setup.1 INFO None = false.
Proof.
  apply (SetDefaultLogLevel_moves_DEFAULT_loggers WARN Scenario.setup.2
           Scenario.setup.1 INFO).
  - apply Nat.ltb_lt. vm_compute. reflexivity.
  - right. vm_compute. reflexivity.
Defined.

(** [SetTagLevel("T", DEBUG)] on the logger of [setup], seen from that
    logger and from the default logger. *)
Lemma SetTagLevel_is_private_witness :
  let rt := Scenario.setup.2 in
  let st' := pkg (SetTagLevel Scenario.setup.1 "T" DEBUG rt).2 in
  CheckLevel st' Scenario.setup.1 DEBUG (Some ["T"]) = true
  /\ CheckLevel st' (defaultLogger (pkg rt)) DEBUG (Some ["T"])
     = CheckLevel (pkg rt) (defaultLogger (pkg rt)) DEBUG (Some ["T"]).
Proof.
  cbv zeta.
  assert (H1 : (Scenario.setup.1 < length (lstore (pkg Scenario.setup.2)))%nat)
    by (apply Nat.ltb_lt; vm_compute; reflexivity).
  destruct (SetTagLevel_is_private Scenario.setup.1 "T" DEBUG Scenario.setup.2 H1)
    as (Hown & Hother).
  split.
  - apply Hown; [apply list_elem_of_singleton; reflexivity | vm_compute; discriminate].
  - apply Hother; vm_compute; discriminate.
Defined.

(** [SetDefaultTagLogLevel("T", DEBUG)] seen from the logger of [setup]. *)
Lemma SetDefaultTagLogLevel_reaches_all_witness :
  CheckLevel (pkg (Defaults.SetDefaultTagLogLevel "T" DEBUG Scenario.setup.2).2)
    Scenario.setup.1 DEBUG (Some ["T"]) = true.
Proof.
  apply (SetDefaultTagLogLevel_reaches_all "T" DEBUG Scenario.setup.2
           Scenario.setup.1 DEBUG ["T"]).
  - apply Nat.ltb_lt. vm_compute. reflexivity.
  - apply list_elem_of_singleton. reflexivity.
  - vm_compute. discriminate.
Defined.

End RegistryFacts.

(** ** The counters and the queue *)

Module TrafficFacts.

Import Logging Traffic.

Section Facts.

Context {A : Type} `{!LogAppender A}.
Implicit Types (st : State A) (rt : Runtime A) (logger rec : nat).

Lemma u64_add_l (x y : Z) : u64 (u64 x + y) = u64 (x + y).
Proof. unfold u64. apply Zplus_mod_idemp_l. Qed.

Lemma u64_idem (x : Z) : u64 (u64 x) = u64 x.
Proof. unfold u64. apply Zmod_mod. Qed.

Lemma counters_eq (c : Z * Z * list nat) st :
  counters st = c ->
  logged st = c.1.1 /\ processed st = c.1.2 /\ incomingChannel st = c.2.
Proof. intros <-. repeat split. Qed.

Lemma counters_updLogger (p : nat) f st : counters (updLogger p f st) = counters st.
Proof. reflexivity. Qed.

Lemma counters_setBufferLengthImpl logger (n : Z) st :
  counters (setBufferLengthImpl logger n st) = counters st.
Proof.
  unfold setBufferLengthImpl. destruct (n =? 0); [|destruct (negb _)]; reflexivity.
Qed.

Lemma counters_SetDefaultBufferLength (n : Z) st :
  counters (SetDefaultBufferLength n st) = counters st.
Proof.
  unfold SetDefaultBufferLength.
  induction ((map_to_list (loggers st)).*2) as [|v vals IH]; cbn [foldr].
  - apply counters_setBufferLengthImpl.
  - destruct (bool_decide _); [|exact IH].
    rewrite counters_setBufferLengthImpl. exact IH.
Qed.

Lemma counters_GetLogger (nm : string) st : counters (GetLogger nm st).2 = counters st.
Proof.
  unfold GetLogger. destruct (loggers st !! nm); [reflexivity|]. cbn [snd].
  unfold SetBufferLength.
  match goal with |- context [setBufferLengthImpl ?p ?n ?s] =>
    pose proof (counters_setBufferLengthImpl p n s) as H end.
  unfold counters in *. fields. exact H.
Qed.

Lemma counters_processLogRecord rec st :
  counters (processLogRecord rec st)
  = (logged st, u64 (processed st + 1), incomingChannel st).
Proof.
  unfold processLogRecord.
  destruct (checkLevelWithTags _ _ _ _).
  - rewrite PipelineFacts.logToAppenders_spec. reflexivity.
  - destruct (_ && _); reflexivity.
Qed.

Lemma flushBuffer_inFlight logger (w : nat) rt :
  counters (pkg (flushBuffer logger w rt)) = counters (pkg rt)
  /\ inFlight (flushBuffer logger w rt) = inFlight rt.
Proof.
  unfold flushBuffer, inFlight.
  destruct (negb _); [|split; reflexivity]. fields.
  rewrite omap_app. cbn [omap list_omap sending]. rewrite app_nil_r.
  split; reflexivity.
Qed.

Lemma flushFor_inFlight logger rt :
  counters (pkg (flushFor logger rt).2) = counters (pkg rt)
  /\ inFlight (flushFor logger rt).2 = inFlight rt.
Proof.
  unfold flushFor, wgNew.
  set (rt0 := mkRuntime (pkg rt) (tasks rt) (waitGroups rt ++ [0]) (senders rt)).
  set (w := length (waitGroups rt)).
  assert (Hfold : forall vals rt1,
            counters (pkg (foldl (fun acc val => flushBuffer val w acc) rt1 vals))
            = counters (pkg rt1)
            /\ inFlight (foldl (fun acc val => flushBuffer val w acc) rt1 vals)
               = inFlight rt1).
  { induction vals as [|v vals IH]; intros rt1; cbn [foldl]; [split; reflexivity|].
    destruct (IH (flushBuffer v w rt1)) as [-> ->]. apply flushBuffer_inFlight. }
  destruct (_ =? _)%nat; cbn [snd].
  - unfold flushAllLoggers.
    match goal with |- context [flushBuffer ?d w ?r] =>
      destruct (flushBuffer_inFlight d w r) as [-> ->] end.
    match goal with |- context [foldl _ ?r ?vals] =>
      destruct (Hfold vals r) as [-> ->] end.
    split; reflexivity.
  - match goal with |- context [flushBuffer ?d w ?r] =>
      destruct (flushBuffer_inFlight d w r) as [-> ->] end.
    split; reflexivity.
Qed.

Lemma omap_sending_insert (ts : list Task) (i : nat) (t t' : Task) :
  ts !! i = Some t ->
  (length (omap sending (<[i := t']> ts))
   + match sending t with Some _ => 1 | None => 0 end
   = length (omap sending ts)
     + match sending t' with Some _ => 1 | None => 0 end)%nat.
Proof.
  revert i. induction ts as [|x ts IH]; intros [|i] Hi; try discriminate.
  - injection Hi as ->. cbn [insert list_insert omap list_omap].
    destruct (sending t), (sending t'); simpl; lia.
  - cbn [lookup list_lookup] in Hi. specialize (IH i Hi).
    change (<[S i := t']> (x :: ts)) with (x :: <[i := t']> ts).
    cbn [omap list_omap]. destruct (sending x); simpl; lia.
Qed.

Lemma omap_sending_delete (ts : list Task) (i : nat) (t : Task) :
  ts !! i = Some t -> sending t = None ->
  omap sending (delete i ts) = omap sending ts.
Proof.
  revert i. induction ts as [|x ts IH]; intros [|i] Hi Hs; try discriminate.
  - injection Hi as ->. cbn [delete list_delete omap list_omap]. rewrite Hs.
    reflexivity.
  - cbn [lookup list_lookup] in Hi.
    change (delete (S i) (x :: ts)) with (x :: delete i ts).
    cbn [omap list_omap]. rewrite (IH i Hi Hs). reflexivity.
Qed.

(** Every transition keeps the balance. *)
Lemma step_balanced rt rt' : step rt rt' -> balanced rt -> balanced rt'.
Proof.
  unfold balanced, inFlight.
  intros Hstep Hb; destruct Hstep as
    [logger level tags text stack rt n st' Hlog
    |logger level tags text stack rt n rec st' Hlog
    |rt pre rec post st' Hsend Hroom
    |rt st' Hcons
    |rt i t t' st' Hi Hmove
    |rt i t Hi Hfin
    |rt logger l|rt logger tag l|rt logger
    |rt logger n|rt n|rt nm|rt f Hf|rt appender|rt errs|rt formatter|rt d Hd].
  - unfold logwithformat in Hlog.
    destruct (_ && _); [injection Hlog as _ <-; exact Hb|].
    cbv zeta in Hlog. unfold NewLogRecord, sendIncoming in Hlog. fields.
    destruct (_ <? _)%nat; [|discriminate]. injection Hlog as _ <-. fields.
    rewrite u64_idem, length_app. cbn [length].
    rewrite <- (u64_add_l (logged (pkg rt))), Hb, u64_add_l. f_equal. lia.
  - unfold logwithformat in Hlog.
    destruct (_ && _); [discriminate|].
    cbv zeta in Hlog. unfold NewLogRecord, sendIncoming in Hlog. fields.
    destruct (_ <? _)%nat; [discriminate|]. injection Hlog as _ _ <-. fields.
    rewrite u64_idem, length_app. cbn [length].
    rewrite <- (u64_add_l (logged (pkg rt))), Hb, u64_add_l. f_equal. lia.
  - unfold sendIncoming in Hroom.
    destruct (_ <? _)%nat; [|discriminate]. injection Hroom as <-. fields.
    rewrite Hb, Hsend, !length_app. cbn [length]. f_equal. lia.
  - unfold consume in Hcons.
    destruct (incomingChannel (pkg rt)) as [|rec rest] eqn:Eq; [discriminate|].
    injection Hcons as <-.
    destruct (counters_eq _ _ (counters_processLogRecord rec
                                 (set_incomingChannel rest (pkg rt))))
      as (Hl & Hp & Hq). cbn [fst snd] in Hl, Hp, Hq.
    unfold set_pkg. cbn [pkg tasks senders]. rewrite Hl, Hp, Hq. fields.
    rewrite u64_add_l, Hb. cbn [length]. f_equal. lia.
  - pose proof (omap_sending_insert (tasks rt) i t t' Hi) as Hlen.
    unfold taskStep in Hmove. destruct (sending t) as [rec|] eqn:Es.
    + unfold sendIncoming in Hmove.
      destruct (_ <? _)%nat; [|discriminate]. injection Hmove as <- <-.
      fields. rewrite ?Es in Hlen. cbn [sending] in Hlen.
      rewrite Hb, length_app. cbn [length]. f_equal. lia.
    + destruct (todo t) as [|[rec|] rest]; [discriminate| |].
      * injection Hmove as <- <-. unfold updRecord. fields.
        rewrite ?Es in Hlen. cbn [sending] in Hlen.
        rewrite u64_idem.
        rewrite <- (u64_add_l (logged (pkg rt))), Hb, u64_add_l. f_equal. lia.
      * injection Hmove as <- <-. fields.
        rewrite ?Es in Hlen. cbn [sending] in Hlen.
        rewrite Hb. f_equal. lia.
  - unfold wgAdd. fields.
    rewrite (omap_sending_delete (tasks rt) i t Hi); [exact Hb|].
    unfold taskFinished in Hfin.
    destruct (todo t); [|discriminate]. destruct (sending t); [discriminate|].
    reflexivity.
  - unfold SetLogLevelLocked.
    match goal with |- context [flushFor logger ?r] =>
      destruct (flushFor_inFlight logger r) as [Hc Hf];
      destruct (counters_eq _ _ Hc) as (Hl & Hp & Hq) end.
    unfold counters, inFlight in Hf. cbn [fst snd] in Hl, Hp, Hq.
    rewrite Hl, Hp, Hf. exact Hb.
  - unfold SetTagLevelLocked.
    match goal with |- context [flushFor logger ?r] =>
      destruct (flushFor_inFlight logger r) as [Hc Hf];
      destruct (counters_eq _ _ Hc) as (Hl & Hp & Hq) end.
    unfold counters, inFlight in Hf. cbn [fst snd] in Hl, Hp, Hq.
    rewrite Hl, Hp, Hf. exact Hb.
  - destruct (flushFor_inFlight logger rt) as [Hc Hf].
    destruct (counters_eq _ _ Hc) as (Hl & Hp & Hq).
    unfold counters, inFlight in Hf. cbn [fst snd] in Hl, Hp, Hq.
    rewrite Hl, Hp, Hf. exact Hb.
  - destruct (counters_eq _ _ (counters_setBufferLengthImpl logger n (pkg rt)))
      as (Hl & Hp & Hq). cbn [fst snd counters] in Hl, Hp, Hq.
    unfold SetBufferLength, set_pkg. cbn [pkg tasks senders].
    rewrite Hl, Hp, Hq. exact Hb.
  - destruct (counters_eq _ _ (counters_SetDefaultBufferLength n (pkg rt)))
      as (Hl & Hp & Hq). cbn [fst snd counters] in Hl, Hp, Hq.
    unfold SetBufferLength, set_pkg. cbn [pkg tasks senders].
    rewrite Hl, Hp, Hq. exact Hb.
  - destruct (counters_eq _ _ (counters_GetLogger nm (pkg rt)))
      as (Hl & Hp & Hq). cbn [fst snd counters] in Hl, Hp, Hq.
    unfold SetBufferLength, set_pkg. cbn [pkg tasks senders].
    rewrite Hl, Hp, Hq. exact Hb.
  - repeat (apply elem_of_cons in Hf as [->|Hf]); [exact Hb..|].
    apply elem_of_nil in Hf. contradiction.
  - exact Hb.
  - exact Hb.
  - exact Hb.
  - exact Hb.
Qed.


Lemma rtc_balanced rt rt' : rtc step rt rt' -> balanced rt -> balanced rt'.
Proof.
  intros Hrun Hb. induction Hrun as [|x y z Hxy _ IH]; [exact Hb|].
  apply IH. eapply step_balanced; eassumption.
Qed.

(** In balance and with fewer than 2^64 records on their way, the
    counters are equal exactly when no record is on its way. *)
Lemma balanced_idle rt :
  balanced rt ->
  Z.of_nat (inFlight rt) < 2 ^ 64 ->
  u64 (processed (pkg rt)) = u64 (logged (pkg rt)) <-> inFlight rt = 0%nat.
Proof.
  unfold balanced. intros Hb Hsmall.
  set (F := Z.of_nat (inFlight rt)) in *.
  assert (HF : 0 <= F) by (unfold F; lia).
  split.
  - intros Heq. rewrite Hb in Heq. unfold u64 in Heq.
    assert (Hz : F mod 2 ^ 64 = 0).
    { replace F with ((processed (pkg rt) + F) - processed (pkg rt)) at 1 by lia.
      rewrite Zminus_mod, <- Heq, Z.sub_diag. reflexivity. }
    rewrite Z.mod_small in Hz by lia. unfold F in Hz. lia.
  - intros H0. rewrite Hb. unfold F. rewrite H0, Z.add_0_r. reflexivity.
Qed.

(** The counters account for every record on its way.  Whatever the
    clients, the consumer and the flush goroutines do, [logged] stays
    ahead of [processed] by the number of records that are queued or held
    by a blocked sender; so with fewer than 2^64 of them, the test of
    [WaitForIncoming], [processed == logged], holds exactly when no record
    is on its way. *)
Theorem counters_account_for_records_in_flight rt rt' :
  rtc step rt rt' ->
  balanced rt ->
  balanced rt'
  /\ (Z.of_nat (inFlight rt') < 2 ^ 64 ->
      (u64 (processed (pkg rt')) = u64 (logged (pkg rt')) <-> inFlight rt' = 0%nat)).
Proof.
  intros Hrun Hb.
  pose proof (rtc_balanced rt rt' Hrun Hb) as Hb'.
  split; [exact Hb'|]. intros Hsmall. apply balanced_idle; assumption.
Qed.

(** *** The queue is bounded *)

Lemma step_queue_bound rt rt' :
  step rt rt' ->
  (length (incomingChannel (pkg rt)) <= incomingCap)%nat ->
  (length (incomingChannel (pkg rt')) <= incomingCap)%nat.
Proof.
  intros Hstep Hb; destruct Hstep as
    [logger level tags text stack rt n st' Hlog
    |logger level tags text stack rt n rec st' Hlog
    |rt pre rec post st' Hsend Hroom
    |rt st' Hcons
    |rt i t t' st' Hi Hmove
    |rt i t Hi Hfin
    |rt logger l|rt logger tag l|rt logger
    |rt logger n|rt n|rt nm|rt f Hf|rt appender|rt errs|rt formatter|rt d Hd].
  - unfold logwithformat in Hlog.
    destruct (_ && _); [injection Hlog as _ <-; exact Hb|].
    cbv zeta in Hlog. unfold NewLogRecord, sendIncoming in Hlog. fields.
    destruct (Nat.ltb_spec (length (incomingChannel (pkg rt))) incomingCap)
      as [Hlt|]; [|discriminate].
    injection Hlog as _ <-. fields. rewrite length_app. cbn [length].
    revert Hlt. generalize incomingCap. intros; lia.
  - unfold logwithformat in Hlog.
    destruct (_ && _); [discriminate|].
    cbv zeta in Hlog. unfold NewLogRecord, sendIncoming in Hlog. fields.
    destruct (_ <? _)%nat; [discriminate|]. injection Hlog as _ _ <-. exact Hb.
  - unfold sendIncoming in Hroom.
    destruct (Nat.ltb_spec (length (incomingChannel (pkg rt))) incomingCap)
      as [Hlt|]; [|discriminate].
    injection Hroom as <-. fields. rewrite length_app. cbn [length].
    revert Hlt. generalize incomingCap. intros; lia.
  - unfold consume in Hcons.
    destruct (incomingChannel (pkg rt)) as [|rec rest] eqn:Eq; [discriminate|].
    injection Hcons as <-.
    destruct (counters_eq _ _ (counters_processLogRecord rec
                                 (set_incomingChannel rest (pkg rt))))
      as (_ & _ & Hq). cbn [fst snd] in Hq.
    unfold set_pkg. cbn [pkg]. rewrite Hq. fields. cbn [length] in Hb.
    revert Hb. generalize incomingCap. intros; lia.
  - unfold taskStep in Hmove. destruct (sending t) as [rec|].
    + unfold sendIncoming in Hmove.
      destruct (Nat.ltb_spec (length (incomingChannel (pkg rt))) incomingCap)
        as [Hlt|]; [|discriminate].
      injection Hmove as <- <-. fields. rewrite length_app. cbn [length].
      revert Hlt. generalize incomingCap. intros; lia.
    + destruct (todo t) as [|[rec|] rest]; [discriminate| |];
        injection Hmove as <- <-; exact Hb.
  - exact Hb.
  - unfold SetLogLevelLocked.
    match goal with |- context [flushFor logger ?r] =>
      destruct (counters_eq _ _ (proj1 (flushFor_inFlight logger r)))
        as (_ & _ & Hq) end.
    cbn [fst snd] in Hq. rewrite Hq. exact Hb.
  - unfold SetTagLevelLocked.
    match goal with |- context [flushFor logger ?r] =>
      destruct (counters_eq _ _ (proj1 (flushFor_inFlight logger r)))
        as (_ & _ & Hq) end.
    cbn [fst snd] in Hq. rewrite Hq. exact Hb.
  - destruct (counters_eq _ _ (proj1 (flushFor_inFlight logger rt)))
      as (_ & _ & Hq).
    cbn [fst snd] in Hq. rewrite Hq. exact Hb.
  - destruct (counters_eq _ _ (counters_setBufferLengthImpl logger n (pkg rt)))
      as (_ & _ & Hq). cbn [fst snd counters] in Hq.
    unfold SetBufferLength, set_pkg. cbn [pkg]. rewrite Hq. exact Hb.
  - destruct (counters_eq _ _ (counters_SetDefaultBufferLength n (pkg rt)))
      as (_ & _ & Hq). cbn [fst snd counters] in Hq.
    unfold set_pkg. cbn [pkg]. rewrite Hq. exact Hb.
  - destruct (counters_eq _ _ (counters_GetLogger nm (pkg rt)))
      as (_ & _ & Hq). cbn [fst snd counters] in Hq.
    unfold set_pkg. cbn [pkg]. rewrite Hq. exact Hb.
  - repeat (apply elem_of_cons in Hf as [->|Hf]); [exact Hb..|].
    apply elem_of_nil in Hf. contradiction.
  - exact Hb.
  - exact Hb.
  - exact Hb.
  - exact Hb.
Qed.

(** The queue never holds more than its 2048 records, and a producer is
    held in its send only when the queue is full: records are kept back,
    not dropped. *)
Theorem queue_stays_within_capacity rt rt' :
  rtc step rt rt' ->
  (length (incomingChannel (pkg rt)) <= incomingCap)%nat ->
  (length (incomingChannel (pkg rt')) <= incomingCap)%nat
  /\ forall logger (level : Z) (tags : option (list string)) (text stack : string)
       (n : Z) rec st',
       logwithformat logger level tags text stack (pkg rt') = Blocked n rec st' ->
       length (incomingChannel (pkg rt')) = incomingCap
       /\ incomingChannel st' = incomingChannel (pkg rt').
Proof.
  intros Hrun Hb.
  assert (Hb' : (length (incomingChannel (pkg rt')) <= incomingCap)%nat).
  { induction Hrun as [|x y z Hxy _ IH]; [exact Hb|].
    apply IH. eapply step_queue_bound; eassumption. }
  split; [exact Hb'|].
  intros logger level tags text stack n rec st' Hlog.
  unfold logwithformat in Hlog. destruct (_ && _); [discriminate|].
  cbv zeta in Hlog. unfold NewLogRecord, sendIncoming in Hlog. fields.
  destruct (Nat.ltb_spec (length (incomingChannel (pkg rt'))) incomingCap)
    as [|Hge]; [discriminate|].
  injection Hlog as _ _ <-. fields. split; [|reflexivity].
  revert Hb' Hge. generalize incomingCap. intros; lia.
Qed.

(** *** The consumer alone *)

Lemma drainLoop_spec (q : list nat) st :
  incomingChannel st = q ->
  let st' := drainLoop (length q) st in
  incomingChannel st' = []
  /\ logged st' = logged st
  /\ u64 (processed st') = u64 (processed st + Z.of_nat (length q))
  /\ rstore st' = rstore st
  /\ forall rt, pkg rt = st -> rtc step rt (set_pkg st' rt).
Proof.
  revert st. induction q as [|rec rest IH]; intros st Hq; cbv zeta.
  - cbn [length drainLoop]. rewrite Z.add_0_r.
    repeat split; try assumption.
    intros rt <-. destruct rt; apply rtc_refl.
  - cbn [length drainLoop].
    assert (Hcons : consume st
                    = Some (processLogRecord rec (set_incomingChannel rest st)))
      by (unfold consume; rewrite Hq; reflexivity).
    rewrite Hcons.
    set (st1 := processLogRecord rec (set_incomingChannel rest st)).
    destruct (counters_eq _ _ (counters_processLogRecord rec
                                 (set_incomingChannel rest st)))
      as (Hl & Hp & Hc). cbn [fst snd] in Hl, Hp, Hc. fold st1 in Hl, Hp, Hc.
    destruct (IH st1 Hc) as (H1 & H2 & H3 & H4 & H5). cbv zeta in *.
    split; [exact H1|]. split; [rewrite H2; exact Hl|].
    split; [|split].
    + rewrite H3, Hp. change (processed (set_incomingChannel rest st))
        with (processed st). rewrite u64_add_l. f_equal. lia.
    + rewrite H4. unfold st1. rewrite FlushFacts.rstore_processLogRecord.
      reflexivity.
    + intros rt Hrt. eapply rtc_l.
      * apply (step_consume rt st1). rewrite Hrt. exact Hcons.
      * apply (H5 (set_pkg st1 rt)). reflexivity.
Qed.

(** Left alone with the queue, the consumer takes the queued records one
    by one until none is left: it counts each of them as processed, makes
    none, and changes no record.  This is a run of the system. *)
Theorem drain_consumes_the_queue rt :
  let rt' := WaitForIncoming rt in
  incomingChannel (pkg rt') = []
  /\ logged (pkg rt') = logged (pkg rt)
  /\ u64 (processed (pkg rt'))
     = u64 (processed (pkg rt) + Z.of_nat (length (incomingChannel (pkg rt))))
  /\ rstore (pkg rt') = rstore (pkg rt)
  /\ rtc step rt rt'.
Proof.
  cbv zeta. unfold WaitForIncoming, drain.
  destruct (drainLoop_spec (incomingChannel (pkg rt)) (pkg rt) eq_refl)
    as (H1 & H2 & H3 & H4 & H5).
  cbv zeta in *. repeat split; try assumption. apply H5. reflexivity.
Qed.

Lemma drain_run rt :
  rtc step rt (WaitForIncoming rt)
  /\ incomingChannel (pkg (WaitForIncoming rt)) = [].
Proof.
  unfold WaitForIncoming, drain.
  destruct (drainLoop_spec (incomingChannel (pkg rt)) (pkg rt) eq_refl)
    as (H1 & _ & _ & _ & H5).
  cbv zeta in *. split; [apply H5; reflexivity | exact H1].
Qed.

(** With no sender blocked and the counters in balance, the consumer's
    run over the queue ends where [WaitForIncoming] returns: nothing is
    queued and [processed] equals [logged]. *)
Theorem WaitForIncoming_meets_its_test rt :
  balanced rt ->
  senders rt = [] ->
  omap sending (tasks rt) = [] ->
  let rt' := WaitForIncoming rt in
  inFlight rt' = 0%nat
  /\ u64 (processed (pkg rt')) = u64 (logged (pkg rt')).
Proof.
  intros Hb Hs Ht. cbv zeta.
  destruct (drain_run rt) as (Hrun & Hq).
  assert (H0 : inFlight (WaitForIncoming rt) = 0%nat).
  { unfold inFlight. rewrite Hq. unfold WaitForIncoming. fields.
    rewrite Hs, Ht. reflexivity. }
  split; [exact H0|].
  apply balanced_idle; [eapply rtc_balanced; eassumption | | exact H0].
  rewrite H0. reflexivity.
Qed.

End Facts.

(** The first move of the consumer in [TestBuffer]: four records were
    queued, three are left, and the counters are in balance. *)
Lemma counters_account_for_records_in_flight_witness :
  let rt := (Scenario.queued 10).2 in
  let rt' := set_pkg (default (pkg rt) (consume (pkg rt))) rt in
  balanced rt' /\ inFlight rt' = 3%nat.
Proof.
  cbv zeta.
  assert (Hb : balanced (Scenario.queued 10).2) by (vm_compute; reflexivity).
  assert (Hs : step (Scenario.queued 10).2
                 (set_pkg (default (pkg (Scenario.queued 10).2)
                             (consume (pkg (Scenario.queued 10).2)))
                    (Scenario.queued 10).2)).
  { destruct (consume (pkg (Scenario.queued 10).2)) as [st'|] eqn:E.
    - apply step_consume. exact E.
    - vm_compute in E. discriminate E. }
  split.
  - apply (counters_account_for_records_in_flight _ _ (rtc_once _ _ Hs) Hb).
  - vm_compute. reflexivity.
Defined.

(** [TestBuffer] at its first [WaitForIncoming]. *)
Lemma WaitForIncoming_meets_its_test_witness :
  let rt' := WaitForIncoming (Scenario.queued 10).2 in
  inFlight rt' = 0%nat /\ u64 (processed (pkg rt')) = u64 (logged (pkg rt')).
Proof.
  apply WaitForIncoming_meets_its_test; vm_compute; reflexivity.
Defined.

(** In [TestBuffer], with four records queued. *)
Lemma queue_stays_within_capacity_witness :
  (length (incomingChannel (pkg (WaitForIncoming (Scenario.queued 10).2)))
   <= incomingCap)%nat.
Proof.
  apply (queue_stays_within_capacity (Scenario.queued 10).2).
  - apply drain_run.
  - apply Nat.leb_le. vm_compute. reflexivity.
Defined.

End TrafficFacts.

(** ** The buffer of a logger *)

Module BufferFacts.

Import Logging.

Section Facts.

Context {A : Type} `{!LogAppender A}.
Implicit Types (st : State A) (rt : Runtime A) (logger rec p : nat).

(** A record that fails the check, above [VERBOSE], on a logger that has
    a buffer: it goes into the ring and nothing else happens but the
    count. *)
Lemma processLogRecord_suppressed st rec :
  let r := record st rec in
  checkLevelWithTags st (Logger r) (Level r) (Tags r) = false ->
  VERBOSE < Level r ->
  buffer (deref st (Logger r)) <> [] ->
  processLogRecord rec st
  = set_processed (u64 (processed st + 1))
      (updLogger (Logger r) (fun x => setBuffer (bufferRecord rec (buffer x)) x) st).
Proof.
  cbv zeta. intros Hc Hl Hb. unfold processLogRecord. rewrite Hc.
  rewrite bool_decide_eq_false_2 by exact Hb.
  replace (VERBOSE <? Level (record st rec)) with true
    by (symmetry; apply Z.ltb_lt, Hl).
  reflexivity.
Qed.

Lemma omap_drop_buffer (n k : nat) (recs : list nat) :
  omap id (drop k (replicate n (@None nat) ++ (Some <$> recs))) = drop (k - n) recs.
Proof.
  rewrite drop_app, length_replicate, omap_app.
  replace (omap id (drop k (replicate n (@None nat)))) with (@nil nat).
  - simpl. generalize (k - n)%nat as j. clear.
    induction recs as [|x recs IH]; intros [|j]; simpl; try reflexivity.
    + f_equal. apply (IH 0%nat).
    + apply IH.
  - clear. revert k. induction n as [|n IH]; intros [|k]; simpl; try reflexivity.
    + apply (IH 0%nat).
    + apply IH.
Qed.

(** The buffer keeps the newest records.  When the consumer takes, one
    after the other, records of a logger that fail its check and are
    above [VERBOSE], and the logger has a buffer of [n] empty slots, then
    afterwards the buffer still has [n] slots and holds the last [n] of
    these records, the oldest in the slot after the current one; no
    appender has seen any of them. *)
Theorem buffer_keeps_the_newest_records st p (n : nat) (recs : list nat) :
  (0 < n)%nat ->
  buffer (deref st p) = replicate n None ->
  Forall (fun rec =>
            let r := record st rec in
            Logger r = p /\ VERBOSE < Level r
            /\ CheckLevel st p (Level r) (Tags r) = false) recs ->
  let st' := foldl (fun s rec => processLogRecord rec s) st recs in
  Ring.Len (buffer (deref st' p)) = Z.of_nat n
  /\ omap id (Ring.Next (buffer (deref st' p))) = drop (length recs - n) recs
  /\ appenders st' = appenders st
  /\ u64 (processed st') = u64 (processed st + Z.of_nat (length recs)).
Proof.
  intros Hn Hb Hall. cbv zeta.
  assert (Hgen : forall (done : list nat) st0,
            rstore st0 = rstore st ->
            defaultLogger st0 = defaultLogger st ->
            (forall q, level (deref st0 q) = level (deref st q)
                       /\ tagLevels (deref st0 q) = tagLevels (deref st q)) ->
            buffer (deref st0 p)
            = foldl (fun b rec => bufferRecord rec b) (replicate n None) done ->
            let st' := foldl (fun s rec => processLogRecord rec s) st0 recs in
            buffer (deref st' p)
            = foldl (fun b rec => bufferRecord rec b) (replicate n None) (done ++ recs)
            /\ appenders st' = appenders st0
            /\ u64 (processed st') = u64 (processed st0 + Z.of_nat (length recs))).
  { clear Hb. induction Hall as [|rec recs (Hlog & Hlev & Hchk) _ IH];
      intros done st0 Hr Hd Hs Hb0; cbv zeta in *.
    - rewrite app_nil_r, Z.add_0_r. auto.
    - cbn [foldl].
      assert (Hrec : record st0 rec = record st rec)
        by (unfold record; rewrite Hr; reflexivity).
      assert (Hlen : length (buffer (deref st0 p)) = n).
      { rewrite Hb0. clear. induction done as [|x done IH] using rev_ind.
        - apply length_replicate.
        - rewrite foldl_app. simpl.
          rewrite PipelineFacts.bufferRecord_length. exact IH. }
      assert (Hne : buffer (deref st0 p) <> [])
        by (intros E; rewrite E in Hlen; simpl in Hlen; lia).
      pose proof (PipelineFacts.buffer_valid _ _ Hne) as Hv.
      rewrite processLogRecord_suppressed; rewrite ?Hrec, ?Hlog; try assumption.
      2:{ rewrite <- Hchk. apply RegistryFacts.CheckLevel_ext; try apply Hs.
          exact Hd. }
      set (st1 := set_processed _ _).
      assert (Hd1 : forall q, deref st1 q
                = deref (updLogger p (fun x => setBuffer (bufferRecord rec (buffer x)) x)
                           st0) q) by reflexivity.
      destruct (IH (done ++ [rec]) st1) as (H1 & H2 & H3).
      + exact Hr.
      + exact Hd.
      + intros q. rewrite Hd1, RegistryFacts.deref_updLogger_cases.
        destruct (decide _); apply Hs.
      + rewrite Hd1, PipelineFacts.deref_updLogger by exact Hv.
        cbn [buffer setBuffer]. rewrite foldl_app, Hb0. reflexivity.
      + rewrite H1, H2, H3, <- app_assoc. split; [reflexivity|].
        split; [reflexivity|]. unfold st1. fields. cbn [length].
        rewrite TrafficFacts.u64_add_l. f_equal. lia. }
  destruct (Hgen [] st eq_refl eq_refl (fun q => conj eq_refl eq_refl) Hb)
    as (H1 & H2 & H3).
  cbv zeta in *. cbn [app] in H1.
  destruct (PipelineFacts.buffer_keeps_newest n recs Hn) as [Hlen Hnext].
  cbv zeta in *.
  replace (Ring.New (Z.of_nat n)) with (replicate n (@None nat)) in Hlen, Hnext.
  2:{ unfold Ring.New. destruct (Z.leb_spec (Z.of_nat n) 0); [lia|].
      rewrite Nat2Z.id. reflexivity. }
  rewrite H1. split; [unfold Ring.Len; rewrite Hlen; reflexivity|].
  split; [|split; assumption].
  rewrite Hnext. apply omap_drop_buffer.
Qed.

End Facts.

(** [TestBufferLength]: a buffer of two slots and three records
    suppressed; the ring holds the last two. *)
Lemma buffer_keeps_the_newest_records_witness :
  let logger := (Scenario.queued 2).1 in
  let st := processLogRecord 0 (pkg (Scenario.queued 2).2) in
  let st' := foldl (fun s rec => processLogRecord rec s) st [1; 2; 3]%nat in
  omap id (Ring.Next (buffer (deref st' logger))) = [2; 3]%nat.
Proof.
  cbv zeta.
  apply (buffer_keeps_the_newest_records
           (processLogRecord 0 (pkg (Scenario.queued 2).2))
           (Scenario.queued 2).1 2 [1; 2; 3]%nat).
  - lia.
  - vm_compute. reflexivity.
  - repeat constructor; vm_compute; reflexivity.
Defined.

(** A ring of two slots after three records: [Do] visits the newest,
    then the one before it. *)
Lemma Do_order_witness :
  omap id (Ring.Do (foldl (fun b rec => bufferRecord rec b) (Ring.New 2)
                      [1; 2; 3]%nat))
  = [3; 2]%nat.
Proof. apply (FlushFacts.Do_order 2 [1; 2]%nat 3%nat). lia. Defined.

End BufferFacts.

(** ** Level and format names *)

Module NameFacts.

Import LevelNames.

Section Facts.

Context (ToLower : string -> string).
Context (ToLower_ASCII : forall s, isASCII s = true -> ToLower s = lowerASCII s).

(** Round trip of the level names: [LevelFromString] reads back every
    name that [String] writes.  Every level from [VERBOSE] to [PANIC]
    comes back as it is; [DEFAULT], which [String] writes as ["VERBOSE"],
    comes back as [VERBOSE], and a level above [PANIC] as [PANIC]. *)
Theorem LevelFromString_reads_String (level : Z) :
  LevelFromString ToLower (String level) = Z.max VERBOSE (Z.min level PANIC).
Proof.
  unfold String, LevelFromString.
  unfold PANIC, ERROR, WARN, INFO, DEBUG, VERBOSE, DEFAULT.
  repeat (match goal with
          | |- context [?a <=? level] => destruct (Z.leb_spec a level)
          end);
    rewrite ToLower_ASCII by reflexivity; vm_compute lowerASCII;
    cbv [bool_decide decide_rel]; simpl; lia.
Qed.


(** [FormatFromString] always names one of the four formats, reads each of
    their names back as it is, and selects the formatter that
    [GetFormatter] gives for the name in lower case: a name that is not
    known gets the simple format either way. *)
Theorem FormatFromString_names_a_format (FormatStampMilli FormatStamp : Z -> string)
    (formatName : string) :
  let f := FormatFromString ToLower formatName in
  f ∈ [FULL; SIMPLE; MINIMALTAGGED; MINIMAL]
  /\ FormatFromString ToLower f = f
  /\ GetFormatter FormatStampMilli FormatStamp f
     = GetFormatter FormatStampMilli FormatStamp (ToLower formatName).
Proof.
  cbv zeta.
  assert (Hfix : Forall (fun f => FormatFromString ToLower f = f)
                   [FULL; SIMPLE; MINIMALTAGGED; MINIMAL]).
  { repeat constructor; unfold FormatFromString;
      rewrite ToLower_ASCII by reflexivity; reflexivity. }
  assert (Hin : FormatFromString ToLower formatName
                ∈ [FULL; SIMPLE; MINIMALTAGGED; MINIMAL]).
  { unfold FormatFromString.
    repeat (destruct (bool_decide _); [set_solver|]). set_solver. }
  split; [exact Hin|]. split.
  - rewrite Forall_forall in Hfix. apply Hfix, Hin.
  - unfold FormatFromString, GetFormatter, FULL, SIMPLE, MINIMALTAGGED, MINIMAL.
    repeat (destruct (bool_decide (ToLower formatName = _)); [reflexivity|]).
    reflexivity.
Qed.

End Facts.

(** With [strings.ToLower] on ASCII strings: the name of [WARN]. *)
Lemma LevelFromString_reads_String_witness :
  LevelFromString lowerASCII (String WARN) = WARN.
Proof.
  exact (LevelFromString_reads_String lowerASCII (fun s _ => eq_refl) WARN).
Defined.

(** The same for the format name ["Full"]. *)
Lemma FormatFromString_names_a_format_witness :
  FormatFromString lowerASCII (FormatFromString lowerASCII "Full")
  = FormatFromString lowerASCII "Full".
Proof.
  apply (FormatFromString_names_a_format lowerASCII (fun s _ => eq_refl)
           (fun _ => "") (fun _ => "") "Full").
Defined.

End NameFacts.

(** ** The generic appenders *)

Module AppenderFacts.

Import Logging Appenders Writers.

Lemma i64_add_l (x y : Z) : i64 (i64 x + y) = i64 (x + y).
Proof.
  unfold i64.
  replace ((x + 2 ^ 63) mod 2 ^ 64 - 2 ^ 63 + y + 2 ^ 63)
    with ((x + 2 ^ 63) mod 2 ^ 64 + y) by lia.
  rewrite Zplus_mod_idemp_l. do 2 f_equal. lia.
Qed.

Lemma logAll_cons {A} `{!LogAppender A} (f : LogFormatter) (r : LogRecord)
    (records : list LogRecord) (a : A) :
  logAll f (r :: records) a = logAll f records (Log f r a).1.
Proof. reflexivity. Qed.

(** A memory appender keeps, in the order they came, the formatted
    records whose level is at or above its own, and nothing of the
    others; it never returns an error. *)
Theorem MemoryAppender_keeps_what_passes (f : LogFormatter) (b : BaseLogAppender)
    (msgs : list string) (records : list LogRecord) :
  logAll f records (MemoryAppender b msgs)
  = MemoryAppender b
      (msgs ++ (format b f <$> filter (fun r => level b <= Level r) records))
  /\ Forall (fun r => (Log f r (MemoryAppender b msgs)).2 = None) records.
Proof.
  split.
  - revert msgs. induction records as [|r records IH]; intros msgs.
    + cbn. rewrite app_nil_r. reflexivity.
    + rewrite logAll_cons, filter_cons.
      assert (Hlog : (Log f r (MemoryAppender b msgs)).1
                     = if decide (level b <= Level r)
                       then MemoryAppender b (msgs ++ [format b f r])
                       else MemoryAppender b msgs).
      { cbn [Log Appender_LogAppender appenderLog]. unfold checkLevel.
        destruct (Z.leb_spec (level b) (Level r)) as [Hle|Hgt]; cbn [negb fst].
        - rewrite decide_True by exact Hle. reflexivity.
        - rewrite decide_False by lia. reflexivity. }
      rewrite Hlog. destruct (decide (level b <= Level r)).
      * rewrite IH, fmap_cons, <- app_assoc. reflexivity.
      * apply IH.
  - apply Forall_forall. intros r _.
    cbn [Log Appender_LogAppender appenderLog].
    destruct (negb _); reflexivity.
Qed.

(** The null appender and the error appender count every record they are
    handed, whatever level they are set to: their [Log] does not look at
    the level.  The count is an [int64]. *)
Theorem counting_appenders_ignore_their_level (f : LogFormatter) (l : Z)
    (records : list LogRecord) (a : Appender) :
  (exists b c, a = NullAppender b c \/ a = ErrorAppender b c) ->
  - 2 ^ 63 <= Count a < 2 ^ 63 ->
  Count (logAll f records (SetLevel l a))
  = i64 (Count a + Z.of_nat (length records)).
Proof.
  intros (b & c & Ha) Hc.
  assert (Hgen : forall b c, i64 c = c ->
            Count (logAll f records (NullAppender b c))
            = i64 (c + Z.of_nat (length records))
            /\ Count (logAll f records (ErrorAppender b c))
               = i64 (c + Z.of_nat (length records))).
  { clear. induction records as [|r records IH]; intros b c Hc.
    - cbn [logAll foldl Count length]. rewrite Z.add_0_r, Hc. split; reflexivity.
    - rewrite !logAll_cons. cbn [Log Appender_LogAppender appenderLog fst].
      destruct (IH b (i64 (c + 1))) as [-> ->].
      { rewrite <- (Z.add_0_r (i64 (c + 1))) at 1. rewrite i64_add_l.
        f_equal. lia. }
      rewrite !i64_add_l. cbn [length]. split; f_equal; lia. }
  assert (Hi : i64 (Count a) = Count a).
  { unfold i64. rewrite Z.mod_small; lia. }
  destruct Ha as [-> | ->]; cbn [SetLevel Appender_LogAppender withBase Count] in *;
    apply Hgen, Hi.
Qed.

(** The writer appender on a writer that keeps what it is given and does
    not fail: it writes, in the order they came, each record whose level
    is at or above its own as its formatted text and a newline, nothing
    of the others, and returns no error. *)
Theorem WriterAppender_writes_lines (f : LogFormatter) (b : BaseLogAppender)
    (out : string) (records : list LogRecord) :
  logAll f records (mkWriterAppender b (Some (mkPipe out [])))
  = mkWriterAppender b
      (Some (mkPipe
               (foldl (fun acc r => (acc +:+ format b f r) +:+ newline) out
                  (filter (fun r => level b <= Level r) records)) [])).
Proof.
  revert out. induction records as [|r records IH]; intros out; [reflexivity|].
  rewrite logAll_cons, filter_cons.
  cbn [Log WriterAppender_LogAppender]. unfold writerLog, checkLevel.
  cbn [wbase writer Write Pipe_Writer failures written].
  destruct (Z.leb_spec (level b) (Level r)) as [Hle|Hgt]; cbn [negb fst].
  - rewrite decide_True by exact Hle. rewrite IH. reflexivity.
  - rewrite decide_False by lia. apply IH.
Qed.

(** The writer appender returns the error of its second [Write], that of
    the newline.  When the writer fails on the formatted record and then
    takes the newline, [Log] returns no error: the failure is lost. *)
Theorem WriterAppender_loses_the_first_error {W} `{!Writer W} (f : LogFormatter)
    (record : LogRecord) (appender : WriterAppender W) (w w1 w2 : W)
    (e : string) :
  checkLevel (wbase appender) (Level record) = true ->
  writer appender = Some w ->
  Write (format (wbase appender) f record) w = (w1, Some e) ->
  Write newline w1 = (w2, None) ->
  Log f record appender = (mkWriterAppender (wbase appender) (Some w2), None).
Proof.
  intros Hl Hw H1 H2. cbn [Log WriterAppender_LogAppender]. unfold writerLog.
  rewrite Hl, Hw. cbn [negb]. rewrite H1, H2. reflexivity.
Qed.

(** One call on a writer that fails once: the record is not written, the
    newline is, and [Log] returns no error. *)
Lemma WriterAppender_loses_the_first_error_witness :
  Log minimalFormat (mkRecord 0 0 ERROR None "lost" 0%nat)
    (NewWriterAppender (Some (mkPipe "" [Some "disk full"])))
  = (NewWriterAppender (Some (mkPipe newline [])), None).
Proof.
  apply (WriterAppender_loses_the_first_error minimalFormat
           (mkRecord 0 0 ERROR None "lost" 0%nat)
           (NewWriterAppender (Some (mkPipe "" [Some "disk full"])))
           (mkPipe "" [Some "disk full"]) (mkPipe "" []) (mkPipe newline [])
           "disk full"); reflexivity.
Defined.

(** A null appender set to [PANIC] and handed two records below it. *)
Lemma counting_appenders_ignore_their_level_witness :
  Count (logAll minimalFormat
           [mkRecord 0 0 DEBUG None "a" 0%nat; mkRecord 1 1 INFO None "b" 0%nat]
           (SetLevel PANIC NewNullAppender)) = 2.
Proof.
  apply (counting_appenders_ignore_their_level minimalFormat PANIC
           [mkRecord 0 0 DEBUG None "a" 0%nat; mkRecord 1 1 INFO None "b" 0%nat]
           NewNullAppender).
  - exists (mkBase DEFAULT None), 0. left. reflexivity.
  - split; vm_compute; [discriminate | reflexivity].
Defined.

End AppenderFacts.

(** ** Rotation and writes of the rolling file appender *)

Module RotationFacts.

Import Rolling Rotation.

(** *** File names *)

Lemma length_append (s t : string) :
  String.length (s +:+ t) = (String.length s + String.length t)%nat.
Proof. induction s as [|c s IH]; simpl; [reflexivity|]. rewrite IH. reflexivity. Qed.

Lemma append_inv_tail (t s1 s2 : string) : s1 +:+ t = s2 +:+ t -> s1 = s2.
Proof.
  revert s2. induction s1 as [|c s1 IH]; intros [|c' s2] H.
  - reflexivity.
  - apply (f_equal String.length) in H.
    rewrite !length_append in H. simpl in H. lia.
  - apply (f_equal String.length) in H.
    rewrite !length_append in H. simpl in H. lia.
  - simpl in H. injection H as -> H. f_equal. apply IH, H.
Qed.

(** The names of the generations are pairwise different. *)
Lemma fileAt_inj (a : RollingFileAppender) (i j : Z) :
  fileAt a i = fileAt a j -> i = j.
Proof.
  unfold fileAt, currentFileName, generationName.
  destruct (Z.eqb_spec i 0) as [->|Hi], (Z.eqb_spec j 0) as [->|Hj];
    intros H; try reflexivity.
  - apply String.app_inj, String.app_inj in H.
    apply (f_equal String.length) in H. rewrite !length_append in H.
    simpl in H. lia.
  - apply String.app_inj, String.app_inj in H.
    apply (f_equal String.length) in H. rewrite !length_append in H.
    simpl in H. lia.
  - apply String.app_inj, String.app_inj in H.
    apply append_inv_tail in H. apply pretty_Z_inj in H. exact H.
Qed.


(** *** The renames on the directory *)

Lemma shiftDir_other (a : RollingFileAppender) (n : nat) (d : gmap string nat)
    (path : string) :
  (forall i : nat, (i <= n)%nat -> path <> fileAt a (Z.of_nat i)) ->
  shiftDir a n d !! path = d !! path.
Proof.
  revert d. induction n as [|k IH]; intros d Hp; [reflexivity|].
  cbn [shiftDir]. cbv zeta.
  assert (Hk : path <> fileAt a (Z.of_nat k)) by (apply Hp; lia).
  assert (Hk1 : path <> fileAt a (Z.of_nat k + 1)).
  { replace (Z.of_nat k + 1) with (Z.of_nat (S k)) by lia. apply Hp. lia. }
  destruct (d !! fileAt a (Z.of_nat k)) as [x|].
  - rewrite IH by (intros i Hi; apply Hp; lia).
    rewrite lookup_insert_ne, lookup_delete_ne by congruence. reflexivity.
  - apply IH. intros i Hi. apply Hp. lia.
Qed.

Lemma shiftDir_above (a : RollingFileAppender) (n j : nat) (d : gmap string nat) :
  (n < j)%nat -> shiftDir a n d !! fileAt a (Z.of_nat j) = d !! fileAt a (Z.of_nat j).
Proof.
  intros Hj. apply shiftDir_other. intros i Hi E. apply fileAt_inj in E. lia.
Qed.

Lemma fileAt_ne (a : RollingFileAppender) (i j : Z) :
  i <> j -> fileAt a i <> fileAt a j.
Proof. intros Hne E. apply fileAt_inj in E. contradiction. Qed.

Lemma shiftDir_top (a : RollingFileAppender) (n : nat) (d : gmap string nat) :
  shiftDir a (S n) d !! fileAt a (Z.of_nat (S n))
  = match d !! fileAt a (Z.of_nat n) with
    | Some x => Some x
    | None => d !! fileAt a (Z.of_nat (S n))
    end.
Proof.
  cbn [shiftDir]. cbv zeta.
  replace (Z.of_nat n + 1) with (Z.of_nat (S n)) by lia.
  destruct (d !! fileAt a (Z.of_nat n)) as [x|]; rewrite shiftDir_above by lia;
    [apply lookup_insert_eq | reflexivity].
Qed.

Lemma shiftDir_zero (a : RollingFileAppender) (n : nat) (d : gmap string nat) :
  shiftDir a (S n) d !! fileAt a 0 = None.
Proof.
  revert d. induction n as [|k IH]; intros d.
  - cbn [shiftDir]. cbv zeta. change (Z.of_nat 0) with 0.
    destruct (d !! fileAt a 0) as [x|] eqn:E; [|exact E].
    rewrite lookup_insert_ne by (apply fileAt_ne; lia). apply lookup_delete_eq.
  - change (shiftDir a (S (S k)) d)
      with (match d !! fileAt a (Z.of_nat (S k)) with
            | None => shiftDir a (S k) d
            | Some x => shiftDir a (S k)
                          (<[fileAt a (Z.of_nat (S k) + 1) := x]>
                             (delete (fileAt a (Z.of_nat (S k))) d))
            end).
    destruct (d !! fileAt a (Z.of_nat (S k))); apply IH.
Qed.

Lemma shiftDir_mid (a : RollingFileAppender) (n i : nat) (d : gmap string nat) :
  (1 <= i <= n)%nat ->
  shiftDir a (S n) d !! fileAt a (Z.of_nat i) = d !! fileAt a (Z.of_nat i - 1).
Proof.
  revert d. induction n as [|k IH]; intros d Hi; [lia|].
  change (shiftDir a (S (S k)) d)
    with (match d !! fileAt a (Z.of_nat (S k)) with
          | None => shiftDir a (S k) d
          | Some x => shiftDir a (S k)
                        (<[fileAt a (Z.of_nat (S k) + 1) := x]>
                           (delete (fileAt a (Z.of_nat (S k))) d))
          end).
  destruct (decide (i = S k)) as [->|Hne].
  - replace (Z.of_nat (S k) - 1) with (Z.of_nat k) by lia.
    destruct (d !! fileAt a (Z.of_nat (S k))) as [x|] eqn:E;
      rewrite shiftDir_top.
    + rewrite !lookup_insert_ne by (apply fileAt_ne; lia).
      rewrite lookup_delete_ne by (apply fileAt_ne; lia).
      rewrite lookup_delete_eq. destruct (d !! fileAt a (Z.of_nat k)); reflexivity.
    + rewrite E. destruct (d !! fileAt a (Z.of_nat k)); reflexivity.
  - destruct (d !! fileAt a (Z.of_nat (S k))) as [x|] eqn:E;
      rewrite IH by lia; [|reflexivity].
    rewrite lookup_insert_ne by (apply fileAt_ne; lia).
    apply lookup_delete_ne. apply fileAt_ne. lia.
Qed.

(** *** The loop on a disk where every path can be examined *)

Lemma sys_Stat_healthy (path : string) (w : World) :
  denied (fs w) = ∅ ->
  sys (Stat path) w
  = (mkWorld (self w) (logCall (SysStat path) (fs w)),
     match dir (fs w) !! path with
     | None => inl ENOENT
     | Some i => inr (Z.of_nat (String.length (inodes (fs w) !!! i)))
     end).
Proof.
  intros Hd. unfold sys. rewrite RollingFacts.Stat_spec, Hd.
  rewrite bool_decide_eq_false_2 by set_solver. reflexivity.
Qed.

Lemma sys_Rename_healthy (old new : string) (x : nat) (w : World) :
  denied (fs w) = ∅ ->
  dir (fs w) !! old = Some x ->
  sys (Rename old new) w
  = (mkWorld (self w)
       (set_dir (<[new := x]> (delete old (dir (fs w))))
          (logCall (SysRename old new) (fs w))), None).
Proof.
  intros Hd Hx. unfold sys, Rename. cbn [logCall denied dir].
  rewrite Hd, !bool_decide_eq_false_2 by set_solver. cbn [orb].
  rewrite Hx. reflexivity.
Qed.

Lemma i16_small (x : Z) : - 2 ^ 15 <= x < 2 ^ 15 -> i16 x = x.
Proof. intros H. unfold i16. rewrite Z.mod_small; lia. Qed.

Lemma rollLoop_step_healthy (k : nat) (w : World) :
  denied (fs w) = ∅ ->
  Z.of_nat (S k) <= 32767 ->
  let file := fileAt (self w) (Z.of_nat k) in
  let next := fileAt (self w) (Z.of_nat k + 1) in
  rollLoop (S k) w
  = match dir (fs w) !! file with
    | None => rollLoop k (mkWorld (self w) (logCall (SysStat file) (fs w)))
    | Some x =>
        rollLoop k
          (mkWorld (self w)
             (set_dir (<[next := x]> (delete file (dir (fs w))))
                (logCall (SysRename file next)
                   (logCall (SysStat next) (logCall (SysStat file) (fs w))))))
    end.
Proof.
  intros Hd Hn. cbv zeta. cbn [rollLoop]. cbv zeta.
  unfold bind at 1, get. cbv beta iota.
  rewrite i16_small by lia.
  replace (generationName (self w) (Z.of_nat k + 1))
    with (fileAt (self w) (Z.of_nat k + 1))
    by (unfold fileAt; destruct (Z.eqb_spec (Z.of_nat k + 1) 0); [lia | reflexivity]).
  change (if Z.of_nat k =? 0 then currentFileName (self w)
          else generationName (self w) (Z.of_nat k))
    with (fileAt (self w) (Z.of_nat k)).
  generalize (fileAt (self w) (Z.of_nat k + 1)) as next.
  generalize (fileAt (self w) (Z.of_nat k)) as file. intros file next.
  unfold bind at 1. rewrite sys_Stat_healthy by exact Hd.
  destruct (dir (fs w) !! file) as [x|] eqn:E; [|reflexivity].
  unfold bind at 1. rewrite sys_Stat_healthy by exact Hd. cbn [self fs].
  set (w2 := mkWorld (self w) (logCall (SysStat next) _)).
  assert (Hd2 : denied (fs w2) = ∅) by exact Hd.
  assert (E2 : dir (fs w2) !! file = Some x) by exact E.
  destruct (dir (logCall _ _) !! next) as [y|]; cbn [IsNotExist negb];
    unfold bind at 1, ret at 1; unfold bind at 1;
    rewrite (sys_Rename_healthy file next x w2 Hd2 E2); reflexivity.
Qed.

Lemma rollLoop_healthy (n : nat) (w : World) :
  denied (fs w) = ∅ ->
  Z.of_nat n <= 32767 ->
  let res := rollLoop n w in
  res.2 = None /\ self res.1 = self w /\ denied (fs res.1) = ∅
  /\ inodes (fs res.1) = inodes (fs w)
  /\ dir (fs res.1) = shiftDir (self w) n (dir (fs w)).
Proof.
  revert w. induction n as [|k IH]; intros w Hd Hn; cbv zeta.
  - repeat split. exact Hd.
  - rewrite rollLoop_step_healthy by assumption. cbv zeta. cbn [shiftDir]. cbv zeta.
    destruct (dir (fs w) !! fileAt (self w) (Z.of_nat k)) as [x|];
      match goal with |- context [rollLoop k ?w3] =>
        destruct (IH w3) as (H1 & H2 & H3 & H4 & H5); [exact Hd | lia |] end;
      rewrite H1, H2, H3, H4, H5; repeat split.
Qed.


(** [Close] leaves an appender without writer and without file; the other
    fields stay. *)
Lemma Close_self (w : World) :
  self (Close w).1
  = mkRolling (base (self w)) (prefix (self w)) (suffix (self w))
      (maxFileSize (self w)) (maxFiles (self w)) (firstTime (self w)) None None.
Proof.
  destruct w as [[b pre suf msz mf ft cf [[file held]|]] f];
    unfold Close, Flush, bind, get, ret, modify, sys_; simpl;
    try destruct (bool_decide (held = "")); destruct cf as [h|]; reflexivity.
Qed.

Lemma Close_inodes (w : World) :
  match currentWriter (self w) with
  | Some (_, held) => held = ""
  | None => True
  end ->
  inodes (fs (Close w).1) = inodes (fs w).
Proof.
  destruct w as [[b pre suf msz mf ft cf [[file held]|]] f];
    unfold Close, Flush, bind, get, ret, modify, sys_; simpl; intros H;
    try (subst held; simpl); destruct cf as [h|]; reflexivity.
Qed.

Lemma fileAt_ext (a b : RollingFileAppender) (i : Z) :
  prefix b = prefix a -> suffix b = suffix a -> fileAt b i = fileAt a i.
Proof.
  intros Hp Hs. unfold fileAt, currentFileName, generationName.
  rewrite Hp, Hs. reflexivity.
Qed.

Lemma shiftDir_ext (a b : RollingFileAppender) (n : nat) (d : gmap string nat) :
  prefix b = prefix a -> suffix b = suffix a -> shiftDir b n d = shiftDir a n d.
Proof.
  intros Hp Hs. revert d. induction n as [|k IH]; intros d; [reflexivity|].
  cbn [shiftDir]. cbv zeta. rewrite !(fileAt_ext a b) by assumption.
  destruct (d !! fileAt a (Z.of_nat k)); apply IH.
Qed.

(** [Roll] on a disk where every path can be examined. *)
Lemma Roll_healthy (w : World) :
  1 <= maxFiles (self w) <= 32767 ->
  denied (fs w) = ∅ ->
  let res := Roll w in
  res.2 = None
  /\ self res.1
     = mkRolling (base (self w)) (prefix (self w)) (suffix (self w))
         (maxFileSize (self w)) (maxFiles (self w)) false None None
  /\ denied (fs res.1) = ∅
  /\ inodes (fs res.1) = inodes (fs (Close w).1)
  /\ dir (fs res.1)
     = shiftDir (self w) (Z.to_nat (maxFiles (self w) - 1)) (dir (fs w)).
Proof.
  intros Hm Hd. cbv zeta.
  unfold Roll. rewrite !RollingFacts.bind_run. unfold modify, get. cbn [fst snd].
  destruct (RollingFacts.Close_calls w) as (Hden & Hdir & _).
  rewrite Close_self. unfold set_firstTime.
  cbn [self base prefix suffix maxFileSize maxFiles firstTime currentFile
       currentWriter].
  rewrite i16_small by lia.
  replace (Z.to_nat (maxFiles (self w) - 2 + 1))
    with (Z.to_nat (maxFiles (self w) - 1)) by lia.
  set (n := Z.to_nat (maxFiles (self w) - 1)).
  set (a1 := mkRolling _ _ _ _ _ false None None).
  set (w1 := mkWorld a1 (fs (Close w).1)).
  destruct (rollLoop_healthy n w1) as (H1 & H2 & H3 & H4 & H5).
  { unfold w1. cbn [fs]. rewrite Hden. exact Hd. }
  { unfold n. lia. }
  cbv zeta in *. rewrite H1, H2, H3, H4, H5.
  change (dir (fs w1)) with (dir (fs (Close w).1)). rewrite Hdir.
  rewrite (shiftDir_ext (self w) (self w1)) by reflexivity.
  repeat split; reflexivity.
Qed.

(** Rotation shifts every generation up by one.  With at least two files
    kept and every path open to [os.Stat], [Roll] returns no error and
    leaves the directory as follows: the current file name is free;
    generation [i] names what generation [i - 1] named; the last
    generation names what the one before it named or, if there was none,
    what it named before; every other path names what it named.  The
    appender is left closed, with [firstTime] off. *)
Theorem Roll_shifts_the_generations (w : World) :
  2 <= maxFiles (self w) <= 32767 ->
  denied (fs w) = ∅ ->
  let a := self w in
  let m := maxFiles a in
  let d := dir (fs w) in
  let res := Roll w in
  let d' := dir (fs res.1) in
  res.2 = None
  /\ d' !! fileAt a 0 = None
  /\ (forall i, 1 <= i < m - 1 -> d' !! fileAt a i = d !! fileAt a (i - 1))
  /\ d' !! fileAt a (m - 1)
     = match d !! fileAt a (m - 2) with
       | Some x => Some x
       | None => d !! fileAt a (m - 1)
       end
  /\ (forall path, (forall i, 0 <= i < m -> path <> fileAt a i) ->
        d' !! path = d !! path)
  /\ firstTime (self res.1) = false
  /\ currentFile (self res.1) = None /\ currentWriter (self res.1) = None.
Proof.
  intros Hm Hd. cbv zeta.
  destruct (Roll_healthy w) as (H1 & H2 & _ & _ & H5); [lia | exact Hd |].
  cbv zeta in *. rewrite H1, H2, H5.
  replace (Z.to_nat (maxFiles (self w) - 1))
    with (S (Z.to_nat (maxFiles (self w) - 2))) by lia.
  set (n := Z.to_nat (maxFiles (self w) - 2)).
  split; [reflexivity|]. split; [|split; [|split; [|split]]].
  - apply shiftDir_zero.
  - intros i Hi. replace i with (Z.of_nat (Z.to_nat i)) by lia.
    apply shiftDir_mid. unfold n. lia.
  - replace (maxFiles (self w) - 1) with (Z.of_nat (S n)) by (unfold n; lia).
    replace (maxFiles (self w) - 2) with (Z.of_nat n) by (unfold n; lia).
    apply shiftDir_top.
  - intros path Hp. apply shiftDir_other. intros i Hi.
    apply Hp. unfold n in Hi. lia.
  - repeat split.
Qed.

(** *** Writing a record *)

Lemma Log_split (f : Logging.LogFormatter) (rec : Logging.LogRecord) (w : World) :
  Log f rec w
  = if negb (Appenders.checkLevel (base (self w)) (Logging.Level rec))
    then (w, None)
    else bind needsRoll
           (fun roll =>
              bind (if roll
                    then bind Roll (fun err => match err with
                                               | Some e => ret (Some e)
                                               | None => open
                                               end)
                    else ret None)
                (fun err => match err with
                            | Some e => ret (Some e)
                            | None => logTail f rec
                            end)) w.
Proof.
  unfold Log. unfold bind at 1, get. cbv beta iota.
  destruct (negb _); reflexivity.
Qed.

Lemma append_newline_ne (s : string) : s +:+ Logging.newline <> "".
Proof.
  intros E. apply (f_equal String.length) in E.
  rewrite length_append in E. simpl in E. lia.
Qed.

(** The writes of [Log] on an open writer that holds nothing. *)
Lemma writeLine_spec (f : Logging.LogFormatter) (rec : Logging.LogRecord)
    (w : World) (h : nat) :
  currentWriter (self w) = Some (h, "") ->
  writeLine f rec w
  = (mkWorld (set_currentWriter (Some (h, "")) (self w))
       (WriteFile h (Appenders.format (base (self w)) f rec +:+ Logging.newline)
          (fs w)), None).
Proof.
  intros Hw. unfold writeLine. unfold bind at 1, get. cbv beta iota. rewrite Hw.
  unfold Write, Flush, bind, modify, get, ret, sys_. cbn [self fs].
  unfold set_currentWriter at 1 2. cbn [currentWriter]. rewrite Hw.
  cbn [fmap option_fmap option_map prod_map fst snd id].
  rewrite bool_decide_eq_false_2 by apply append_newline_ne.
  reflexivity.
Qed.

Lemma logTail_written (f : Logging.LogFormatter) (rec : Logging.LogRecord)
    (w : World) (wr : nat * string) :
  currentWriter (self w) = Some wr -> logTail f rec w = writeLine f rec w.
Proof.
  intros Hw. unfold logTail. unfold bind at 1, get. cbv beta iota. rewrite Hw.
  reflexivity.
Qed.

Lemma logTail_opens (f : Logging.LogFormatter) (rec : Logging.LogRecord)
    (w : World) :
  currentWriter (self w) = None -> (open w).2 = None ->
  logTail f rec w = writeLine f rec (open w).1.
Proof.
  intros Hw Ho. unfold logTail. unfold bind at 1, get. cbv beta iota. rewrite Hw.
  cbn [Logging.notNil negb]. rewrite RollingFacts.bind_run, Ho. reflexivity.
Qed.

(** [open] on a closed appender: the current file is opened, and made
    first when it is not there. *)
Lemma open_eq (w : World) :
  currentWriter (self w) = None ->
  denied (fs w) = ∅ ->
  let name := currentFileName (self w) in
  let h := default (length (inodes (fs w))) (dir (fs w) !! name) in
  open w
  = (mkWorld (set_currentWriter (Some (h, "")) (set_currentFile (Some h) (self w)))
       match dir (fs w) !! name with
       | Some _ => logCall (SysOpen name) (fs w)
       | None =>
           set_dir (<[name := h]> (dir (fs w)))
             (set_inodes (inodes (fs w) ++ [""])
                (logCall (SysCreate name) (logCall (SysOpen name) (fs w))))
       end, None).
Proof.
  intros Hw Hd. cbv zeta. unfold open. unfold bind at 1, get. cbv beta iota.
  rewrite Hw. cbn [Logging.notNil].
  unfold bind, sys, OpenFile, Create, modify, ret.
  cbn [logCall denied dir inodes fs self]. rewrite Hd.
  rewrite !bool_decide_eq_false_2 by set_solver.
  destruct (dir (fs w) !! currentFileName (self w)) as [i|] eqn:E;
    cbn [IsNotExist negb default fst snd fs self denied dir inodes].
  - reflexivity.
  - change (denied (logCall ?c ?f)) with (denied f).
    change (dir (logCall ?c ?f)) with (dir f).
    rewrite Hd, !bool_decide_eq_false_2 by set_solver. rewrite E. reflexivity.
Qed.

Lemma open_healthy (w : World) :
  currentWriter (self w) = None ->
  denied (fs w) = ∅ ->
  let res := open w in
  let name := currentFileName (self w) in
  let h := default (length (inodes (fs w))) (dir (fs w) !! name) in
  res.2 = None
  /\ self res.1 = set_currentWriter (Some (h, "")) (set_currentFile (Some h) (self w))
  /\ denied (fs res.1) = ∅
  /\ dir (fs res.1) = <[name := h]> (dir (fs w))
  /\ inodes (fs res.1)
     = match dir (fs w) !! name with
       | Some _ => inodes (fs w)
       | None => inodes (fs w) ++ [""]
       end.
Proof.
  intros Hw Hd. cbv zeta. rewrite (open_eq w Hw Hd). cbv zeta. cbn [fst snd self fs].
  destruct (dir (fs w) !! currentFileName (self w)) as [i|] eqn:E;
    cbn [default logCall set_dir set_inodes dir inodes denied].
  - rewrite insert_id by exact E. repeat split. exact Hd.
  - repeat split. exact Hd.
Qed.

Lemma needsRoll_frame (w : World) :
  self (needsRoll w).1 = self w /\ denied (fs (needsRoll w).1) = denied (fs w)
  /\ dir (fs (needsRoll w).1) = dir (fs w)
  /\ inodes (fs (needsRoll w).1) = inodes (fs w).
Proof.
  unfold needsRoll, bind, get, sys, ret.
  destruct (maxFiles (self w) =? 1).
  - rewrite RollingFacts.Stat_spec.
    destruct (bool_decide _); [|destruct (dir (fs w) !! _)]; repeat split.
  - destruct (firstTime (self w)); [repeat split|].
    rewrite RollingFacts.Stat_spec.
    destruct (bool_decide _); [|destruct (dir (fs w) !! _)]; cbn [fst snd];
      try destruct (_ <=? _); repeat split.
Qed.

(** On a disk where every path can be examined, [needsRoll] is false only
    with the current file there, and with a single file kept it is true
    only with the current file missing. *)
Lemma needsRoll_healthy (w : World) :
  denied (fs w) = ∅ ->
  ((needsRoll w).2 = false -> is_Some (dir (fs w) !! currentFileName (self w)))
  /\ ((needsRoll w).2 = true -> maxFiles (self w) = 1 ->
      dir (fs w) !! currentFileName (self w) = None).
Proof.
  intros Hd. rewrite RollingFacts.needsRoll_result. unfold unreadable, missing.
  rewrite Hd. split.
  - destruct (maxFiles (self w) =? 1).
    + intros H. apply bool_decide_eq_false in H.
      destruct (dir (fs w) !! currentFileName (self w)); [eauto|].
      exfalso. apply H. split; [set_solver | reflexivity].
    + intros H. apply orb_false_iff in H as [H _].
      apply orb_false_iff in H as [_ H]. apply bool_decide_eq_false in H.
      destruct (dir (fs w) !! currentFileName (self w)); [eauto|].
      exfalso. apply H. right. reflexivity.
  - intros H Hm. rewrite Hm in H. change (1 =? 1) with true in H. cbv iota in H.
    apply bool_decide_eq_true in H. apply H.
Qed.

Lemma shiftDir_values (a : RollingFileAppender) (n : nat) (d : gmap string nat)
    (path : string) (i : nat) :
  shiftDir a n d !! path = Some i -> exists path', d !! path' = Some i.
Proof.
  revert d. induction n as [|k IH]; intros d H; [eauto|].
  cbn [shiftDir] in H. cbv zeta in H.
  destruct (d !! fileAt a (Z.of_nat k)) as [x|] eqn:E; [|apply IH, H].
  apply IH in H as (p & Hp).
  destruct (decide (p = fileAt a (Z.of_nat k + 1))) as [->|Hne].
  - rewrite lookup_insert_eq in Hp. injection Hp as <-. eauto.
  - rewrite lookup_insert_ne in Hp by congruence.
    apply lookup_delete_Some in Hp as [_ Hp]. eauto.
Qed.

Lemma writeLine_healthy (f : Logging.LogFormatter) (rec : Logging.LogRecord)
    (w : World) (h : nat) :
  currentWriter (self w) = Some (h, "") ->
  (h < length (inodes (fs w)))%nat ->
  (forall path i, dir (fs w) !! path = Some i -> (i < length (inodes (fs w)))%nat) ->
  let res := writeLine f rec w in
  let line := Appenders.format (base (self w)) f rec +:+ Logging.newline in
  res.2 = None /\ consistent res.1 /\ denied (fs res.1) = denied (fs w)
  /\ sameSetup (self w) (self res.1)
  /\ currentWriter (self res.1) = Some (h, "")
  /\ inodes (fs res.1) !!! h = inodes (fs w) !!! h +:+ line
  /\ (forall j, j <> h -> inodes (fs res.1) !!! j = inodes (fs w) !!! j)
  /\ dir (fs res.1) = dir (fs w).
Proof.
  intros Hw Hh Hdisk. cbv zeta. rewrite (writeLine_spec f rec w h Hw).
  cbn [fst snd self fs]. unfold WriteFile, consistent.
  cbn [logCall set_inodes dir inodes denied fs self set_currentWriter currentWriter].
  rewrite length_alter.
  split; [reflexivity|]. split; [split; [exact Hdisk | split; [reflexivity | exact Hh]]|].
  split; [reflexivity|]. split; [repeat split|]. split; [reflexivity|].
  split; [rewrite list_lookup_total_alter_eq by exact Hh; reflexivity|].
  split; [|reflexivity].
  intros j Hj. apply list_lookup_total_alter_ne. congruence.
Qed.

(** [Log] writes one line.  On a disk where every path can be examined, a
    record that passes the appender's level is written as its formatted
    text and a newline at the end of the file the appender writes to, and
    [Log] returns no error.  When the file had to be rolled, that file is
    a new, empty current file; otherwise it is the file the writer was
    open on or, without writer, the current file as it is.  No other file
    changes. *)
Theorem Log_appends_one_line (f : Logging.LogFormatter) (rec : Logging.LogRecord)
    (w : World) :
  1 <= maxFiles (self w) <= 32767 ->
  denied (fs w) = ∅ ->
  Appenders.checkLevel (base (self w)) (Logging.Level rec) = true ->
  consistent w ->
  let res := Log f rec w in
  let line := Appenders.format (base (self w)) f rec +:+ Logging.newline in
  let rolled := (needsRoll w).2 in
  res.2 = None /\ consistent res.1 /\ denied (fs res.1) = ∅
  /\ sameSetup (self w) (self res.1)
  /\ exists h,
       currentWriter (self res.1) = Some (h, "")
       /\ inodes (fs res.1) !!! h
          = (if rolled then "" else inodes (fs w) !!! h) +:+ line
       /\ (forall j, j <> h -> (j < length (inodes (fs w)))%nat ->
             inodes (fs res.1) !!! j = inodes (fs w) !!! j)
       /\ (rolled = false -> forall h0 held,
             currentWriter (self w) = Some (h0, held) -> h = h0)
       /\ (rolled = true \/ currentWriter (self w) = None ->
           dir (fs res.1) !! currentFileName (self w) = Some h).
Proof.
  intros Hm Hd Hl [Hdisk Hwr]. cbv zeta.
  destruct (needsRoll_frame w) as (Fs & Fden & Fdir & Fi).
  destruct (needsRoll_healthy w Hd) as [Hfalse Htrue].
  rewrite Log_split, Hl. cbn [negb]. rewrite RollingFacts.bind_run.
  set (w0 := (needsRoll w).1) in *.
  assert (Hd0 : denied (fs w0) = ∅) by (rewrite Fden; exact Hd).
  destruct (needsRoll w).2 eqn:Eroll.
  - (* the file is rolled and a new current file made *)
    clear Hfalse.
    destruct (Roll_healthy w0) as (R1 & R2 & R3 & R4 & R5);
      [rewrite Fs; exact Hm | exact Hd0 |].
    cbv zeta in *. rewrite Fs, Fdir in *.
    assert (R4' : inodes (fs (Roll w0).1) = inodes (fs w)).
    { rewrite R4, Close_inodes, Fi; [reflexivity|]. rewrite Fs.
      destruct (currentWriter (self w)) as [[h0 held]|]; [apply Hwr | exact I]. }
    set (w1 := (Roll w0).1) in *.
    assert (Hw1 : currentWriter (self w1) = None) by (rewrite R2; reflexivity).
    assert (Hname : currentFileName (self w1) = currentFileName (self w))
      by (rewrite R2; reflexivity).
    assert (Hfree : dir (fs w1) !! currentFileName (self w) = None).
    { rewrite R5. destruct (decide (maxFiles (self w) = 1)) as [E1|E1].
      - rewrite E1. simpl. apply Htrue; [reflexivity | exact E1].
      - replace (Z.to_nat (maxFiles (self w) - 1))
          with (S (Z.to_nat (maxFiles (self w) - 2))) by lia.
        apply (shiftDir_zero (self w)). }
    destruct (open_healthy w1 Hw1 R3) as (O1 & O2 & O3 & O4 & O5).
    cbv zeta in *. rewrite Hname, Hfree, R4' in *. cbn [default] in *.
    set (h := length (inodes (fs w))) in *.
    assert (Heq : bind (bind Roll (fun err => match err with
                                             | Some e => ret (Some e)
                                             | None => open
                                             end))
                    (fun err => match err with
                                | Some e => ret (Some e)
                                | None => logTail f rec
                                end) w0
                  = writeLine f rec (open w1).1).
    { rewrite RollingFacts.bind_run, (RollingFacts.bind_run Roll), R1.
      fold w1. rewrite O1. apply (logTail_written f rec _ (h, "")).
      rewrite O2. reflexivity. }
    rewrite Heq. set (w2 := (open w1).1) in *.
    assert (W2 : currentWriter (self w2) = Some (h, ""))
      by (rewrite O2; reflexivity).
    assert (Hh2 : (h < length (inodes (fs w2)))%nat)
      by (rewrite O5, length_app; simpl; lia).
    assert (Hdisk2 : forall path i, dir (fs w2) !! path = Some i ->
                       (i < length (inodes (fs w2)))%nat).
    { intros path i Hp. rewrite O5, length_app. simpl. rewrite O4 in Hp.
      destruct (decide (path = currentFileName (self w))) as [->|Hne].
      - rewrite lookup_insert_eq in Hp. injection Hp as <-. fold h. lia.
      - rewrite lookup_insert_ne in Hp by congruence. rewrite R5 in Hp.
        apply shiftDir_values in Hp as (p' & Hp').
        apply Hdisk in Hp'. fold h. lia. }
    destruct (writeLine_healthy f rec w2 h W2 Hh2 Hdisk2)
      as (L1 & L2 & L3 & L4 & L5 & L6 & L7 & L8). cbv zeta in *.
    assert (Hbase : base (self w2) = base (self w))
      by (rewrite O2, R2; reflexivity).
    split; [exact L1|]. split; [exact L2|]. split; [rewrite L3; exact O3|].
    split.
    { destruct L4 as (? & ? & ? & ? & ?). unfold sameSetup.
      rewrite O2, R2 in *. cbn in *. auto. }
    exists h. split; [exact L5|]. split.
    { rewrite L6, Hbase, O5. unfold h.
      rewrite list_lookup_total_alt, lookup_app_r, Nat.sub_diag by lia.
      reflexivity. }
    split.
    { intros j Hj Hlt. rewrite (L7 j Hj), O5. apply lookup_total_app_l, Hlt. }
    split; [discriminate|].
    intros _. rewrite L8, O4. apply lookup_insert_eq.
  - (* no roll *)
    clear Htrue. destruct (Hfalse eq_refl) as [i Hi].
    change (bind (ret None) ?k w0) with (k None w0). cbv beta iota.
    assert (Hdisk0 : forall path j, dir (fs w0) !! path = Some j ->
                       (j < length (inodes (fs w0)))%nat)
      by (rewrite Fdir, Fi; exact Hdisk).
    destruct (currentWriter (self w)) as [[h0 held]|] eqn:Ew.
    + destruct Hwr as [-> Hh0].
      assert (W0 : currentWriter (self w0) = Some (h0, ""))
        by (rewrite Fs; exact Ew).
      rewrite (logTail_written f rec w0 _ W0).
      destruct (writeLine_healthy f rec w0 h0 W0) as
        (L1 & L2 & L3 & L4 & L5 & L6 & L7 & L8);
        [rewrite Fi; exact Hh0 | exact Hdisk0 |].
      cbv zeta in *. rewrite Fs, Fi in *.
      split; [exact L1|]. split; [exact L2|]. split; [rewrite L3; exact Hd0|].
      split; [exact L4|].
      exists h0. split; [exact L5|]. split; [exact L6|].
      split; [intros j Hj _; apply L7, Hj|].
      split; [intros _ h1 held1 [= <- _]; reflexivity|].
      intros [H|H]; discriminate H.
    + assert (W0 : currentWriter (self w0) = None) by (rewrite Fs; exact Ew).
      destruct (open_healthy w0 W0 Hd0) as (O1 & O2 & O3 & O4 & O5).
      cbv zeta in *. rewrite (logTail_opens f rec w0 W0 O1).
      rewrite Fs, Fdir, ?Fi, Hi in O2, O4, O5. cbn [default] in O2, O4.
      set (w2 := (open w0).1) in *.
      assert (W2 : currentWriter (self w2) = Some (i, ""))
        by (rewrite O2; reflexivity).
      assert (Hi2 : (i < length (inodes (fs w2)))%nat)
        by (rewrite O5; eapply Hdisk, Hi).
      assert (Hdisk2 : forall path j, dir (fs w2) !! path = Some j ->
                         (j < length (inodes (fs w2)))%nat).
      { intros path j Hp. rewrite O5. rewrite O4, insert_id in Hp by exact Hi.
        eapply Hdisk, Hp. }
      destruct (writeLine_healthy f rec w2 i W2 Hi2 Hdisk2)
        as (L1 & L2 & L3 & L4 & L5 & L6 & L7 & L8). cbv zeta in *.
      assert (Hbase : base (self w2) = base (self w))
        by (rewrite O2; reflexivity).
      split; [exact L1|]. split; [exact L2|]. split; [rewrite L3; exact O3|].
      split.
      { destruct L4 as (? & ? & ? & ? & ?). unfold sameSetup.
        rewrite O2 in *. cbn in *. auto. }
      exists i. split; [exact L5|]. split; [rewrite L6, Hbase, O5; reflexivity|].
      split; [intros j Hj _; rewrite (L7 j Hj), O5; reflexivity|].
      split; [intros _ h1 held1 [=]|].
      intros _. rewrite L8, O4. apply lookup_insert_eq.
Qed.

(** With a single file kept, [Roll] renames and removes nothing,
    whatever the state of the disk: it closes the appender and leaves the
    directory as it is. *)
Theorem Roll_single_file_keeps_the_directory (w : World) :
  maxFiles (self w) = 1 ->
  let res := Roll w in
  res.2 = None
  /\ dir (fs res.1) = dir (fs w)
  /\ currentWriter (self res.1) = None /\ currentFile (self res.1) = None
  /\ exists more,
       trace (fs res.1) = trace (fs w) ++ more
       /\ forall c, c ∈ more ->
            exists file, (exists data, c = SysWrite file data) \/ c = SysClose file.
Proof.
  intros Hm. cbv zeta.
  unfold Roll. rewrite !RollingFacts.bind_run. unfold modify, get. cbn [fst snd].
  destruct (RollingFacts.Close_calls w) as (_ & Hdir & more & Ht & Hmore).
  rewrite Close_self. unfold set_firstTime.
  cbn [self base prefix suffix maxFileSize maxFiles firstTime currentFile
       currentWriter].
  rewrite Hm. change (Z.to_nat (i16 (1 - 2) + 1)) with 0%nat.
  cbn [rollLoop ret fst snd self fs currentWriter currentFile].
  split; [reflexivity|]. split; [exact Hdir|]. split; [reflexivity|].
  split; [reflexivity|]. exists more. split; [exact Ht | exact Hmore].
Qed.

(** An appender that keeps three files, with the current file and
    generation 1 on disk: after [Roll] they are generations 1 and 2. *)
Lemma Roll_shifts_the_generations_witness :
  let a := NewRollingFileAppender "p" "log" 2048 3 in
  let disk := mkFS (<["p.log" := 0%nat]> (<["p.1.log" := 1%nat]> ∅))
                ["new"; "old"] ∅ [] in
  let d' := dir (fs (Roll (mkWorld a disk)).1) in
  d' !! "p.log" = None /\ d' !! "p.1.log" = Some 0%nat /\ d' !! "p.2.log" = Some 1%nat.
Proof.
  cbv zeta.
  set (a := NewRollingFileAppender "p" "log" 2048 3).
  set (disk := mkFS _ _ _ _).
  assert (Hm : 2 <= maxFiles (self (mkWorld a disk)) <= 32767)
    by (vm_compute; split; discriminate).
  assert (Hd : denied (fs (mkWorld a disk)) = ∅) by reflexivity.
  destruct (Roll_shifts_the_generations (mkWorld a disk) Hm Hd)
    as (_ & H0 & Hmid & Htop & _).
  split; [exact H0|]. split.
  - apply (Hmid 1). vm_compute. split; [discriminate | reflexivity].
  - exact Htop.
Defined.

(** An appender asked to keep no file keeps one: its [Roll] leaves the
    current file in place. *)
Lemma Roll_single_file_keeps_the_directory_witness :
  let a := NewRollingFileAppender "p" "log" 0 0 in
  let disk := mkFS (<["p.log" := 0%nat]> ∅) ["old"] ∅ [] in
  dir (fs (Roll (mkWorld a disk)).1) = <["p.log" := 0%nat]> ∅.
Proof.
  cbv zeta.
  destruct (Roll_single_file_keeps_the_directory
              (mkWorld (NewRollingFileAppender "p" "log" 0 0)
                 (mkFS (<["p.log" := 0%nat]> ∅) ["old"] ∅ [])) eq_refl)
    as (_ & Hdir & _).
  exact Hdir.
Defined.

(** The first [Log] of an appender that keeps two files, on an empty
    disk: the current file is made and holds the line. *)
Lemma Log_appends_one_line_witness :
  let w := mkWorld keepTwo (mkFS ∅ [] ∅ []) in
  let res := Log Logging.minimalFormat
               (Logging.mkRecord 0 0 ERROR None "hello" 0%nat) w in
  res.2 = None
  /\ exists h, dir (fs res.1) !! "p.log" = Some h
               /\ inodes (fs res.1) !!! h = "hello" +:+ Logging.newline.
Proof.
  cbv zeta.
  set (w := mkWorld keepTwo (mkFS ∅ [] ∅ [])).
  set (rec := Logging.mkRecord 0 0 ERROR None "hello" 0%nat).
  assert (Hm : 1 <= maxFiles (self w) <= 32767)
    by (vm_compute; split; discriminate).
  assert (Hd : denied (fs w) = ∅) by reflexivity.
  assert (Hl : Appenders.checkLevel (base (self w)) (Logging.Level rec) = true)
    by reflexivity.
  assert (Hc : consistent w).
  { split; [|exact I]. intros path i H. cbn [w fs dir] in H.
    rewrite lookup_empty in H. discriminate H. }
  assert (Hr : (needsRoll w).2 = true) by reflexivity.
  destruct (Log_appends_one_line Logging.minimalFormat rec w Hm Hd Hl Hc)
    as (H1 & _ & _ & _ & h & _ & Hline & _ & _ & Hdir).
  split; [exact H1|]. exists h. split.
  - apply Hdir. left. exact Hr.
  - rewrite Hr in Hline. exact Hline.
Defined.

End RotationFacts.
